(** * Scheduling conflict solver: a shallow embedding of [scheduling.py]

    The development follows the layout of the script: the week grid and the
    schedule builder ([Schedule]), the subject records with their transient
    bookkeeping ([Subject]), the per-subject enumerator of priority bitmasks
    ([Allocation]) and the recursive search walk ([percolate]) together with
    the acceptance logic it contains.

    Conventions.
    - A [datetime] of the week is the number of minutes since Monday 00:00
      (2017-10-02 in the script), an integer; [timedelta(minutes=5)] is 5.
    - A raised Python exception ([ValueError], [KeyError], [IndexError]) is
      [None] in the [option] monad.
    - The recursion of [percolate] is bounded by a fuel argument; running out
      of fuel is kept apart from a raised exception by the type [outcome].
      The interpreter's own recursion ceiling ([custom_rec_limit]) is not
      modelled.
    - The subject records are mutable objects shared by all builds; a build
      therefore takes the list of records and returns it as it leaves it.
    - A subject file is the list of the lines [readline] returns; how
      loading ends ([sys.exit()] or an exception nobody catches) is kept in
      the type [loading].  A text is a sequence of code points below 256,
      and the character classes are those of [re] and [str] on them.
    - Of the writers [fancy_write] is modelled, by the text it writes;
      [plain_write] and the picture are left out.  The search neither
      reads their results nor depends on them. *)

From stdpp Require Import gmap strings list fin_maps fin_sets sorting pretty.
From Stdlib Require Import ZArith Lia Ascii.

Local Open Scope string_scope.
Local Open Scope list_scope.
Local Open Scope Z_scope.

(** ** Module constants *)

Definition start_of_day : Z := 8.
Definition end_of_day : Z := 19.
Definition no_of_days : Z := 5.
Definition day0 : Z := 2.

(** [datetime(year, month, day, hh, mm)] for the fixed year and month. *)
Definition mk_datetime (day hh mm : Z) : Z := ((day - day0) * 24 + hh) * 60 + mm.

(** Python's [range(a, b)] and [range(a, b, step)] for a positive step. *)
Definition zrange (a b : Z) : list Z :=
  (fun i : nat => a + Z.of_nat i) <$> seq 0 (Z.to_nat (b - a)).

Definition zrange_step (a b step : Z) : list Z :=
  (fun i : nat => a + step * Z.of_nat i) <$> seq 0 (Z.to_nat ((b - a + step - 1) / step)).

(** Python's [list.index]: position of the first equal element. *)
Fixpoint index (l : list Z) (x : Z) : option nat :=
  match l with
  | [] => None
  | y :: l' => if decide (y = x) then Some 0%nat else S <$> index l' x
  end.

(** Truth value of a Python string: the empty string is false. *)
Definition truthy (s : string) : bool := negb (bool_decide (s = "")).

(** ** class Subject *)

Inductive subject_type := UE | VO.

Module Subject.

(** The fields the search engine reads; [locations], [color] and
    [start_times] only matter to the renderers. *)
Record t := mk {
  name : string;
  times : list (Z * Z);
  type : subject_type;
  allocated_times : gset (Z * Z)
}.

Definition mark_allocated (self : t) (selected_time : Z * Z) : t :=
  mk (name self) (times self) (type self) ({[selected_time]} ∪ allocated_times self).

Definition is_complete (self : t) : bool :=
  match type self with
  | VO => bool_decide (allocated_times self = list_to_set (times self))
  | UE => bool_decide (1 ≤ size (allocated_times self))%nat
  end.

Definition is_partially_complete (self : t) : bool :=
  bool_decide (1 ≤ size (allocated_times self))%nat.

Definition reset (self : t) : t :=
  mk (name self) (times self) (type self) ∅.

(** A record as [__init__] leaves it: nothing allocated yet. *)
Definition fresh (self : t) : Prop := allocated_times self = ∅.

End Subject.

(** ** class Allocation *)

(** [itertools.product([True, False], repeat=n)]: the rightmost position
    changes fastest. *)
Fixpoint product_bools (n : nat) : list (list bool) :=
  match n with
  | O => [[]]
  | S k => ((cons true) <$> product_bools k) ++ ((cons false) <$> product_bools k)
  end.

(** [any(booltup)] and [sum(booltup)]. *)
Definition any (booltup : list bool) : bool := existsb id booltup.
Definition sum (booltup : list bool) : Z := Z.of_nat (length (filter (fun b => b = true) booltup)).

Module Allocation.

Record t := mk {
  index : Z;
  has_reached_end : bool;
  array : list (list bool)
}.

Definition init (subject : Subject.t) : t :=
  let tmp := product_bools (length (Subject.times subject)) in
  mk 0 false
     match Subject.type subject with
     | VO => filter (fun booltup => any booltup = true) tmp
     | UE => filter (fun booltup => sum booltup = 1) tmp
     end.

(** Python list indexing: negative positions count from the end, anything
    else out of range raises [IndexError]. *)
Definition getitem {A} (l : list A) (i : Z) : option A :=
  if decide (0 ≤ i) then l !! Z.to_nat i
  else if decide (- Z.of_nat (length l) ≤ i) then l !! Z.to_nat (Z.of_nat (length l) + i)
  else None.

Definition get_array (self : t) : option (list bool) :=
  getitem (array self) (index self).

Definition enables_timeslot := get_array.

Definition advance (self : t) : t :=
  if decide (index self < Z.of_nat (length (array self)) - 1)
  then mk (index self + 1) (has_reached_end self) (array self)
  else mk (index self) true (array self).

Definition reverse (self : t) : t :=
  if decide (index self > 0)
  then mk (index self - 1) (has_reached_end self) (array self)
  else self.

Definition reset_end_status (self : t) : t :=
  mk (index self) false (array self).

End Allocation.

(** ** class Schedule *)

Module Schedule.

Record t := mk {
  table : gmap Z string;
  is_incomplete : bool;
  failed : bool;
  version : option Z
}.

(** The cells [dt_by_index[i]] for [i] in [range(t1, t2)], with
    [t1 = dt_by_index.index(start)] and
    [t2 = dt_by_index.index(end - 5 minutes) + 1]. *)
Definition slot_range (selected_time : Z * Z) (dt_by_index : list Z) : option (list nat) :=
  t1 ← index dt_by_index (fst selected_time);
  t2 ← S <$> index dt_by_index (snd selected_time - 5);
  Some (seq t1 (t2 - t1)).

Fixpoint is_free_loop (schedule : gmap Z string) (dt_by_index : list Z) (ixs : list nat)
  : option bool :=
  match ixs with
  | [] => Some true
  | i :: ixs' =>
      k ← dt_by_index !! i;
      v ← schedule !! k;
      if truthy v then Some false else is_free_loop schedule dt_by_index ixs'
  end.

Definition is_free (schedule : gmap Z string) (selected_time : Z * Z) (dt_by_index : list Z)
  : option bool :=
  ixs ← slot_range selected_time dt_by_index;
  is_free_loop schedule dt_by_index ixs.

Fixpoint fill_loop (schedule : gmap Z string) (name : string) (dt_by_index : list Z)
  (ixs : list nat) : option (gmap Z string) :=
  match ixs with
  | [] => Some schedule
  | i :: ixs' =>
      k ← dt_by_index !! i;
      fill_loop (<[k := name]> schedule) name dt_by_index ixs'
  end.

Definition fill (schedule : gmap Z string) (subject : Subject.t) (selected_time : Z * Z)
  (dt_by_index : list Z) : option (gmap Z string) :=
  ixs ← slot_range selected_time dt_by_index;
  fill_loop schedule (Subject.name subject) dt_by_index ixs.

(** The guarded body shared by both loops of [create_schedule]:
    [if is_free(...): fill(...); subject.mark_allocated(selected_time)]. *)
Definition try_allocate (dtin : list Z) (table : gmap Z string) (subject : Subject.t)
  (selected_time : Z * Z) : option (gmap Z string * Subject.t) :=
  free ← is_free table selected_time dtin;
  if (free : bool) then
    table' ← fill table subject selected_time dtin;
    Some (table', Subject.mark_allocated subject selected_time)
  else Some (table, subject).

(** First loop, one subject: [for i in range(len(subject.times))]. *)
Fixpoint phase1_slots (dtin : list Z) (a : Allocation.t) (ixs : list nat)
  (table : gmap Z string) (subject : Subject.t) : option (gmap Z string * Subject.t) :=
  match ixs with
  | [] => Some (table, subject)
  | i :: ixs' =>
      bits ← Allocation.enables_timeslot a;
      b ← bits !! i;
      '(table', subject') ←
        (if (b : bool) then
           selected_time ← Subject.times subject !! i;
           try_allocate dtin table subject selected_time
         else Some (table, subject));
      phase1_slots dtin a ixs' table' subject'
  end.

Definition phase1_subject (dtin : list Z) (alloc_by_subj : list Allocation.t) (j : nat)
  (table : gmap Z string) (subject : Subject.t) : option (gmap Z string * Subject.t) :=
  a ← alloc_by_subj !! j;
  phase1_slots dtin a (seq 0 (length (Subject.times subject))) table subject.

(** Second loop, one subject: [for selected_time in subject.times]. *)
Fixpoint phase2_slots (dtin : list Z) (ts : list (Z * Z))
  (table : gmap Z string) (subject : Subject.t) : option (gmap Z string * Subject.t) :=
  match ts with
  | [] => Some (table, subject)
  | selected_time :: ts' =>
      '(table', subject') ←
        (if decide (selected_time ∈ Subject.allocated_times subject)
         then Some (table, subject)
         else try_allocate dtin table subject selected_time);
      phase2_slots dtin ts' table' subject'
  end.

Definition phase2_subject (dtin : list Z) (j : nat)
  (table : gmap Z string) (subject : Subject.t) : option (gmap Z string * Subject.t) :=
  match Subject.type subject with
  | VO => phase2_slots dtin (Subject.times subject) table subject
  | UE => Some (table, subject)
  end.

(** [for subject in subjects: body]: the body may write the table and the
    record of the subject it is visiting; [j] is the subject's position,
    which stands for its identity as a dictionary key. *)
Fixpoint for_subjects
  (body : nat → gmap Z string → Subject.t → option (gmap Z string * Subject.t))
  (j : nat) (subjects : list Subject.t) (table : gmap Z string)
  : option (gmap Z string * list Subject.t) :=
  match subjects with
  | [] => Some (table, [])
  | subject :: rest =>
      '(table', subject') ← body j table subject;
      '(table'', rest') ← for_subjects body (S j) rest table';
      Some (table'', subject' :: rest')
  end.

(** Third loop: the two flags, then [subject.reset()]. *)
Fixpoint classify (subjects : list Subject.t) (is_incomplete failed : bool)
  : bool * bool * list Subject.t :=
  match subjects with
  | [] => (is_incomplete, failed, [])
  | subject :: rest =>
      let '(is_incomplete', failed') :=
        if negb (Subject.is_partially_complete subject) then (is_incomplete, true)
        else if negb (Subject.is_complete subject) then (true, failed)
        else (is_incomplete, failed) in
      let '(i, f, rest') := classify rest is_incomplete' failed' in
      (i, f, Subject.reset subject :: rest')
  end.

(** The two filling loops of [create_schedule]: the table and the subject
    records just before the flags are computed. *)
Definition allocate (subjects : list Subject.t) (alloc_by_subj : list Allocation.t)
  (table : gmap Z string) (dtin : list Z) : option (gmap Z string * list Subject.t) :=
  '(table1, subjects1) ← for_subjects (phase1_subject dtin alloc_by_subj) 0 subjects table;
  for_subjects (phase2_subject dtin) 0 subjects1 table1.

(** [create_schedule]: the new object's fields and the subject records as
    the call leaves them. *)
Definition create_schedule (subjects : list Subject.t) (alloc_by_subj : list Allocation.t)
  (table : gmap Z string) (dtin : list Z) : option (t * list Subject.t) :=
  '(table2, subjects2) ← allocate subjects alloc_by_subj table dtin;
  let '(is_incomplete, failed, subjects3) := classify subjects2 false false in
  Some (mk table2 is_incomplete failed None, subjects3).

(** [Schedule(subjects, alloc_by_subj, blank, dt_by_index)]:
    [self.table = blank.copy()], then [create_schedule]. *)
Definition init (subjects : list Subject.t) (alloc_by_subj : list Allocation.t)
  (blank : gmap Z string) (dt_by_index : list Z) : option (t * list Subject.t) :=
  create_schedule subjects alloc_by_subj blank dt_by_index.

(** [__eq__]: two schedules are equal when their tables are. *)
Definition eqb (self other : t) : bool := bool_decide (table self = table other).

Definition empty_schedule : gmap Z string :=
  list_to_map
    (day ← zrange day0 (day0 + no_of_days);
     hh ← zrange start_of_day end_of_day;
     mm ← zrange_step 0 60 5;
     [(mk_datetime day hh mm, "")]).

End Schedule.

(** ** Module-level state and [percolate] *)

(** [blank_schedule = Schedule.empty_schedule()] and
    [dt_by_index = sorted(blank_schedule.keys())]. *)
Definition blank_schedule : gmap Z string := Schedule.empty_schedule.
Definition dt_by_index : list Z := merge_sort Z.le (elements (dom blank_schedule)).

(** The globals [percolate] reads and writes.  [alloc_by_subj] is the
    dictionary in insertion order: its [j]-th entry belongs to the [j]-th
    subject.  [builds] is not in the script: it logs, most recent first, the
    signature of every [Schedule(...)] constructed, so that the number of
    builder calls can be stated. *)
Record state := mk_state {
  subjects : list Subject.t;
  alloc_by_subj : list Allocation.t;
  permutations : gset (list (list bool));
  saved_schedules : list Schedule.t;
  duplicates : Z;
  builds : list (list (list bool))
}.

Inductive outcome (A : Type) :=
| Done (a : A)
| Raised
| OutOfFuel.
Arguments Done {A} a.
Arguments Raised {A}.
Arguments OutOfFuel {A}.

Definition set_alloc (st : state) (allocs : list Allocation.t) : state :=
  mk_state (subjects st) allocs (permutations st) (saved_schedules st) (duplicates st)
           (builds st).

(** [alloc_by_subj[subject].f()] for the subject at position [k]. *)
Definition call_alloc (f : Allocation.t → Allocation.t) (k : nat) (st : state) : state :=
  set_alloc st (alter f k (alloc_by_subj st)).

(** First loop of [percolate]: position of the first enumerator whose
    end-of-range flag is set. *)
Fixpoint find_reached_end (allocs : list Allocation.t) : option nat :=
  match allocs with
  | [] => None
  | a :: rest =>
      if Allocation.has_reached_end a then Some 0%nat
      else S <$> find_reached_end rest
  end.

(** [saved_schedules.index(schedule)], with [Schedule.__eq__]. *)
Fixpoint index_schedule (l : list Schedule.t) (schedule : Schedule.t) : option nat :=
  match l with
  | [] => None
  | x :: l' => if Schedule.eqb x schedule then Some 0%nat else S <$> index_schedule l' schedule
  end.

Definition set_version (schedule : Schedule.t) (v : Z) : Schedule.t :=
  Schedule.mk (Schedule.table schedule) (Schedule.is_incomplete schedule)
              (Schedule.failed schedule) (Some v).

(** The acceptance step of [percolate] (the [if schedule.failed / elif any /
    else] block), on the two globals it touches.  The writers and the
    renderer only consume the accepted schedule. *)
Definition submit (schedule : Schedule.t) (saved : list Schedule.t) (dups : Z)
  : option (list Schedule.t * Z) :=
  if Schedule.failed schedule then Some (saved, dups)
  else if existsb (fun element => Schedule.eqb schedule element) saved
  then Some (saved, dups + 1)
  else
    i ← index_schedule (saved ++ [schedule]) schedule;
    Some (saved ++ [set_version schedule (Z.of_nat i + 1)], dups).

(** Last loop of [percolate]: for every subject, advance its enumerator,
    recurse, step back. *)
Fixpoint neighbours (rec : state → outcome state) (ks : list nat) (st : state)
  : outcome state :=
  match ks with
  | [] => Done st
  | k :: ks' =>
      match rec (call_alloc Allocation.advance k st) with
      | Done st' => neighbours rec ks' (call_alloc Allocation.reverse k st')
      | Raised => Raised
      | OutOfFuel => OutOfFuel
      end
  end.

Fixpoint percolate (fuel : nat) (st : state) : outcome state :=
  match fuel with
  | O => OutOfFuel
  | S fuel' =>
      match find_reached_end (alloc_by_subj st) with
      | Some k => Done (call_alloc Allocation.reset_end_status k st)
      | None =>
          match mapM Allocation.enables_timeslot (alloc_by_subj st) with
          | None => Raised
          | Some perm_check =>
              if decide (perm_check ∈ permutations st) then Done st
              else
                match Schedule.init (subjects st) (alloc_by_subj st)
                                    blank_schedule dt_by_index with
                | None => Raised
                | Some (schedule, subjects') =>
                    match submit schedule (saved_schedules st) (duplicates st) with
                    | None => Raised
                    | Some (saved', dups') =>
                        neighbours (percolate fuel')
                          (seq 0 (length (alloc_by_subj st)))
                          (mk_state subjects' (alloc_by_subj st)
                             ({[perm_check]} ∪ permutations st)
                             saved' dups' (perm_check :: builds st))
                    end
                end
          end
      end
  end.

(** The state the script starts the search from. *)
Definition initial_state (subjects : list Subject.t) : state :=
  mk_state subjects (Allocation.init <$> subjects) ∅ [] 0 [].

(** ** A worked input: three exclusive-choice subjects *)

(** Slots are given by weekday (0 = Monday) and clock times. *)
Definition slot (wd bh bm eh em : Z) : Z * Z :=
  (mk_datetime (day0 + wd) bh bm, mk_datetime (day0 + wd) eh em).

Definition mk_subject (name : string) (ty : subject_type) (times : list (Z * Z)) : Subject.t :=
  Subject.mk name times ty ∅.

Definition subj_A : Subject.t :=
  mk_subject "A" UE [slot 0 8 0 9 0; slot 0 9 0 10 0; slot 0 10 0 11 0; slot 0 11 0 12 0].
Definition subj_B : Subject.t :=
  mk_subject "B" UE [slot 1 8 0 9 0; slot 1 9 0 10 0; slot 1 10 0 11 0].
Definition subj_C : Subject.t :=
  mk_subject "C" UE [slot 2 8 0 9 0; slot 2 9 0 10 0; slot 2 10 0 11 0].

(** ** Calls on an enumerator *)

Inductive alloc_call := Advance | Reverse | ResetEndStatus.

Definition do_call (a : Allocation.t) (c : alloc_call) : Allocation.t :=
  match c with
  | Advance => Allocation.advance a
  | Reverse => Allocation.reverse a
  | ResetEndStatus => Allocation.reset_end_status a
  end.

Definition do_calls (a : Allocation.t) (cs : list alloc_call) : Allocation.t :=
  foldl do_call a cs.

(** ** Vocabulary for the builder's properties *)

(** What the filling loops did for one subject, read off its record before
    the final loop resets it. *)
Definition got_no_slot (s : Subject.t) : Prop := Subject.allocated_times s = ∅.
Definition got_all_slots (s : Subject.t) : Prop :=
  Subject.allocated_times s = list_to_set (Subject.times s).

(** The fields of a subject record that no call writes. *)
Definition same_subject (s s' : Subject.t) : Prop :=
  Subject.name s = Subject.name s' ∧ Subject.times s = Subject.times s' ∧
  Subject.type s = Subject.type s'.

(** Every cell that holds a non-empty string in [t] holds the same string
    in [t']. *)
Definition cells_kept (t t' : gmap Z string) : Prop :=
  ∀ k v, t !! k = Some v → v ≠ "" → t' !! k = Some v.

(** The two flags as the classification is worded: [failed] iff some subject
    got no slot, [is_incomplete] iff not failed and some "VO" subject did not
    get all of its slots. *)
Definition flags_as_worded (schedule : Schedule.t) (placed : list Subject.t) : Prop :=
  (Schedule.failed schedule = true ↔ Exists got_no_slot placed) ∧
  (Schedule.is_incomplete schedule = true ↔
   Schedule.failed schedule = false ∧
   Exists (fun s => Subject.type s = VO ∧ ¬ got_all_slots s) placed).

(** The records after the call still tell which slots were placed. *)
Definition allocations_readable (placed after : list Subject.t) : Prop :=
  Forall2 (fun p a => Subject.allocated_times a = Subject.allocated_times p) placed after.

(** A sequence of earlier constructor calls on the same subject records,
    each with its own bitmask assignment and blank grid. *)
Fixpoint after_builds (subjects : list Subject.t)
  (earlier : list (list Allocation.t * gmap Z string)) (dtin : list Z)
  : option (list Subject.t) :=
  match earlier with
  | [] => Some subjects
  | (alloc_by_subj, blank) :: rest =>
      '(_, subjects') ← Schedule.init subjects alloc_by_subj blank dtin;
      after_builds subjects' rest dtin
  end.

(** A worked input with a blocked lecture and a blocked exercise: "C" takes
    Monday 10-11, "A" wants Monday 8-9 and 10-11, "B" wants Monday 8-9. *)
Definition subj_C1 : Subject.t := mk_subject "C" UE [slot 0 10 0 11 0].
Definition subj_A2 : Subject.t := mk_subject "A" VO [slot 0 8 0 9 0; slot 0 10 0 11 0].
Definition subj_B1 : Subject.t := mk_subject "B" UE [slot 0 8 0 9 0].
Definition subjects_CAB : list Subject.t := [subj_C1; subj_A2; subj_B1].
Definition allocs_CAB : list Allocation.t := Allocation.init <$> subjects_CAB.

(** The enumerator's index points into its list of choices. *)
Definition in_range (a : Allocation.t) : Prop :=
  0 ≤ Allocation.index a ≤ Z.of_nat (length (Allocation.array a)) - 1.

(** One or more guarded fills by subjects named in [names]: non-empty cells
    are kept, and a cell that changed was empty and now holds one of the
    names. *)
Definition table_step (names : list string) (t t' : gmap Z string) : Prop :=
  cells_kept t t' ∧
  ∀ k, t' !! k = t !! k ∨ (t !! k = Some "" ∧ ∃ n, n ∈ names ∧ t' !! k = Some n).

(** What a build may do to a subject record: add to its allocated slots. *)
Definition subject_step (s s' : Subject.t) : Prop :=
  same_subject s s' ∧ Subject.allocated_times s ⊆ Subject.allocated_times s'.

(** ** The search space *)

(** All signatures: one choice from every enumerator's list, in subject
    order. *)
Fixpoint signatures (arrays : list (list (list bool))) : list (list (list bool)) :=
  match arrays with
  | [] => [[]]
  | array :: rest => booltup ← array; sig ← signatures rest; [booltup :: sig]
  end.

Definition arrays (st : state) : list (list (list bool)) :=
  Allocation.array <$> alloc_by_subj st.


(** The product of the per-subject choice counts. *)
Definition n_signatures (st : state) : nat :=
  foldr Nat.mul 1%nat (length <$> arrays st).

(** The signature "A" first slot, "B" third slot, "C" first slot of the
    worked input with three exclusive-choice subjects. *)
Definition missed_signature : list (list bool) :=
  [[true; false; false; false]; [false; false; true]; [true; false; false]].



(** Observations on results, for evaluating the worked inputs. *)
Definition is_done {A} (o : outcome A) : bool :=
  match o with Done _ => true | _ => false end.

Definition returned {A} (o : option A) : bool :=
  match o with Some _ => true | None => false end.

(** ** The builder as the design document words it

    A second description of the filling algorithm, written from the design
    document (section 4.2) rather than from the script: a slot's cells are
    the grid instants in [start, end), the allocated slots of a subject are
    a set carried along with the grid, and a subject's bitmask is paired
    with its slots position by position. *)

Definition slot_cells (grid_times : list Z) (s : Z * Z) : list Z :=
  filter (fun k => fst s ≤ k < snd s) grid_times.

Definition all_empty (grid : gmap Z string) (cells : list Z) : bool :=
  forallb (fun k => bool_decide (grid !! k = Some "")) cells.

Definition write_name (grid : gmap Z string) (name : string) (cells : list Z)
  : gmap Z string :=
  foldr (fun k g => <[k := name]> g) grid cells.

(** "If every grid cell spanning the slot is currently empty, write the
    subject's name into all those cells and record the slot as allocated;
    otherwise skip the slot silently." *)
Definition place (grid_times : list Z) (name : string)
  (g : gmap Z string * gset (Z * Z)) (s : Z * Z) : gmap Z string * gset (Z * Z) :=
  let cells := slot_cells grid_times s in
  if all_empty g.1 cells then (write_name g.1 name cells, {[s]} ∪ g.2) else g.

(** Phase 1 for one subject: its slots in definition order, those whose bit
    is set. *)
Fixpoint priority_fill (grid_times : list Z) (name : string)
  (slots : list (Z * Z)) (bits : list bool) (g : gmap Z string * gset (Z * Z))
  : gmap Z string * gset (Z * Z) :=
  match slots, bits with
  | s :: slots', b :: bits' =>
      priority_fill grid_times name slots' bits'
        (if b then place grid_times name g s else g)
  | _, _ => g
  end.

(** Phase 2 for one subject: "VO" only; every slot not yet allocated,
    whatever its bit. *)
Definition best_effort_fill (grid_times : list Z) (subject : Subject.t)
  (g : gmap Z string * gset (Z * Z)) : gmap Z string * gset (Z * Z) :=
  match Subject.type subject with
  | VO =>
      foldl (fun g s => if decide (s ∈ g.2) then g
                        else place grid_times (Subject.name subject) g s)
            g (Subject.times subject)
  | UE => g
  end.

Fixpoint spec_phase1 (grid_times : list Z) (subjects : list Subject.t)
  (bitmasks : list (list bool)) (grid : gmap Z string)
  : gmap Z string * list (gset (Z * Z)) :=
  match subjects, bitmasks with
  | subject :: subjects', bits :: bitmasks' =>
      let g := priority_fill grid_times (Subject.name subject) (Subject.times subject)
                 bits (grid, ∅) in
      let r := spec_phase1 grid_times subjects' bitmasks' g.1 in
      (r.1, g.2 :: r.2)
  | _, _ => (grid, [])
  end.

Fixpoint spec_phase2 (grid_times : list Z) (subjects : list Subject.t)
  (allocated : list (gset (Z * Z))) (grid : gmap Z string)
  : gmap Z string * list (gset (Z * Z)) :=
  match subjects, allocated with
  | subject :: subjects', a :: allocated' =>
      let g := best_effort_fill grid_times subject (grid, a) in
      let r := spec_phase2 grid_times subjects' allocated' g.1 in
      (r.1, g.2 :: r.2)
  | _, _ => (grid, [])
  end.

(** What the builder assumes of its inputs: the instants of the grid in
    increasing order, all on the 5-minute raster, each with a cell in the
    table; every slot starting on a grid instant and ending 5 minutes after
    one. *)
Definition grid_ok (dtin : list Z) (table : gmap Z string) : Prop :=
  StronglySorted Z.lt dtin ∧
  Forall (fun k => k mod 5 = 0) dtin ∧
  Forall (fun k => is_Some (table !! k)) dtin.

Definition slot_on_grid (dtin : list Z) (s : Z * Z) : Prop :=
  fst s ∈ dtin ∧ snd s - 5 ∈ dtin.

(** The two phases as they are worded, for every subject list, bitmask
    assignment and blank grid: the builder returns, and its grid is the one
    of the two phases. *)
Definition two_phases_as_worded (subjects : list Subject.t)
  (alloc_by_subj : list Allocation.t) (bitmasks : list (list bool))
  (blank : gmap Z string) (dtin : list Z) : Prop :=
  let phase1 := spec_phase1 dtin subjects bitmasks blank in
  let phase2 := spec_phase2 dtin subjects phase1.2 phase1.1 in
  ∃ schedule subjects',
    Schedule.create_schedule subjects alloc_by_subj blank dtin = Some (schedule, subjects') ∧
    Schedule.table schedule = phase2.1.

(** A subject record with another set of allocated slots. *)
Definition with_allocated (s : Subject.t) (a : gset (Z * Z)) : Subject.t :=
  Subject.mk (Subject.name s) (Subject.times s) (Subject.type s) a.


(** ** The grid and the records as a placement

    Vocabulary for what a build leaves behind, read from the grid and from
    the subject records before the final loop resets them. *)

(** Every allocated slot is drawn: each of its cells holds the name of the
    subject it was allocated to. *)
Definition slots_drawn (dtin : list Z) (table : gmap Z string) (ss : list Subject.t) : Prop :=
  ∀ j s sel k, ss !! j = Some s → sel ∈ Subject.allocated_times s →
               k ∈ slot_cells dtin sel → table !! k = Some (Subject.name s).

(** No cell belongs to two allocated slots. *)
Definition slots_disjoint (dtin : list Z) (ss : list Subject.t) : Prop :=
  ∀ j1 s1 sel1 j2 s2 sel2 k,
    ss !! j1 = Some s1 → sel1 ∈ Subject.allocated_times s1 → k ∈ slot_cells dtin sel1 →
    ss !! j2 = Some s2 → sel2 ∈ Subject.allocated_times s2 → k ∈ slot_cells dtin sel2 →
    j1 = j2 ∧ sel1 = sel2.

(** Every cell that holds a name held it in the blank grid already or lies in
    an allocated slot of a subject of that name. *)
Definition cells_accounted (dtin : list Z) (blank table : gmap Z string)
  (ss : list Subject.t) : Prop :=
  ∀ k n, table !! k = Some n → n ≠ "" →
         blank !! k = Some n ∨
         ∃ j s sel, ss !! j = Some s ∧ Subject.name s = n ∧
                    sel ∈ Subject.allocated_times s ∧ k ∈ slot_cells dtin sel.

(** The invariant of the two filling loops. *)
Definition placement (dtin : list Z) (blank table : gmap Z string)
  (ss : list Subject.t) : Prop :=
  grid_ok dtin table ∧
  Forall (fun s => Subject.name s ≠ "") ss ∧
  Forall (fun s => set_Forall (slot_on_grid dtin) (Subject.allocated_times s)) ss ∧
  slots_drawn dtin table ss ∧ slots_disjoint dtin ss ∧ cells_accounted dtin blank table ss.

(** ** More worked inputs *)

(** A subject whose only slot is on a Saturday, and one with no slot. *)
Definition subj_Sat : Subject.t := mk_subject "S" UE [slot 5 10 0 11 0].
Definition subj_none : Subject.t := mk_subject "N" UE [].

(** Two exercises with four and three slots on different days, and a lecture
    on Monday 8-9 and 10-11 with an exercise on Tuesday: nothing is in the
    way, so that the search saves schedules. *)
Definition subjects_UE : list Subject.t := [subj_A; subj_B].
Definition subjects_AB : list Subject.t := [subj_A2; subj_B].

(** ** What the search keeps count of *)

(** The bookkeeping of a search over the enumerator lists [A]: the builder
    was called once for each signature in [permutations], each of them a
    signature of [A], and every call ended in at most one of "saved" and
    "duplicate". *)
(** What the search keeps count of, against the signatures it was started on. *)
Definition tally (A : list (list (list bool))) (st : state) : Prop :=
  arrays st = A ∧
  NoDup (builds st) ∧ list_to_set (builds st) = permutations st ∧
  (∀ sig, sig ∈ builds st → sig ∈ signatures A) ∧
  0 ≤ duplicates st ∧
  Z.of_nat (length (saved_schedules st)) + duplicates st ≤ Z.of_nat (length (builds st)).

(** The saved schedules are numbered 1, 2, ... in the order they were saved,
    and none of them is failed. *)
Definition numbered (saved : list Schedule.t) : Prop :=
  ∀ i schedule, saved !! i = Some schedule →
                Schedule.version schedule = Some (Z.of_nat i + 1) ∧
                Schedule.failed schedule = false.

(** The state of a search over a single subject [s] whose enumerator stands
    at position [i] of its list [A], no choice from [i] on seen yet. *)
Definition single_at (s : Subject.t) (A : list (list bool)) (i : nat) (st : state) : Prop :=
  subjects st = [s] ∧
  alloc_by_subj st = [Allocation.mk (Z.of_nat i) false A] ∧
  ∀ k bits, (i ≤ k)%nat → A !! k = Some bits → [bits] ∉ permutations st.

(** ** [create_filename] *)

(** [create_filename]; reading [schedule.version] before it is assigned
    raises [AttributeError]. *)
Definition create_filename (schedule : Schedule.t) : option string :=
  let completeness := if Schedule.is_incomplete schedule then "_INCOMPLETE_" else "" in
  version ← Schedule.version schedule;
  Some ("schedule" +:+ pretty version +:+ completeness).

(** Whether a character occurs in a string. *)
Fixpoint occurs (c : ascii) (s : string) : bool :=
  match s with
  | EmptyString => false
  | String a s' => if decide (a = c) then true else occurs c s'
  end.

(** ** Regular expressions

    The script reads its input with the [re] module.  The expressions it
    uses are kept as syntax trees and matched by a backtracking matcher that
    tries alternatives in the order [re] does.  A character is a code point
    below 256; [\w], [\s] and [str.rstrip] are those of Python on text
    ([str]), where they also take characters above 127. *)

Definition newline : ascii := ascii_of_nat 10.

Definition code_in (lo hi : nat) (c : ascii) : bool :=
  (lo <=? nat_of_ascii c)%nat && (nat_of_ascii c <=? hi)%nat.

(** The classes [\d], [A-Z] and [a-z]: below 256 the only decimal digits
    are [0] to [9]. *)
Definition re_digit (c : ascii) : bool := code_in 48 57 c.
Definition re_upper (c : ascii) : bool := code_in 65 90 c.
Definition re_lower (c : ascii) : bool := code_in 97 122 c.

(** The alphanumeric characters from 128 to 255: the letters of Latin-1
    (all of 192 to 255 but the two signs 215 and 247, and 170, 181, 186)
    and the superscript digits and fractions. *)
Definition latin1_alnum (c : ascii) : bool :=
  code_in 170 170 c || code_in 178 179 c || code_in 181 181 c || code_in 185 186 c ||
  code_in 188 190 c || code_in 192 214 c || code_in 216 246 c || code_in 248 255 c.

(** [\w]: alphanumeric or the underscore. *)
Definition re_word (c : ascii) : bool :=
  re_digit c || re_upper c || re_lower c || bool_decide (c = "_"%char) || latin1_alnum c.

(** [\s], which is also what [str.rstrip] strips: the ASCII white space
    (9 to 13 and 28 to 32), the next-line control 133 and the no-break
    space 160. *)
Definition re_space (c : ascii) : bool :=
  code_in 9 13 c || code_in 28 32 c || code_in 133 133 c || code_in 160 160 c.
Definition re_any (c : ascii) : bool := negb (bool_decide (c = newline)).
Definition one_of (cs : list ascii) (c : ascii) : bool := bool_decide (c ∈ cs).

(** [str.swapcase] on one ASCII character; the script applies it to the
    letters of [weekdays] only. *)
Definition swapcase (c : ascii) : ascii :=
  if re_upper c then ascii_of_nat (nat_of_ascii c + 32)
  else if re_lower c then ascii_of_nat (nat_of_ascii c - 32)
  else c.

(** The regular expressions of the script as syntax trees. *)
Inductive regex :=
| Chr (p : ascii → bool)
| Rep (p : ascii → bool) (lo : nat) (hi : option nat)
| Cat (r1 r2 : regex)
| Alt (r1 r2 : regex)
| Opt (r : regex)
| Group (n : nat) (r : regex)
| Eps
| Bol
| Eol.

(** The groups a match has set, latest first. *)
Definition captures := list (nat * string).

(** [match.group(n)]: [None] when the group took no part in the match. *)
Fixpoint group (caps : captures) (n : nat) : option string :=
  match caps with
  | [] => None
  | (m, s) :: rest => if decide (m = n) then Some s else group rest n
  end.

Fixpoint string_take (n : nat) (s : string) : string :=
  match n, s with
  | S n', String a s' => String a (string_take n' s')
  | _, _ => ""
  end.

Fixpoint string_drop (n : nat) (s : string) : string :=
  match n, s with
  | S n', String _ s' => string_drop n' s'
  | _, _ => s
  end.

Definition below (count : nat) (hi : option nat) : bool :=
  match hi with Some h => (count <? h)%nat | None => true end.

Section matcher.

Context {R : Type}.

(** Greedy repetition of one character class: as many as possible first. *)
Fixpoint rep_k (p : ascii → bool) (lo : nat) (hi : option nat) (count pos : nat)
  (text : string) (caps : captures) (k : nat → string → captures → option R) : option R :=
  let stop := if (lo <=? count)%nat then k pos text caps else None in
  match text with
  | String a rest =>
      if p a && below count hi then
        match rep_k p lo hi (S count) (S pos) rest caps k with
        | Some r => Some r
        | None => stop
        end
      else stop
  | EmptyString => stop
  end.

(** A backtracking matcher: the expression is matched at position [pos],
    where [text] is what is left of the subject string; [k] is what has to
    match after it.  Alternatives are tried in Python's order. *)
Fixpoint re_k (r : regex) (pos : nat) (text : string) (caps : captures)
  (k : nat → string → captures → option R) : option R :=
  match r with
  | Chr p =>
      match text with
      | String a rest => if p a then k (S pos) rest caps else None
      | EmptyString => None
      end
  | Rep p lo hi => rep_k p lo hi 0 pos text caps k
  | Cat r1 r2 => re_k r1 pos text caps (fun pos' text' caps' => re_k r2 pos' text' caps' k)
  | Alt r1 r2 =>
      match re_k r1 pos text caps k with
      | Some c => Some c
      | None => re_k r2 pos text caps k
      end
  | Opt r1 =>
      match re_k r1 pos text caps k with
      | Some c => Some c
      | None => k pos text caps
      end
  | Group n r1 =>
      re_k r1 pos text caps
        (fun pos' text' caps' => k pos' text' ((n, string_take (pos' - pos) text) :: caps'))
  | Eps => k pos text caps
  | Bol => if decide (pos = 0%nat) then k pos text caps else None
  | Eol =>
      if decide (text = "" ∨ text = String newline "") then k pos text caps else None
  end.

End matcher.

(** [re.match]: a match at the start of the text. *)
Definition re_match (pattern : regex) (text : string) : option captures :=
  re_k pattern 0 text [] (fun _ _ caps => Some caps).

(** [re.search]: the first position from which the expression matches. *)
Fixpoint re_search_from (pattern : regex) (pos : nat) (text : string) : option captures :=
  match re_k pattern pos text [] (fun _ _ caps => Some caps) with
  | Some caps => Some caps
  | None =>
      match text with
      | String _ rest => re_search_from pattern (S pos) rest
      | EmptyString => None
      end
  end.

Definition re_search (pattern : regex) (text : string) : option captures :=
  re_search_from pattern 0 text.

(** Expressions in a row, and a literal text. *)
Definition cats (rs : list regex) : regex := foldr Cat Eps rs.

Fixpoint literal (s : string) : regex :=
  match s with
  | EmptyString => Eps
  | String a s' => Cat (Chr (one_of [a])) (literal s')
  end.

(** ** Week days: [weekday_patterns] and [Subject.weekday_number] *)

Definition weekdays : list string :=
  ["Montag"; "Dienstag"; "Mittwoch"; "Donnerstag"; "Freitag"; "Samstag"; "Sonntag"].
Definition abbreviation_length : nat := 2.

Fixpoint string_chars (s : string) : list ascii :=
  match s with
  | EmptyString => []
  | String a s' => a :: string_chars s'
  end.

(** The class body of [Subject]: one pattern per week day,
    ["[" + c + c.swapcase() + "]"] for each of the first
    [abbreviation_length] characters, then the rest of the name as an
    optional group, then [$].  *)
Definition weekday_pattern (daystr : string) : regex :=
  let tmp := foldl (fun tmp c => Cat tmp (Chr (one_of [c; swapcase c]))) Eps
                   (string_chars (string_take abbreviation_length daystr)) in
  Cat tmp (Cat (Opt (Group 1 (literal (string_drop abbreviation_length daystr)))) Eol).

Definition weekday_patterns : list regex := weekday_pattern <$> weekdays.

(** [weekday_number]: the position of the first pattern that matches, and
    [None] (Python's [None], returned by falling off the end) when none
    does. *)
Fixpoint weekday_number_from (i : Z) (patterns : list regex) (weekday : string) : option Z :=
  match patterns with
  | [] => None
  | pattern :: rest =>
      if re_match pattern weekday is Some _ then Some i
      else weekday_number_from (i + 1) rest weekday
  end.

Definition weekday_number (weekday : string) : option Z :=
  weekday_number_from 0 weekday_patterns weekday.

(** ** [Subject.__init__]: reading a subject file *)

(** The patterns of the class [Subject], here [r"(.+)\.txt$"]. *)
Definition name_pattern : regex :=
  cats [Group 1 (Rep re_any 1 None); literal ".txt"; Eol].

(** [r"^(\w+)\W?\s+(\d{1,2})[:.](\d\d)-(\d{1,2})[:.](\d\d)\W?(\s+)?(.+)?$"] *)
Definition time_loc_pattern : regex :=
  cats [Bol; Group 1 (Rep re_word 1 None); Opt (Chr (fun c => negb (re_word c)));
        Rep re_space 1 None;
        Group 2 (Rep re_digit 1 (Some 2%nat)); Chr (one_of [":"; "."]%char);
        Group 3 (Cat (Chr re_digit) (Chr re_digit)); Chr (one_of ["-"%char]);
        Group 4 (Rep re_digit 1 (Some 2%nat)); Chr (one_of [":"; "."]%char);
        Group 5 (Cat (Chr re_digit) (Chr re_digit));
        Opt (Chr (fun c => negb (re_word c)));
        Opt (Group 6 (Rep re_space 1 None)); Opt (Group 7 (Rep re_any 1 None)); Eol].

(** [r"[Uu][Ee]"] and [r"[Vv][Oo]"] *)
Definition ue_pattern : regex := Cat (Chr (one_of ["U"; "u"]%char)) (Chr (one_of ["E"; "e"]%char)).
Definition vo_pattern : regex := Cat (Chr (one_of ["V"; "v"]%char)) (Chr (one_of ["O"; "o"]%char)).

(** [r"^\(?(\d{1,3})\)? ?\W? ?\(?(\d{1,3})\)? ?\W? ?\(?(\d{1,3})\)?$"] *)
Definition color_tuple_pattern : regex :=
  let number n :=
    [Opt (Chr (one_of ["("%char])); Group n (Rep re_digit 1 (Some 3%nat));
     Opt (Chr (one_of [")"%char]))] in
  let between :=
    [Opt (Chr (one_of [" "%char])); Opt (Chr (fun c => negb (re_word c)));
     Opt (Chr (one_of [" "%char]))] in
  cats ([Bol] ++ number 1%nat ++ between ++ number 2%nat ++ between ++ number 3%nat ++ [Eol]).

(** [r"(^#[\dA-Fa-f]{3,6}$|^[A-Za-z]+$)"] *)
Definition color_string_pattern : regex :=
  Group 1
    (Alt (cats [Bol; Chr (one_of ["#"%char]);
                Rep (fun c => re_digit c || code_in 65 70 c || code_in 97 102 c) 3 (Some 6%nat);
                Eol])
         (cats [Bol; Rep (fun c => re_upper c || re_lower c) 1 None; Eol])).

(** [str.rstrip()]: without the white space at the end. *)
Fixpoint rstrip (s : string) : string :=
  match s with
  | EmptyString => ""
  | String a s' =>
      match rstrip s' with
      | EmptyString => if re_space a then "" else String a ""
      | r => String a r
      end
  end.

(** [int(text)] for a text of decimal digits. *)
Definition int_of_digits (s : string) : Z :=
  foldl (fun acc c => 10 * acc + (Z.of_nat (nat_of_ascii c) - 48)) 0 (string_chars s).

(** [datetime(year, month, day, hh, mm)]; [ValueError] for a field out of
    range (October has 31 days). *)
Definition datetime (day hh mm : Z) : option Z :=
  if decide (1 ≤ day ≤ 31 ∧ 0 ≤ hh ≤ 23 ∧ 0 ≤ mm ≤ 59) then Some (mk_datetime day hh mm)
  else None.

(** How loading ends: with a value, with [sys.exit()] after an error
    message, or with an exception nobody catches. *)
Inductive loading (A : Type) :=
| Loaded (a : A)
| Exits
| Crashes.
Arguments Loaded {A} a.
Arguments Exits {A}.
Arguments Crashes {A}.

(** The body of [if line:] in the reading loop: one line with a time and,
    optionally, a location. *)
Definition read_time_line (line : string) : loading ((Z * Z) * string) :=
  match re_search time_loc_pattern line with
  | Some m =>
      match group m 1 ≫= weekday_number with
      | None => Exits
      | Some wd =>
          let day := day0 + wd in
          let begh := int_of_digits (default "" (group m 2)) in
          let begm := int_of_digits (default "" (group m 3)) in
          let endh := int_of_digits (default "" (group m 4)) in
          let endm := int_of_digits (default "" (group m 5)) in
          match datetime day begh begm, datetime day endh endm with
          | Some t1, Some t2 => Loaded ((t1, t2), default "" (group m 7))
          | _, _ => Crashes
          end
      end
  | None => Exits
  end.

(** [fh.readline()]: the next line, the empty string at the end of the file. *)
Definition readline (fh : list string) : string * list string :=
  match fh with
  | [] => ("", [])
  | line :: rest => (line, rest)
  end.

(** The loop [while line:] with its counter [n].  Every pass but possibly
    the first reads a line and the pass after the end of the file leaves
    the loop, so three more units of fuel than there are lines left are
    enough. *)
Fixpoint read_times (fuel : nat) (fh : list string) (line : string) (n skip_reading : nat)
  (times : list (Z * Z)) (locations : list string)
  : option (loading (list (Z * Z) * list string)) :=
  match fuel with
  | O => None
  | S fuel' =>
      if decide (line = "") then Some (Loaded (times, locations))
      else
        let '(line, fh) :=
          if (skip_reading <=? n)%nat then (rstrip (readline fh).1, (readline fh).2)
          else (line, fh) in
        if decide (line = "") then
          read_times fuel' fh line (S n) skip_reading times locations
        else
          match read_time_line line with
          | Loaded (time, location) =>
              read_times fuel' fh line (S n) skip_reading
                         (times ++ [time]) (locations ++ [location])
          | Exits => Some Exits
          | Crashes => Some Crashes
          end
  end.

Inductive color_t :=
| Color_rgb (r g b : Z)
| Color_name (name : string).

(** The record [__init__] builds: the fields the search reads, as a
    [Subject.t], and the ones only the renderer reads. *)
Record subject_file := mk_subject_file {
  subject : Subject.t;
  locations : list string;
  color : color_t;
  start_times : list Z
}.

(** The first line of the file: the type of the subject, [UE] tried first. *)
Definition read_type (line : string) : option subject_type :=
  if re_search ue_pattern line is Some _ then Some UE
  else if re_search vo_pattern line is Some _ then Some VO
  else None.

(** The second line of the file as a colour: three numbers or a colour
    name or code; [None] when the line is neither. *)
Definition read_color (line : string) : option color_t :=
  match re_search color_tuple_pattern line with
  | Some cmatch =>
      Some (Color_rgb (int_of_digits (default "" (group cmatch 1)))
                      (int_of_digits (default "" (group cmatch 2)))
                      (int_of_digits (default "" (group cmatch 3))))
  | None =>
      if re_search color_string_pattern line is Some _ then Some (Color_name line)
      else None
  end.

(** [Subject(filename)], the file given by the lines [readline] returns.
    A second line that is no colour leaves the colour grey and is read as
    the first time ([skip_reading = 1]). *)
Definition Subject_init (filename : string) (fh : list string)
  : option (loading subject_file) :=
  match re_search name_pattern filename ≫= fun m => group m 1 with
  | None => Some Crashes
  | Some name =>
      let '(line, fh) := (rstrip (readline fh).1, (readline fh).2) in
      match read_type line with
      | None => Some Exits
      | Some type =>
          let '(line, fh) := (rstrip (readline fh).1, (readline fh).2) in
          let '(color, skip_reading) :=
            match read_color line with
            | Some color => (color, 0%nat)
            | None => (Color_rgb 127 127 127, 1%nat)
            end in
          match read_times (S (S (S (length fh)))) fh line 0 skip_reading [] [] with
          | None => None
          | Some (Loaded (times, locations)) =>
              Some (Loaded (mk_subject_file (Subject.mk name times type ∅) locations color
                                            (fst <$> times)))
          | Some Exits => Some Exits
          | Some Crashes => Some Crashes
          end
      end
  end.

(** ** Vocabulary for the texts read *)

(** Texts made of characters of one class. *)
Definition all_chars (p : ascii → bool) (s : string) : Prop :=
  Forall (fun a => p a = true) (string_chars s).

(** The spellings of a week day: the first two letters in either case, then
    nothing or the rest of the name as written, then nothing or a newline. *)
Definition spelled (daystr weekday : string) : Prop :=
  ∃ d0 d1 rest c0 c1 tail e,
    daystr = String d0 (String d1 rest) ∧
    weekday = String c0 (String c1 (tail +:+ e)) ∧
    (c0 = d0 ∨ c0 = swapcase d0) ∧ (c1 = d1 ∨ c1 = swapcase d1) ∧
    (tail = "" ∨ tail = rest) ∧ (e = "" ∨ e = String newline "").

(** What is written after the two times: nothing, or a blank and a
    location that does not begin with white space and has no line break. *)
Definition location_tail (tail location : string) : Prop :=
  (tail = "" ∧ location = "") ∨
  (∃ a rest, location = String a rest ∧ re_space a = false ∧
             all_chars re_any location ∧ tail = String " " location).

Definition with_location (location : string) (caps : captures) : captures :=
  if location is "" then caps else (7%nat, location) :: caps.

(** A text with a character of [p] directly followed by one of [q]. *)
Definition contains_pair (p q : ascii → bool) (text : string) : Prop :=
  ∃ pre a b post, text = pre +:+ String a (String b post) ∧ p a = true ∧ q b = true.

(** The lines of times as the loop of [__init__] takes them, without its
    counter: up to the first blank line or the end of the file, stopping at
    the first line that cannot be read. *)
Fixpoint read_lines (fh : list string) (times : list (Z * Z)) (locations : list string)
  : loading (list (Z * Z) * list string) :=
  match fh with
  | [] => Loaded (times, locations)
  | l :: fh' =>
      if decide (rstrip l = "") then Loaded (times, locations)
      else
        match read_time_line (rstrip l) with
        | Loaded (time, location) => read_lines fh' (times ++ [time]) (locations ++ [location])
        | Exits => Exits
        | Crashes => Crashes
        end
  end.

(** [self.name] for a file name. *)
Definition read_name (filename : string) : option string :=
  re_search name_pattern filename ≫= fun m => group m 1.

(** The record of a subject, from what its file gave. *)
Definition loaded_subject (name : string) (type : subject_type) (color : color_t)
  (r : loading (list (Z * Z) * list string)) : loading subject_file :=
  match r with
  | Loaded (times, locations) =>
      Loaded (mk_subject_file (Subject.mk name times type ∅) locations color (fst <$> times))
  | Exits => Exits
  | Crashes => Crashes
  end.

(** The same record with another colour. *)
Definition with_color (c : color_t) (r : loading subject_file) : loading subject_file :=
  match r with
  | Loaded f => Loaded (mk_subject_file (subject f) (locations f) c (start_times f))
  | Exits => Exits
  | Crashes => Crashes
  end.

(** A line as [readline] returns it, and the lines of the file the
    script's documentation gives as an example. *)
Definition line (s : string) : string := s +:+ String newline "".

(** Two characters above 127: a letter, which [\w] takes, and the no-break
    space, which [\s] and [rstrip] take. *)
Definition o_umlaut : ascii := ascii_of_nat 246.
Definition no_break_space : ascii := ascii_of_nat 160.

Definition example_file : list string :=
  [line "UE"; line "70,130,180"; line "Di 8:00-9:30 Audimax";
   line "Do 10:00-11:30 other place"].

(** ** [fancy_write] *)

Definition out_dir_name : string := "schedules".
Definition year : Z := 2017.
Definition month : Z := 10.

(** The fields of a [datetime] of the week. *)
Definition dt_day (t : Z) : Z := day0 + t / (24 * 60).
Definition dt_hour (t : Z) : Z := t / 60 mod 24.
Definition dt_minute (t : Z) : Z := t mod 60.

(** A number below 100 in two digits. *)
Definition digit (n : Z) : ascii := ascii_of_nat (48 + Z.to_nat n).
Definition two_digits (n : Z) : string :=
  String (digit (n / 10)) (String (digit (n mod 10)) "").

(** [str(t)]: the date, a blank, and the time with its seconds. *)
Definition str_datetime (t : Z) : string :=
  pretty year +:+ "-" +:+ two_digits month +:+ "-" +:+ two_digits (dt_day t) +:+ " " +:+
  two_digits (dt_hour t) +:+ ":" +:+ two_digits (dt_minute t) +:+ ":" +:+ two_digits 0.

(** [r"\d\d-\d\d-\d\d (\d\d:\d\d):\d\d"] *)
Definition dtpat : regex :=
  cats [Chr re_digit; Chr re_digit; Chr (one_of ["-"%char]);
        Chr re_digit; Chr re_digit; Chr (one_of ["-"%char]);
        Chr re_digit; Chr re_digit; Chr (one_of [" "%char]);
        Group 1 (cats [Chr re_digit; Chr re_digit; Chr (one_of [":"%char]);
                       Chr re_digit; Chr re_digit]);
        Chr (one_of [":"%char]); Chr re_digit; Chr re_digit].

Fixpoint spaces (n : nat) : string :=
  match n with
  | O => ""
  | S n' => String " " (spaces n')
  end.

(** [str.format] for a text in a field of a given width: centred (the
    format [^]), the odd blank to the right, or flush left (the default for
    a text); a text longer than the field is written as it is. *)
Definition center (width : nat) (s : string) : string :=
  let pad := (width - String.length s)%nat in
  spaces (pad / 2) +:+ s +:+ spaces (pad - pad / 2).

Definition ljust (width : nat) (s : string) : string :=
  s +:+ spaces (width - String.length s).

Definition join (l : list string) : string := foldr String.append "" l.

Definition field_width : nat := 30.

(** [toprow.format( *weekdays)]: the fields 0 to [no_of_days - 1]. *)
Definition toprow : string :=
  "      " +:+ join (center field_width <$> take (Z.to_nat no_of_days) weekdays)
  +:+ String newline "".

(** The inner loop [while d < no_of_days], by the number of days left:
    [fh] is what has been written to the file. *)
Fixpoint write_cells (days : nat) (table : gmap Z string) (t : Z) (fh : string)
  : option (Z * string) :=
  match days with
  | O => Some (t, fh)
  | S days' =>
      cell ← table !! t;
      write_cells days' table (t + 24 * 60) (fh +:+ center field_width cell)
  end.

(** The loop [while t.hour < end_of_day]. *)
Fixpoint write_rows (fuel : nat) (table : gmap Z string) (t : Z) (fh : string)
  : outcome string :=
  match fuel with
  | O => OutOfFuel
  | S fuel' =>
      if decide (dt_hour t < end_of_day) then
        match re_search dtpat (str_datetime t) ≫= fun m => group m 1 with
        | None => Raised
        | Some label =>
            match write_cells (Z.to_nat no_of_days) table t (fh +:+ ljust 6 label) with
            | None => Raised
            | Some (t, fh) =>
                write_rows fuel' table (t + (- no_of_days * (24 * 60) + 5))
                           (fh +:+ String newline "")
            end
        end
      else Done fh
  end.

(** [fancy_write]: the path of the file and what is written to it.  The
    message on the screen is left out, and so is the file system: opening
    the file does not fail. *)
Definition fancy_write (fuel : nat) (schedule : Schedule.t) : outcome (string * string) :=
  match create_filename schedule with
  | None => Raised
  | Some name =>
      let schedule_dir := "./" +:+ out_dir_name +:+ "/" in
      let schedule_filename := name +:+ "ascii.txt" in
      let t := mk_datetime day0 start_of_day 0 in
      match write_rows fuel (Schedule.table schedule) t toprow with
      | Done fh => Done (schedule_dir +:+ schedule_filename, fh)
      | Raised => Raised
      | OutOfFuel => OutOfFuel
      end
  end.

(** One row of the table: the time of day [m], in minutes, and the cells of
    the days at that time. *)
Definition ascii_row (table : gmap Z string) (m : Z) : string :=
  ljust 6 (two_digits (m / 60) +:+ ":" +:+ two_digits (m mod 60)) +:+
  join ((fun d => center field_width
                    (default "" (table !! mk_datetime (day0 + d) (m / 60) (m mod 60))))
          <$> zrange 0 no_of_days) +:+
  String newline "".

Definition ascii_rows (table : gmap Z string) : list string :=
  ascii_row table <$> zrange_step (start_of_day * 60) (end_of_day * 60) 5.

(** A line of the text table: a field of six characters and one field of
    [field_width] characters for each day, with no line break in it. *)
Definition table_line (l : string) : Prop :=
  ∃ label fields,
    l = label +:+ join fields ∧ String.length label = 6%nat ∧
    length fields = Z.to_nat no_of_days ∧
    Forall (fun f => String.length f = field_width) fields ∧
    all_chars re_any l.

(** A schedule whose table has a cell for every instant of the grid. *)
Definition has_cells (schedule : Schedule.t) : Prop :=
  ∀ k, k ∈ dt_by_index → is_Some (Schedule.table schedule !! k).

(** The first schedule of a run with nothing in it. *)
Definition blank_saved : Schedule.t := Schedule.mk blank_schedule false false (Some 1).

(** * Properties *)

(** ** The enumerator *)

Section product_bools.

Lemma product_bools_length n : length (product_bools n) = (2 ^ n)%nat.
Proof.
  induction n as [|n IH]; [done|].
  cbn [product_bools]. rewrite length_app, !length_fmap, IH.
  cbn [Nat.pow]. lia.
Qed.

Lemma product_bools_elem_length n bits :
  bits ∈ product_bools n → length bits = n.
Proof.
  revert bits. induction n as [|n IH]; intros bits; cbn [product_bools].
  - intros ->%list_elem_of_singleton. done.
  - rewrite elem_of_app, !list_elem_of_fmap.
    intros [(r & -> & Hr)|(r & -> & Hr)]; cbn; f_equal; auto.
Qed.

Lemma product_bools_NoDup n : NoDup (product_bools n).
Proof.
  induction n as [|n IH]; cbn [product_bools].
  - apply NoDup_singleton.
  - apply NoDup_app; split_and!.
    + apply NoDup_fmap_2; [intros ???; congruence | done].
    + intros x (r & -> & _)%list_elem_of_fmap (r' & ? & _)%list_elem_of_fmap. congruence.
    + apply NoDup_fmap_2; [intros ???; congruence | done].
Qed.

Lemma length_filter_fmap {A B} (f : A → B) (P : B → Prop) (Q : A → Prop)
  `{!∀ x, Decision (P x)} `{!∀ x, Decision (Q x)} (l : list A) :
  (∀ x, P (f x) ↔ Q x) →
  length (filter P (f <$> l)) = length (filter Q l).
Proof.
  intros HPQ. induction l as [|x l IH]; [done|].
  rewrite fmap_cons, !filter_cons.
  destruct (decide (Q x)) as [HQ|HQ].
  - rewrite decide_True by (by apply HPQ). cbn. by rewrite IH.
  - rewrite decide_False by (by rewrite HPQ). done.
Qed.

Lemma length_filter_all {A} (P : A → Prop) `{!∀ x, Decision (P x)} (l : list A) :
  (∀ x, P x) → length (filter P l) = length l.
Proof.
  intros HP. induction l as [|x l IH]; [done|].
  rewrite filter_cons, decide_True by done. cbn. by rewrite IH.
Qed.

Lemma length_filter_none {A} (P : A → Prop) `{!∀ x, Decision (P x)} (l : list A) :
  (∀ x, ¬ P x) → length (filter P l) = 0%nat.
Proof.
  intros HP. induction l as [|x l IH]; [done|].
  rewrite filter_cons, decide_False by done. done.
Qed.

Lemma sum_cons b booltup : sum (b :: booltup) = (if b then 1 else 0) + sum booltup.
Proof.
  unfold sum. rewrite filter_cons. destruct b.
  - rewrite decide_True by done. cbn [length]. lia.
  - rewrite decide_False by done. lia.
Qed.

Lemma sum_nonneg booltup : 0 ≤ sum booltup.
Proof. unfold sum. lia. Qed.

(** Number of tuples with some bit set, with no bit set, with one bit set. *)
Lemma count_any n :
  length (filter (fun booltup => any booltup = true) (product_bools n)) = (2 ^ n - 1)%nat.
Proof.
  induction n as [|n IH]; [done|].
  cbn [product_bools]. rewrite filter_app, length_app.
  rewrite (length_filter_fmap (cons true) _ (fun _ => True)) by done.
  rewrite (length_filter_fmap (cons false) _ (fun booltup => any booltup = true)) by done.
  rewrite length_filter_all by done.
  rewrite IH, product_bools_length.
  cbn [Nat.pow]. pose proof (Nat.pow_nonzero 2 n). lia.
Qed.

Lemma count_sum0 n :
  length (filter (fun booltup => sum booltup = 0) (product_bools n)) = 1%nat.
Proof.
  induction n as [|n IH]; [done|].
  cbn [product_bools]. rewrite filter_app, length_app.
  rewrite (length_filter_fmap (cons true) _ (fun _ => False)).
  2:{ intros x. rewrite sum_cons. pose proof (sum_nonneg x). lia. }
  rewrite (length_filter_fmap (cons false) _ (fun booltup => sum booltup = 0)).
  2:{ intros x. rewrite sum_cons. lia. }
  rewrite length_filter_none by tauto. by rewrite IH.
Qed.

Lemma count_sum1 n :
  length (filter (fun booltup => sum booltup = 1) (product_bools n)) = n.
Proof.
  induction n as [|n IH]; [done|].
  cbn [product_bools]. rewrite filter_app, length_app.
  rewrite (length_filter_fmap (cons true) _ (fun booltup => sum booltup = 0)).
  2:{ intros x. rewrite sum_cons. lia. }
  rewrite (length_filter_fmap (cons false) _ (fun booltup => sum booltup = 1)).
  2:{ intros x. rewrite sum_cons. lia. }
  rewrite count_sum0, IH. done.
Qed.

End product_bools.

Lemma any_sum booltup : any booltup = true ↔ 1 ≤ sum booltup.
Proof.
  induction booltup as [|b l IH]; [done|].
  rewrite sum_cons. pose proof (sum_nonneg l).
  destruct b; cbn; [split; [lia|done]|].
  change (existsb id l) with (any l). rewrite IH. lia.
Qed.

Lemma Allocation_init_array subject :
  Allocation.array (Allocation.init subject) =
  match Subject.type subject with
  | VO => filter (fun booltup => any booltup = true)
            (product_bools (length (Subject.times subject)))
  | UE => filter (fun booltup => sum booltup = 1)
            (product_bools (length (Subject.times subject)))
  end.
Proof. done. Qed.

Lemma Allocation_init_length subject :
  length (Allocation.array (Allocation.init subject)) =
  match Subject.type subject with
  | VO => (2 ^ length (Subject.times subject) - 1)%nat
  | UE => length (Subject.times subject)
  end.
Proof.
  rewrite Allocation_init_array.
  destruct (Subject.type subject); [apply count_sum1 | apply count_any].
Qed.

Lemma Allocation_init_nonempty subject :
  (1 ≤ length (Subject.times subject))%nat →
  (1 ≤ length (Allocation.array (Allocation.init subject)))%nat.
Proof.
  intros Hn. rewrite Allocation_init_length.
  destruct (Subject.type subject); [done|].
  pose proof (Nat.pow_le_mono_r 2 1 (length (Subject.times subject))).
  cbn in *. lia.
Qed.

(** C4. For a subject with n >= 1 slots the enumerator lists exactly n
    choices, each with exactly one bit set, when the subject is "UE", and
    exactly 2^n - 1 choices, each with at least one bit set, when it is "VO";
    every choice has one bit per slot and no choice occurs twice. *)
Theorem Allocation_init_choices (subject : Subject.t) :
  let n := length (Subject.times subject) in
  let array := Allocation.array (Allocation.init subject) in
  (1 ≤ n)%nat →
  NoDup array ∧
  match Subject.type subject with
  | UE => length array = n ∧
          Forall (fun booltup => length booltup = n ∧ sum booltup = 1) array
  | VO => length array = (2 ^ n - 1)%nat ∧
          Forall (fun booltup => length booltup = n ∧ any booltup = true ∧ 1 ≤ sum booltup)
                 array
  end.
Proof.
  intros n array _. subst n array. split.
  - rewrite Allocation_init_array.
    destruct (Subject.type subject); apply NoDup_filter, product_bools_NoDup.
  - pose proof (Allocation_init_length subject) as Hlen.
    rewrite Allocation_init_array in *.
    destruct (Subject.type subject); (split; [exact Hlen|]);
      apply Forall_forall; intros bits [Hp Hin]%list_elem_of_filter;
      apply product_bools_elem_length in Hin.
    + done.
    + split_and!; [done..|]. by apply any_sum.
Qed.

Lemma Allocation_init_choices_witness :
  let array := Allocation.array (Allocation.init subj_A) in
  NoDup array ∧ length array = 4%nat ∧
  Forall (fun booltup => length booltup = 4%nat ∧ sum booltup = 1) array.
Proof.
  apply (Allocation_init_choices subj_A). cbn. lia.
Defined.

Section enumerator_calls.

Lemma do_call_array a c : Allocation.array (do_call a c) = Allocation.array a.
Proof.
  destruct c; cbn; unfold Allocation.advance, Allocation.reverse;
    repeat case_decide; done.
Qed.

Lemma do_call_in_range a c : in_range a → in_range (do_call a c).
Proof.
  unfold in_range. intros Hr. rewrite do_call_array.
  destruct c; cbn; unfold Allocation.advance, Allocation.reverse;
    repeat case_decide; cbn; lia.
Qed.

Lemma do_calls_in_range a cs : in_range a → in_range (do_calls a cs).
Proof.
  revert a. induction cs as [|c cs IH]; intros a Ha; [done|].
  cbn. apply IH, do_call_in_range, Ha.
Qed.

Lemma in_range_get_array a : in_range a → is_Some (Allocation.get_array a).
Proof.
  unfold in_range, Allocation.get_array, Allocation.getitem. intros Hr.
  rewrite decide_True by lia. apply lookup_lt_is_Some. lia.
Qed.

Lemma get_array_elem_of a bits :
  Allocation.get_array a = Some bits → bits ∈ Allocation.array a.
Proof.
  unfold Allocation.get_array, Allocation.getitem.
  repeat case_decide; try done; intros Hl; by eapply list_elem_of_lookup_2.
Qed.

End enumerator_calls.

(** C10. For an enumerator built from a subject with n >= 1 slots, after any
    sequence of [advance], [reverse] and [reset_end_status] calls the index
    lies in [0, n_choices - 1], so reading the current choice does not raise;
    [advance] at the last index keeps the index and sets the end-of-range
    flag, and [reverse] at index 0 keeps index 0. *)
Theorem Allocation_index_in_range (subject : Subject.t) (cs : list alloc_call) :
  (1 ≤ length (Subject.times subject))%nat →
  let a := do_calls (Allocation.init subject) cs in
  let n_choices := Z.of_nat (length (Allocation.array a)) in
  0 ≤ Allocation.index a ≤ n_choices - 1 ∧
  is_Some (Allocation.get_array a) ∧
  (Allocation.index a = n_choices - 1 →
   Allocation.index (Allocation.advance a) = Allocation.index a ∧
   Allocation.has_reached_end (Allocation.advance a) = true) ∧
  (Allocation.index a < n_choices - 1 →
   Allocation.index (Allocation.advance a) = Allocation.index a + 1 ∧
   Allocation.has_reached_end (Allocation.advance a) = Allocation.has_reached_end a) ∧
  (Allocation.index a = 0 → Allocation.index (Allocation.reverse a) = 0).
Proof.
  intros Hn a n_choices.
  assert (Ha : in_range a).
  { apply do_calls_in_range. unfold in_range.
    pose proof (Allocation_init_nonempty subject Hn). cbn [Allocation.index Allocation.init].
    change (Allocation.array (Allocation.init subject)) with
      (Allocation.array (Allocation.init subject)) in *.
    cbn in *. lia. }
  split; [exact Ha|]. split; [by apply in_range_get_array|].
  unfold Allocation.advance, Allocation.reverse. subst n_choices.
  split_and!; intros Hi; repeat case_decide; cbn; try done; lia.
Qed.

Lemma Allocation_index_in_range_witness :
  let a := do_calls (Allocation.init subj_B) [Advance; Advance; Advance; Reverse] in
  0 ≤ Allocation.index a ≤ 2 ∧ is_Some (Allocation.get_array a).
Proof.
  pose proof (Allocation_index_in_range subj_B [Advance; Advance; Advance; Reverse]) as H.
  cbn zeta in H. destruct H as (H1 & H2 & _); [cbn; lia|].
  split; [exact H1 | exact H2].
Defined.

(** ** The schedule builder: bookkeeping on the subject records *)

Section builder_bookkeeping.

Lemma classify_spec subjects i f :
  Schedule.classify subjects i f =
  (i || existsb (fun s => Subject.is_partially_complete s && negb (Subject.is_complete s))
          subjects,
   f || existsb (fun s => negb (Subject.is_partially_complete s)) subjects,
   Subject.reset <$> subjects).
Proof.
  revert i f. induction subjects as [|s ss IH]; intros i f; cbn [Schedule.classify].
  - cbn. by rewrite !orb_false_r.
  - destruct (Subject.is_partially_complete s) eqn:Hp, (Subject.is_complete s) eqn:Hc;
      cbn [negb]; rewrite IH; cbn [existsb fmap list_fmap]; rewrite ?Hp, ?Hc; cbn [negb andb orb];
      rewrite ?orb_true_r, ?orb_false_r; try done.
    all: f_equal; f_equal; by destruct i, f.
Qed.

Lemma is_partially_complete_spec s :
  Subject.is_partially_complete s = false ↔ got_no_slot s.
Proof.
  unfold Subject.is_partially_complete, got_no_slot.
  rewrite bool_decide_eq_false. split.
  - intros H. apply leibniz_equiv, size_empty_inv. lia.
  - intros ->. rewrite size_empty. lia.
Qed.

Lemma is_complete_spec s :
  Subject.is_complete s = true ↔
  match Subject.type s with VO => got_all_slots s | UE => ¬ got_no_slot s end.
Proof.
  unfold Subject.is_complete, got_all_slots.
  destruct (Subject.type s); rewrite bool_decide_eq_true; [|done].
  rewrite <- is_partially_complete_spec. unfold Subject.is_partially_complete.
  rewrite bool_decide_eq_false. lia.
Qed.

Lemma create_schedule_unfold subjects alloc_by_subj table dtin schedule subjects' :
  Schedule.create_schedule subjects alloc_by_subj table dtin = Some (schedule, subjects') →
  ∃ placed,
    Schedule.allocate subjects alloc_by_subj table dtin = Some (Schedule.table schedule, placed) ∧
    subjects' = Subject.reset <$> placed ∧
    Schedule.version schedule = None ∧
    Schedule.failed schedule =
      existsb (fun s => negb (Subject.is_partially_complete s)) placed ∧
    Schedule.is_incomplete schedule =
      existsb (fun s => Subject.is_partially_complete s && negb (Subject.is_complete s)) placed.
Proof.
  unfold Schedule.create_schedule. intros H.
  destruct (Schedule.allocate subjects alloc_by_subj table dtin) as [[t2 placed]|]; [|done].
  cbn in H. rewrite classify_spec in H. cbn in H. injection H as <- <-.
  exists placed. done.
Qed.

End builder_bookkeeping.

Lemma existsb_Exists {A} (f : A → bool) (l : list A) :
  existsb f l = true ↔ Exists (fun x => f x = true) l.
Proof.
  induction l as [|x l IH]; cbn.
  - split; [done|]. by intros ?%Exists_nil.
  - rewrite Exists_cons, orb_true_iff, IH. done.
Qed.

Lemma Exists_iff {A} (P Q : A → Prop) (l : list A) :
  (∀ x, P x ↔ Q x) → Exists P l ↔ Exists Q l.
Proof.
  intros H. split; intros HE; (eapply Exists_impl; [exact HE|]); intros x; apply H.
Qed.

(** C3 (as the code has it). [failed] is true iff some subject got no slot.
    [is_incomplete] is true iff some "VO" subject got at least one but not
    all of its slots, whether or not the schedule is failed; so on a schedule
    that is not failed it is true iff some "VO" subject did not get all of
    its slots. *)
Theorem create_schedule_flags (subjects : list Subject.t) (alloc_by_subj : list Allocation.t)
  (table : gmap Z string) (dtin : list Z) (schedule : Schedule.t) (subjects' : list Subject.t) :
  Schedule.create_schedule subjects alloc_by_subj table dtin = Some (schedule, subjects') →
  ∃ placed,
    Schedule.allocate subjects alloc_by_subj table dtin = Some (Schedule.table schedule, placed) ∧
    (Schedule.failed schedule = true ↔ Exists got_no_slot placed) ∧
    (Schedule.is_incomplete schedule = true ↔
     Exists (fun s => Subject.type s = VO ∧ ¬ got_no_slot s ∧ ¬ got_all_slots s) placed) ∧
    (Schedule.failed schedule = false →
     (Schedule.is_incomplete schedule = true ↔
      Exists (fun s => Subject.type s = VO ∧ ¬ got_all_slots s) placed)).
Proof.
  intros (placed & Ha & _ & _ & Hf & Hi)%create_schedule_unfold.
  exists placed. split; [done|].
  assert (HF : Schedule.failed schedule = true ↔ Exists got_no_slot placed).
  { rewrite Hf, existsb_Exists. apply Exists_iff. intros s.
    rewrite negb_true_iff. apply is_partially_complete_spec. }
  assert (HI : Schedule.is_incomplete schedule = true ↔
     Exists (fun s => Subject.type s = VO ∧ ¬ got_no_slot s ∧ ¬ got_all_slots s) placed).
  { rewrite Hi, existsb_Exists. apply Exists_iff. intros s.
    rewrite andb_true_iff, negb_true_iff.
    pose proof (is_partially_complete_spec s) as Hp.
    pose proof (is_complete_spec s) as Hc.
    destruct (Subject.is_partially_complete s), (Subject.is_complete s),
      (Subject.type s); split; intros H; try (split_and?; try done; intuition congruence).
    all: intuition congruence. }
  split_and!; [done..|].
  intros Hnf. rewrite HI. split.
  - intros HE. eapply Exists_impl; [exact HE|]. cbn. tauto.
  - intros Hex. apply Exists_exists in Hex as (s & Hin & Hvo & Hna).
    apply Exists_exists. exists s. split_and!; [done..| |done].
    intros Hno. assert (Schedule.failed schedule = true); [|congruence].
    apply HF, Exists_exists. eauto.
Qed.

Lemma create_schedule_flags_witness :
  ∃ schedule subjects' placed,
    Schedule.create_schedule subjects_CAB allocs_CAB blank_schedule dt_by_index
      = Some (schedule, subjects') ∧
    Schedule.allocate subjects_CAB allocs_CAB blank_schedule dt_by_index
      = Some (Schedule.table schedule, placed) ∧
    (Schedule.failed schedule = true ↔ Exists got_no_slot placed).
Proof.
  assert (Hret : returned (Schedule.create_schedule subjects_CAB allocs_CAB
                             blank_schedule dt_by_index) = true)
    by (vm_compute; reflexivity).
  destruct (Schedule.create_schedule subjects_CAB allocs_CAB blank_schedule dt_by_index)
    as [[schedule subjects']|] eqn:E; [|discriminate Hret].
  destruct (create_schedule_flags _ _ _ _ _ _ E) as (placed & Ha & Hf & _).
  exists schedule, subjects', placed.
  split; [reflexivity|]. split; [exact Ha | exact Hf].
Defined.

(** C3 (as worded) fails: with "C" on Monday 10-11, "A" ("VO") wanting Monday
    8-9 and 10-11 and "B" wanting Monday 8-9, "A" gets one of two slots and
    "B" none, and the schedule is both failed and incomplete. *)
Lemma create_schedule_flags_counterexample :
  ∃ schedule subjects' placed,
    Schedule.create_schedule subjects_CAB allocs_CAB blank_schedule dt_by_index
      = Some (schedule, subjects') ∧
    Schedule.allocate subjects_CAB allocs_CAB blank_schedule dt_by_index
      = Some (Schedule.table schedule, placed) ∧
    Schedule.failed schedule = true ∧ Schedule.is_incomplete schedule = true ∧
    ¬ flags_as_worded schedule placed.
Proof.
  assert (Hret : returned (Schedule.create_schedule subjects_CAB allocs_CAB
                             blank_schedule dt_by_index) = true)
    by (vm_compute; reflexivity).
  destruct (Schedule.create_schedule subjects_CAB allocs_CAB blank_schedule dt_by_index)
    as [[schedule subjects']|] eqn:E; [|discriminate Hret].
  destruct (create_schedule_unfold _ _ _ _ _ _ E) as (placed & Ha & _).
  assert (Hflags : (Schedule.failed schedule, Schedule.is_incomplete schedule) = (true, true)).
  { apply (f_equal (fun o => match o with
                             | Some (s, _) => (Schedule.failed s, Schedule.is_incomplete s)
                             | None => (false, false)
                             end)) in E.
    vm_compute in E. symmetry. exact E. }
  injection Hflags as Hf Hi.
  exists schedule, subjects', placed.
  split; [reflexivity|]. split; [exact Ha|]. split; [exact Hf|]. split; [exact Hi|].
  intros [_ Hw]. apply Hw in Hi as [Hnf _]. congruence.
Qed.

(** C9 (as the code has it). The value the builder returns holds the filled
    grid and the two flags, with no version yet.  The per-subject sets of
    placed slots are kept on the subject records while the grid is filled
    and every one of them is empty again when the builder returns. *)
Theorem create_schedule_returns (subjects : list Subject.t) (alloc_by_subj : list Allocation.t)
  (table : gmap Z string) (dtin : list Z) (schedule : Schedule.t) (subjects' : list Subject.t) :
  Schedule.create_schedule subjects alloc_by_subj table dtin = Some (schedule, subjects') →
  ∃ placed,
    Schedule.allocate subjects alloc_by_subj table dtin = Some (Schedule.table schedule, placed) ∧
    subjects' = Subject.reset <$> placed ∧
    Forall (fun s => Subject.allocated_times s = ∅) subjects' ∧
    Schedule.version schedule = None.
Proof.
  intros (placed & Ha & -> & Hv & _)%create_schedule_unfold.
  exists placed. split_and!; [exact Ha|reflexivity| |exact Hv].
  apply Forall_fmap, Forall_true. done.
Qed.

Lemma create_schedule_returns_witness :
  ∃ schedule subjects',
    Schedule.create_schedule subjects_CAB allocs_CAB blank_schedule dt_by_index
      = Some (schedule, subjects') ∧
    Forall (fun s => Subject.allocated_times s = ∅) subjects' ∧
    Schedule.version schedule = None.
Proof.
  assert (Hret : returned (Schedule.create_schedule subjects_CAB allocs_CAB
                             blank_schedule dt_by_index) = true)
    by (vm_compute; reflexivity).
  destruct (Schedule.create_schedule subjects_CAB allocs_CAB blank_schedule dt_by_index)
    as [[schedule subjects']|] eqn:E; [|discriminate Hret].
  destruct (create_schedule_returns _ _ _ _ _ _ E) as (placed & _ & _ & Hall & Hv).
  exists schedule, subjects'.
  split; [reflexivity|]. split; [exact Hall | exact Hv].
Defined.

(** C9 (as worded) fails: in the build of the worked input "C" is placed on
    Monday 10-11, yet no record tells so once the builder has returned. *)
Lemma create_schedule_returns_counterexample :
  ∃ schedule subjects' placed,
    Schedule.create_schedule subjects_CAB allocs_CAB blank_schedule dt_by_index
      = Some (schedule, subjects') ∧
    Schedule.allocate subjects_CAB allocs_CAB blank_schedule dt_by_index
      = Some (Schedule.table schedule, placed) ∧
    ¬ allocations_readable placed subjects'.
Proof.
  assert (Hret : returned (Schedule.create_schedule subjects_CAB allocs_CAB
                             blank_schedule dt_by_index) = true)
    by (vm_compute; reflexivity).
  destruct (Schedule.create_schedule subjects_CAB allocs_CAB blank_schedule dt_by_index)
    as [[schedule subjects']|] eqn:E; [|discriminate Hret].
  destruct (create_schedule_unfold _ _ _ _ _ _ E) as (placed & Ha & -> & _).
  exists schedule, (Subject.reset <$> placed), placed.
  split; [reflexivity|]. split; [exact Ha|].
  assert (Hsz : [1; 1; 0]%nat = (fun s => size (Subject.allocated_times s)) <$> placed).
  { apply (f_equal (fun o => match o with
                             | Some (_, p) => (fun s => size (Subject.allocated_times s)) <$> p
                             | None => []
                             end)) in Ha.
    vm_compute in Ha. exact Ha. }
  destruct placed as [|p placed]; [discriminate|].
  injection Hsz as Hp _.
  unfold allocations_readable. rewrite fmap_cons. intros Hr.
  apply Forall2_cons_1 in Hr as [Hr _]. cbn in Hr.
  rewrite <- Hr, size_empty in Hp. discriminate.
Qed.

(** ** The schedule builder: what one guarded fill does *)

Section builder_steps.

Lemma truthy_false v : truthy v = false ↔ v = "".
Proof.
  unfold truthy. rewrite negb_false_iff, bool_decide_eq_true. done.
Qed.

Lemma is_free_loop_true schedule dtin ixs :
  Schedule.is_free_loop schedule dtin ixs = Some true →
  Forall (fun i => ∃ k, dtin !! i = Some k ∧ schedule !! k = Some "") ixs.
Proof.
  induction ixs as [|i ixs IH]; cbn; [by constructor|].
  destruct (dtin !! i) as [k|] eqn:Hk; [|done]. cbn.
  destruct (schedule !! k) as [v|] eqn:Hv; [|done]. cbn.
  destruct (truthy v) eqn:Ht; [done|].
  apply truthy_false in Ht as ->. intros H. constructor; eauto.
Qed.

Lemma fill_loop_lookup schedule name dtin ixs schedule' k :
  Schedule.fill_loop schedule name dtin ixs = Some schedule' →
  (schedule' !! k = Some name ∧ ∃ i, i ∈ ixs ∧ dtin !! i = Some k) ∨
  (schedule' !! k = schedule !! k ∧ ∀ i, i ∈ ixs → dtin !! i ≠ Some k).
Proof.
  revert schedule. induction ixs as [|i ixs IH]; intros schedule; cbn.
  - intros [= <-]. right. split; [done|]. intros i Hi. by apply elem_of_nil in Hi.
  - destruct (dtin !! i) as [k'|] eqn:Hk'; [|done]. cbn. intros H.
    destruct (IH _ H) as [[Hn (i0 & Hi0 & Hd)]|[He Hno]].
    + left. split; [done|]. exists i0. split; [by right|done].
    + destruct (decide (k' = k)) as [->|Hne].
      * left. split; [by rewrite He, lookup_insert_eq|]. exists i. split; [by left|done].
      * right. split; [by rewrite He, lookup_insert_ne|].
        intros i0 [->|Hi0]%elem_of_cons; [congruence|by apply Hno].
Qed.

(** The outcomes of [try_allocate]: the slot is skipped and nothing changes,
    or its cells, all empty, take the subject's name and the slot is marked. *)
Lemma try_allocate_cases dtin table subject selected_time table' subject' :
  Schedule.try_allocate dtin table subject selected_time = Some (table', subject') →
  (Schedule.is_free table selected_time dtin = Some false ∧
   table' = table ∧ subject' = subject) ∨
  (Schedule.is_free table selected_time dtin = Some true ∧
   Schedule.fill table subject selected_time dtin = Some table' ∧
   subject' = Subject.mark_allocated subject selected_time).
Proof.
  unfold Schedule.try_allocate.
  destruct (Schedule.is_free table selected_time dtin) as [[]|]; cbn; [| |done].
  - destruct (Schedule.fill table subject selected_time dtin); cbn; [|done].
    intros [= <- <-]. by right.
  - intros [= <- <-]. by left.
Qed.

(** A fill guarded by [is_free] writes only cells that were empty, and
    writes the subject's name there. *)
Lemma guarded_fill_lookup dtin table subject selected_time table' k :
  Schedule.is_free table selected_time dtin = Some true →
  Schedule.fill table subject selected_time dtin = Some table' →
  table' !! k = table !! k ∨
  (table !! k = Some "" ∧ table' !! k = Some (Subject.name subject)).
Proof.
  unfold Schedule.is_free, Schedule.fill.
  destruct (Schedule.slot_range selected_time dtin) as [ixs|]; [|done]. cbn.
  intros Hfree%is_free_loop_true Hfill.
  destruct (fill_loop_lookup _ _ _ _ _ k Hfill) as [[Hn (i & Hi & Hd)]|[He _]]; [|by left].
  right. rewrite Forall_forall in Hfree.
  destruct (Hfree i Hi) as (k' & Hk' & Hv). by simplify_eq.
Qed.

#[global] Instance table_step_refl names : Reflexive (table_step names).
Proof. intros t. split; [by intros k v|]. intros k. by left. Qed.

#[global] Instance cells_kept_trans : Transitive cells_kept.
Proof. intros t1 t2 t3 H12 H23 k v Hk Hv. eauto. Qed.

#[global] Instance table_step_trans names : Transitive (table_step names).
Proof.
  intros t1 t2 t3 [K12 H12] [K23 H23]. split; [by etrans|].
  intros k. destruct (H12 k) as [E12|(E1 & n & Hn & E2)].
  - rewrite <- E12. apply H23.
  - right. split; [done|].
    destruct (H23 k) as [E23|(E2' & _)].
    + exists n. by rewrite E23.
    + destruct (decide (n = "")) as [->|Hne].
      * destruct (H23 k) as [E23|(_ & n' & ? & ?)]; [exists ""; by rewrite E23|eauto].
      * exists n. split; [done|]. by eapply K23.
Qed.

#[global] Instance subject_step_refl : Reflexive subject_step.
Proof. intros s. by split. Qed.

#[global] Instance subject_step_trans : Transitive subject_step.
Proof.
  intros s1 s2 s3 [(?&?&?) ?] [(?&?&?) ?].
  split; [split_and!; congruence | set_solver].
Qed.

Lemma try_allocate_step dtin table subject selected_time table' subject' :
  Schedule.try_allocate dtin table subject selected_time = Some (table', subject') →
  table_step [Subject.name subject] table table' ∧ subject_step subject subject'.
Proof.
  intros [(_ & -> & ->)|(Hfree & Hfill & ->)]%try_allocate_cases; [done|].
  split; [|split; [done|cbn; set_solver]].
  split.
  - intros k v Hk Hv.
    destruct (guarded_fill_lookup _ _ _ _ _ k Hfree Hfill) as [->|[? _]]; [done|congruence].
  - intros k.
    destruct (guarded_fill_lookup _ _ _ _ _ k Hfree Hfill) as [->|[? ?]]; [by left|].
    right. split; [done|]. exists (Subject.name subject). split; [by left|done].
Qed.

Lemma table_step_mono names names' t t' :
  names ⊆ names' → table_step names t t' → table_step names' t t'.
Proof.
  intros Hsub [K H]. split; [done|]. intros k.
  destruct (H k) as [?|(? & n & ? & ?)]; [by left|]. right. split; [done|]. eauto.
Qed.

Lemma phase1_slots_step dtin a ixs table subject table' subject' :
  Schedule.phase1_slots dtin a ixs table subject = Some (table', subject') →
  table_step [Subject.name subject] table table' ∧ subject_step subject subject'.
Proof.
  revert table subject. induction ixs as [|i ixs IH]; intros table subject; cbn.
  - intros [= <- <-]. done.
  - destruct (Allocation.enables_timeslot a) as [bits|]; [|done]. cbn.
    destruct (bits !! i) as [b|]; [|done]. cbn.
    intros H.
    assert (∃ t1 s1, (if b then
               Subject.times subject !! i ≫= Schedule.try_allocate dtin table subject
             else Some (table, subject)) = Some (t1, s1) ∧
            Schedule.phase1_slots dtin a ixs t1 s1 = Some (table', subject'))
      as (t1 & s1 & H1 & H2).
    { destruct (if b then _ else _) as [[t1 s1]|]; [|done]. eauto. }
    clear H.
    assert (table_step [Subject.name subject] table t1 ∧ subject_step subject s1)
      as [Ht Hs].
    { destruct b; [|by injection H1 as <- <-].
      destruct (Subject.times subject !! i) as [sel|]; [|done].
      by apply try_allocate_step in H1. }
    destruct (IH _ _ H2) as [Ht' Hs'].
    assert (Subject.name s1 = Subject.name subject) as Hn by (symmetry; apply Hs).
    rewrite Hn in Ht'. split; by etrans.
Qed.

Lemma phase2_slots_step dtin ts table subject table' subject' :
  Schedule.phase2_slots dtin ts table subject = Some (table', subject') →
  table_step [Subject.name subject] table table' ∧ subject_step subject subject'.
Proof.
  revert table subject. induction ts as [|sel ts IH]; intros table subject; cbn.
  - intros [= <- <-]. done.
  - intros H.
    assert (∃ t1 s1, (if decide (sel ∈ Subject.allocated_times subject)
                      then Some (table, subject)
                      else Schedule.try_allocate dtin table subject sel) = Some (t1, s1) ∧
            Schedule.phase2_slots dtin ts t1 s1 = Some (table', subject'))
      as (t1 & s1 & H1 & H2).
    { destruct (if decide _ then _ else _) as [[t1 s1]|]; [|done]. eauto. }
    clear H.
    assert (table_step [Subject.name subject] table t1 ∧ subject_step subject s1)
      as [Ht Hs].
    { case_decide; [by injection H1 as <- <-|]. by apply try_allocate_step in H1. }
    destruct (IH _ _ H2) as [Ht' Hs'].
    assert (Subject.name s1 = Subject.name subject) as Hn by (symmetry; apply Hs).
    rewrite Hn in Ht'. split; by etrans.
Qed.

Lemma for_subjects_step body names :
  (∀ j t s t' s', Subject.name s ∈ names → body j t s = Some (t', s') →
                  table_step names t t' ∧ subject_step s s') →
  ∀ subjects j t t' subjects',
    Forall (fun s => Subject.name s ∈ names) subjects →
    Schedule.for_subjects body j subjects t = Some (t', subjects') →
    table_step names t t' ∧ Forall2 subject_step subjects subjects'.
Proof.
  intros Hbody subjects. induction subjects as [|s ss IH]; intros j t t' subjects' Hall; cbn.
  - intros [= <- <-]. split; [reflexivity|constructor].
  - apply Forall_cons in Hall as [Hs Hall].
    destruct (body j t s) as [[t1 s1]|] eqn:Hb; [|done]. cbn.
    destruct (Schedule.for_subjects body (S j) ss t1) as [[t2 ss2]|] eqn:Hr; [|done]. cbn.
    intros [= <- <-].
    destruct (Hbody _ _ _ _ _ Hs Hb) as [Ht1 Hs1].
    destruct (IH _ _ _ _ Hall Hr) as [Ht2 Hss].
    split; [by etrans|by constructor].
Qed.

Lemma phase1_step dtin alloc_by_subj subjects j t t' subjects' :
  Schedule.for_subjects (Schedule.phase1_subject dtin alloc_by_subj) j subjects t
    = Some (t', subjects') →
  table_step (Subject.name <$> subjects) t t' ∧ Forall2 subject_step subjects subjects'.
Proof.
  apply for_subjects_step.
  - intros j' t0 s t0' s' Hin. unfold Schedule.phase1_subject.
    destruct (alloc_by_subj !! j'); [|done]. cbn.
    intros [Ht Hs]%phase1_slots_step. split; [|done].
    eapply table_step_mono; [|done]. intros n ->%list_elem_of_singleton. done.
  - apply Forall_forall. intros s Hs. apply list_elem_of_fmap. eauto.
Qed.

Lemma phase2_step dtin subjects j t t' subjects' :
  Schedule.for_subjects (Schedule.phase2_subject dtin) j subjects t = Some (t', subjects') →
  table_step (Subject.name <$> subjects) t t' ∧ Forall2 subject_step subjects subjects'.
Proof.
  apply for_subjects_step.
  - intros j' t0 s t0' s' Hin. unfold Schedule.phase2_subject.
    destruct (Subject.type s).
    + intros [= <- <-]. done.
    + intros [Ht Hs]%phase2_slots_step. split; [|done].
      eapply table_step_mono; [|done]. intros n ->%list_elem_of_singleton. done.
  - apply Forall_forall. intros s Hs. apply list_elem_of_fmap. eauto.
Qed.

End builder_steps.

(** ** The schedule builder: cells and purity *)

Lemma allocate_unfold subjects alloc_by_subj table dtin table2 placed :
  Schedule.allocate subjects alloc_by_subj table dtin = Some (table2, placed) →
  ∃ table1 subjects1,
    Schedule.for_subjects (Schedule.phase1_subject dtin alloc_by_subj) 0 subjects table
      = Some (table1, subjects1) ∧
    Schedule.for_subjects (Schedule.phase2_subject dtin) 0 subjects1 table1
      = Some (table2, placed).
Proof.
  unfold Schedule.allocate.
  destruct (Schedule.for_subjects (Schedule.phase1_subject dtin alloc_by_subj) 0 subjects table)
    as [[table1 subjects1]|]; [|done].
  cbn. eauto.
Qed.

Lemma subject_step_names subjects subjects' :
  Forall2 subject_step subjects subjects' →
  Subject.name <$> subjects' = Subject.name <$> subjects.
Proof.
  induction 1 as [|s s' l l' [(Hn & _) _] _ IH]; [done|].
  cbn. by rewrite IH, Hn.
Qed.

(** C6. Within a build a cell that holds a non-empty string is never written
    again: each guarded fill keeps such cells, and so does each phase.  Every
    cell of the finished grid either is as in the blank grid or was empty
    there and holds the name of one subject.  Phase 2 removes nothing that
    phase 1 allocated: every subject's allocated set only grows, and the
    cells filled in phase 1 are as they were. *)
Theorem create_schedule_keeps_cells (subjects : list Subject.t)
  (alloc_by_subj : list Allocation.t) (table : gmap Z string) (dtin : list Z)
  (schedule : Schedule.t) (subjects' : list Subject.t) :
  Schedule.create_schedule subjects alloc_by_subj table dtin = Some (schedule, subjects') →
  (∀ t s sel t' s', Schedule.try_allocate dtin t s sel = Some (t', s') → cells_kept t t') ∧
  ∃ table1 subjects1 placed,
    Schedule.for_subjects (Schedule.phase1_subject dtin alloc_by_subj) 0 subjects table
      = Some (table1, subjects1) ∧
    Schedule.for_subjects (Schedule.phase2_subject dtin) 0 subjects1 table1
      = Some (Schedule.table schedule, placed) ∧
    cells_kept table table1 ∧
    cells_kept table1 (Schedule.table schedule) ∧
    cells_kept table (Schedule.table schedule) ∧
    Forall2 (fun s1 s2 => Subject.allocated_times s1 ⊆ Subject.allocated_times s2)
            subjects1 placed ∧
    ∀ k, Schedule.table schedule !! k = table !! k ∨
         (table !! k = Some "" ∧
          ∃ s, s ∈ subjects ∧ Schedule.table schedule !! k = Some (Subject.name s)).
Proof.
  intros (placed & Ha & _)%create_schedule_unfold.
  split.
  { intros t s sel t' s' H. by apply try_allocate_step in H as [[? _] _]. }
  apply allocate_unfold in Ha as (table1 & subjects1 & H1 & H2).
  exists table1, subjects1, placed.
  destruct (phase1_step _ _ _ _ _ _ _ H1) as [T1 S1].
  destruct (phase2_step _ _ _ _ _ _ H2) as [T2 S2].
  rewrite (subject_step_names _ _ S1) in T2.
  pose proof (transitivity T1 T2) as [K12 T12].
  split_and!; [done|done|apply T1|apply T2|done| |].
  - eapply Forall2_impl; [exact S2|]. by intros ?? [_ ?].
  - intros k. destruct (T12 k) as [?|(? & n & (s & -> & ?)%list_elem_of_fmap & ?)]; [by left|].
    right. eauto.
Qed.

Lemma create_schedule_keeps_cells_witness :
  ∃ schedule subjects',
    Schedule.create_schedule subjects_CAB allocs_CAB blank_schedule dt_by_index
      = Some (schedule, subjects') ∧
    cells_kept blank_schedule (Schedule.table schedule).
Proof.
  assert (Hret : returned (Schedule.create_schedule subjects_CAB allocs_CAB
                             blank_schedule dt_by_index) = true)
    by (vm_compute; reflexivity).
  destruct (Schedule.create_schedule subjects_CAB allocs_CAB blank_schedule dt_by_index)
    as [[schedule subjects']|] eqn:E; [|discriminate Hret].
  destruct (create_schedule_keeps_cells _ _ _ _ _ _ E)
    as (_ & t1 & s1 & placed & _ & _ & _ & _ & K & _).
  exists schedule, subjects'. split; [reflexivity | exact K].
Defined.

Lemma reset_fresh s s' :
  Subject.fresh s → subject_step s s' → Subject.reset s' = s.
Proof.
  destruct s as [n t ty a], s' as [n' t' ty' a'].
  unfold Subject.fresh, subject_step, same_subject, Subject.reset. cbn.
  intros -> [(-> & -> & ->) _]. done.
Qed.

Lemma create_schedule_restores subjects alloc_by_subj table dtin schedule subjects' :
  Forall Subject.fresh subjects →
  Schedule.create_schedule subjects alloc_by_subj table dtin = Some (schedule, subjects') →
  subjects' = subjects.
Proof.
  intros Hfresh (placed & Ha & -> & _)%create_schedule_unfold.
  apply allocate_unfold in Ha as (table1 & subjects1 & H1 & H2).
  destruct (phase1_step _ _ _ _ _ _ _ H1) as [_ S1].
  destruct (phase2_step _ _ _ _ _ _ H2) as [_ S2].
  assert (S12 : Forall2 subject_step subjects placed).
  { by etrans. }
  clear -Hfresh S12. induction S12 as [|s p l l' Hs _ IH]; [done|].
  apply Forall_cons in Hfresh as [Hf Hfresh].
  cbn. f_equal; [by apply reset_fresh|by apply IH].
Qed.

Lemma after_builds_restores subjects earlier dtin subjects' :
  Forall Subject.fresh subjects →
  after_builds subjects earlier dtin = Some subjects' →
  subjects' = subjects.
Proof.
  intros Hfresh. induction earlier as [|[al blank] rest IH]; cbn.
  - by intros [= <-].
  - unfold Schedule.init.
    destruct (Schedule.create_schedule subjects al blank dtin) as [[r ss1]|] eqn:E; [|done].
    cbn. apply create_schedule_restores in E as ->; [|done]. apply IH.
Qed.

(** C7. The builder's result depends on its arguments only.  The subject
    records come out of [__init__] with nothing allocated; whatever builds
    were run on them before, with whatever bitmasks and grids, they are
    unchanged afterwards, so a build on them returns the same grid, the same
    flags and the same records as a build on the records never used. *)
Theorem create_schedule_pure (subjects : list Subject.t)
  (earlier : list (list Allocation.t * gmap Z string))
  (alloc_by_subj : list Allocation.t) (blank : gmap Z string) (dtin : list Z)
  (subjects' : list Subject.t) :
  Forall Subject.fresh subjects →
  after_builds subjects earlier dtin = Some subjects' →
  subjects' = subjects ∧
  Schedule.init subjects' alloc_by_subj blank dtin
  = Schedule.init subjects alloc_by_subj blank dtin ∧
  ∀ schedule1 after1 schedule2 after2,
    Schedule.init subjects alloc_by_subj blank dtin = Some (schedule1, after1) →
    Schedule.init subjects' alloc_by_subj blank dtin = Some (schedule2, after2) →
    Schedule.table schedule1 = Schedule.table schedule2 ∧
    Schedule.failed schedule1 = Schedule.failed schedule2 ∧
    Schedule.is_incomplete schedule1 = Schedule.is_incomplete schedule2 ∧
    after1 = subjects ∧ after2 = subjects.
Proof.
  intros Hfresh Hafter.
  apply after_builds_restores in Hafter as ->; [|done].
  split_and!; [done..|].
  intros r1 a1 r2 a2 H1 H2. rewrite H1 in H2. injection H2 as <- <-.
  split_and!; [done..| |]; by eapply create_schedule_restores.
Qed.

Lemma create_schedule_pure_witness :
  ∃ subjects',
    after_builds subjects_CAB [(allocs_CAB, blank_schedule); (allocs_CAB, blank_schedule)]
      dt_by_index = Some subjects' ∧
    Schedule.init subjects' allocs_CAB blank_schedule dt_by_index
    = Schedule.init subjects_CAB allocs_CAB blank_schedule dt_by_index.
Proof.
  assert (Hret : returned (after_builds subjects_CAB
                             [(allocs_CAB, blank_schedule); (allocs_CAB, blank_schedule)]
                             dt_by_index) = true)
    by (vm_compute; reflexivity).
  destruct (after_builds subjects_CAB
              [(allocs_CAB, blank_schedule); (allocs_CAB, blank_schedule)] dt_by_index)
    as [subjects'|] eqn:E; [|discriminate Hret].
  exists subjects'. split; [reflexivity|].
  refine (proj1 (proj2 (create_schedule_pure subjects_CAB _ allocs_CAB blank_schedule
                          dt_by_index subjects' _ E))).
  repeat constructor.
Defined.

(** ** Acceptance of schedules *)

Section acceptance.

Lemma eqb_spec (x y : Schedule.t) :
  Schedule.eqb x y = true ↔ Schedule.table x = Schedule.table y.
Proof. unfold Schedule.eqb. apply bool_decide_eq_true. Qed.

Lemma existsb_eqb schedule saved :
  existsb (fun element => Schedule.eqb schedule element) saved = true ↔
  ∃ e, e ∈ saved ∧ Schedule.table e = Schedule.table schedule.
Proof.
  rewrite existsb_Exists, Exists_exists. split.
  - intros (e & He & Heq%eqb_spec). eauto.
  - intros (e & He & Heq). exists e. split; [done|]. by apply eqb_spec.
Qed.

Lemma index_schedule_new saved schedule :
  (∀ e, e ∈ saved → Schedule.table e ≠ Schedule.table schedule) →
  index_schedule (saved ++ [schedule]) schedule = Some (length saved).
Proof.
  induction saved as [|x saved IH]; intros Hnew; cbn.
  - assert (Schedule.eqb schedule schedule = true) as -> by (by apply eqb_spec). done.
  - destruct (Schedule.eqb x schedule) eqn:Hx.
    + apply eqb_spec in Hx. exfalso. eapply Hnew; [by left|done].
    + rewrite IH; [done|]. intros e He. apply Hnew. by right.
Qed.

Lemma submit_cases schedule saved dups :
  (Schedule.failed schedule = true ∧ submit schedule saved dups = Some (saved, dups)) ∨
  (Schedule.failed schedule = false ∧
   (∃ e, e ∈ saved ∧ Schedule.table e = Schedule.table schedule) ∧
   submit schedule saved dups = Some (saved, dups + 1)) ∨
  (Schedule.failed schedule = false ∧
   (∀ e, e ∈ saved → Schedule.table e ≠ Schedule.table schedule) ∧
   submit schedule saved dups =
     Some (saved ++ [set_version schedule (Z.of_nat (length saved) + 1)], dups)).
Proof.
  unfold submit. destruct (Schedule.failed schedule); [by left|right].
  destruct (existsb _ saved) eqn:Hex.
  - left. apply existsb_eqb in Hex. done.
  - right. assert (Hnew : ∀ e, e ∈ saved → Schedule.table e ≠ Schedule.table schedule).
    { intros e He Heq. assert (existsb (fun element => Schedule.eqb schedule element) saved = true)
        as Ht by (apply existsb_eqb; eauto). congruence. }
    rewrite index_schedule_new by done. done.
Qed.

Lemma submit_NoDup schedule saved dups saved' dups' :
  submit schedule saved dups = Some (saved', dups') →
  NoDup (Schedule.table <$> saved) → NoDup (Schedule.table <$> saved').
Proof.
  destruct (submit_cases schedule saved dups)
    as [(_ & ->)|[(_ & _ & ->)|(_ & Hnew & ->)]]; intros [= <- <-]; try done.
  intros Hnd. rewrite fmap_app. apply NoDup_app. split_and!; [done| |apply NoDup_singleton].
  intros t (e & -> & He)%list_elem_of_fmap Ht. cbn in Ht.
  apply list_elem_of_singleton in Ht. by eapply Hnew.
Qed.

Lemma neighbours_invariant (I : state → Prop) rec ks st st' :
  (∀ f k s, I s → I (call_alloc f k s)) →
  (∀ s s', I s → rec s = Done s' → I s') →
  I st → neighbours rec ks st = Done st' → I st'.
Proof.
  intros Hcall Hrec. revert st. induction ks as [|k ks IH]; intros st Hst; cbn.
  - by intros [= <-].
  - destruct (rec (call_alloc Allocation.advance k st)) as [s1| |] eqn:E; [|done..].
    apply IH. apply Hcall. eapply Hrec; [|done]. by apply Hcall.
Qed.

Lemma percolate_saved_NoDup fuel st st' :
  percolate fuel st = Done st' →
  NoDup (Schedule.table <$> saved_schedules st) →
  NoDup (Schedule.table <$> saved_schedules st').
Proof.
  revert st st'. induction fuel as [|fuel IH]; intros st st'; cbn; [done|].
  destruct (find_reached_end (alloc_by_subj st)); [by intros [= <-]|].
  destruct (mapM Allocation.enables_timeslot (alloc_by_subj st)) as [perm_check|]; [|done].
  case_decide; [by intros [= <-]|].
  destruct (Schedule.init _ _ _ _) as [[schedule subjects']|]; [|done].
  destruct (submit schedule (saved_schedules st) (duplicates st)) as [[saved' dups']|] eqn:Hs;
    [|done].
  intros Hn Hnd.
  eapply (neighbours_invariant (fun s => NoDup (Schedule.table <$> saved_schedules s)));
    [| |  |exact Hn]; cbn.
  - done.
  - intros s s' Hs' Hp. by eapply IH.
  - by eapply submit_NoDup.
Qed.

End acceptance.

(** C5. A submitted schedule that is failed is dropped and nothing changes;
    one that is not failed but whose grid equals, cell for cell, the grid of
    an accepted schedule is dropped and the duplicate counter goes up by
    one; any other schedule is appended to the accepted list, and what is
    stored there has the version 1 + the number of schedules accepted
    before and the grid and the flags of the submitted schedule.  The
    accepted list never holds two schedules with the same grid, neither
    after one submission nor at the end of a search. *)
Theorem submit_spec (schedule : Schedule.t) (saved : list Schedule.t) (dups : Z) :
  (Schedule.failed schedule = true → submit schedule saved dups = Some (saved, dups)) ∧
  (Schedule.failed schedule = false →
   (∃ e, e ∈ saved ∧ Schedule.table e = Schedule.table schedule) →
   submit schedule saved dups = Some (saved, dups + 1)) ∧
  (Schedule.failed schedule = false →
   (∀ e, e ∈ saved → Schedule.table e ≠ Schedule.table schedule) →
   ∃ stored,
     submit schedule saved dups = Some (saved ++ [stored], dups) ∧
     stored = set_version schedule (1 + Z.of_nat (length saved)) ∧
     Schedule.version stored = Some (1 + Z.of_nat (length saved)) ∧
     Schedule.table stored = Schedule.table schedule ∧
     Schedule.is_incomplete stored = Schedule.is_incomplete schedule ∧
     Schedule.failed stored = false) ∧
  (∀ saved' dups', submit schedule saved dups = Some (saved', dups') →
                   NoDup (Schedule.table <$> saved) → NoDup (Schedule.table <$> saved')) ∧
  (∀ subjects fuel st, percolate fuel (initial_state subjects) = Done st →
                       NoDup (Schedule.table <$> saved_schedules st)).
Proof.
  split_and!.
  - intros Hf. destruct (submit_cases schedule saved dups)
      as [(_ & ->)|[(? & _)|(? & _)]]; [done|congruence..].
  - intros Hf Hex. destruct (submit_cases schedule saved dups)
      as [(? & _)|[(_ & _ & ->)|(_ & Hnew & _)]]; [congruence|done|].
    destruct Hex as (e & He & Heq). by destruct (Hnew e He).
  - intros Hf Hnew. destruct (submit_cases schedule saved dups)
      as [(? & _)|[(_ & (e & He & Heq) & _)|(_ & _ & ->)]]; [congruence|by destruct (Hnew e He)|].
    exists (set_version schedule (1 + Z.of_nat (length saved))).
    split_and!; [by rewrite Z.add_comm|done..].
  - intros saved' dups'. apply submit_NoDup.
  - intros subjects fuel st Hp. eapply percolate_saved_NoDup; [exact Hp|]. constructor.
Qed.

Lemma submit_spec_witness :
  let schedule := Schedule.mk ∅ false false None in
  (∃ stored, submit schedule [] 0 = Some ([stored], 0) ∧
             Schedule.version stored = Some 1 ∧ Schedule.table stored = ∅) ∧
  submit schedule [set_version schedule 1] 0 = Some ([set_version schedule 1], 1).
Proof.
  intros schedule. split.
  - destruct (proj1 (proj2 (proj2 (submit_spec schedule [] 0))) eq_refl)
      as (stored & Hs & _ & Hv & Ht & _).
    + intros e He. by apply elem_of_nil in He.
    + exists stored. split; [exact Hs|]. split; [exact Hv | exact Ht].
  - apply (proj1 (proj2 (submit_spec schedule [set_version schedule 1] 0))); [reflexivity|].
    exists (set_version schedule 1). split; [by left|reflexivity].
Defined.

(** ** Termination of the search *)

Section termination.

Lemma signatures_elem_of sig arrs :
  Forall2 (fun booltup array => booltup ∈ array) sig arrs → sig ∈ signatures arrs.
Proof.
  induction 1 as [|b a sig arrs Hb _ IH]; cbn.
  - by apply list_elem_of_singleton.
  - apply list_elem_of_bind. exists b. split; [|done].
    apply list_elem_of_bind. exists sig. split; [|done].
    by apply list_elem_of_singleton.
Qed.

Lemma perm_check_in_signatures allocs perm_check :
  mapM Allocation.enables_timeslot allocs = Some perm_check →
  perm_check ∈ signatures (Allocation.array <$> allocs).
Proof.
  intros H%mapM_Some. apply signatures_elem_of.
  apply Forall2_fmap_r, Forall2_flip.
  eapply Forall2_impl; [exact H|]. intros a bits. apply get_array_elem_of.
Qed.

Lemma call_alloc_arrays f k st :
  (∀ a, Allocation.array (f a) = Allocation.array a) →
  arrays (call_alloc f k st) = arrays st.
Proof.
  intros Hf. unfold arrays, call_alloc. cbn.
  apply list_eq. intros i. rewrite !list_lookup_fmap.
  destruct (decide (i = k)) as [->|Hne].
  - rewrite list_lookup_alter_eq. destruct (alloc_by_subj st !! k); cbn; [|done].
    by rewrite Hf.
  - by rewrite list_lookup_alter_ne.
Qed.

Lemma advance_array a : Allocation.array (Allocation.advance a) = Allocation.array a.
Proof. apply (do_call_array a Advance). Qed.

Lemma reverse_array a : Allocation.array (Allocation.reverse a) = Allocation.array a.
Proof. apply (do_call_array a Reverse). Qed.







Lemma signatures_length arrs :
  length (signatures arrs) = foldr Nat.mul 1%nat (length <$> arrs).
Proof.
  induction arrs as [|a arrs IH]; [done|].
  cbn [signatures fmap list_fmap foldr]. rewrite <- IH. clear IH.
  induction a as [|b a IHa]; [done|].
  cbn [mbind list_bind]. rewrite length_app, IHa. cbn [length Nat.mul].
  f_equal. generalize (signatures arrs). intros l.
  induction l as [|x l IHl]; [done|]. cbn. by rewrite IHl.
Qed.



End termination.


(** ** The walk over the signatures *)

Section walk.

Lemma neighbours_mono (rec rec' : state → outcome state) ks st st' :
  (∀ s s', rec s = Done s' → rec' s = Done s') →
  neighbours rec ks st = Done st' → neighbours rec' ks st = Done st'.
Proof.
  intros Hrec. revert st. induction ks as [|k ks IH]; intros st; cbn; [done|].
  destruct (rec (call_alloc Allocation.advance k st)) as [s1| |] eqn:E; [|done..].
  rewrite (Hrec _ _ E). apply IH.
Qed.

(** More fuel does not change a result. *)
Lemma percolate_fuel_mono fuel fuel' st st' :
  (fuel ≤ fuel')%nat → percolate fuel st = Done st' → percolate fuel' st = Done st'.
Proof.
  revert fuel' st st'. induction fuel as [|fuel IH]; intros fuel' st st' Hle; [done|].
  destruct fuel' as [|fuel']; [lia|]. cbn.
  destruct (find_reached_end (alloc_by_subj st)); [done|].
  destruct (mapM Allocation.enables_timeslot (alloc_by_subj st)) as [perm_check|]; [|done].
  case_decide; [done|].
  destruct (Schedule.init _ _ _ _) as [[schedule subjects']|]; [|done].
  destruct (submit schedule (saved_schedules st) (duplicates st)) as [[saved' dups']|]; [|done].
  apply neighbours_mono. intros s s'. apply IH. lia.
Qed.

(** The builder is called once for every signature added to
    [permutations], and for no other. *)
Lemma percolate_builds fuel st st' :
  percolate fuel st = Done st' →
  NoDup (builds st) ∧ list_to_set (builds st) = permutations st →
  NoDup (builds st') ∧ list_to_set (builds st') = permutations st'.
Proof.
  revert st st'. induction fuel as [|fuel IH]; intros st st'; cbn; [done|].
  destruct (find_reached_end (alloc_by_subj st)); [by intros [= <-]|].
  destruct (mapM Allocation.enables_timeslot (alloc_by_subj st)) as [perm_check|]; [|done].
  case_decide as Hseen; [by intros [= <-]|].
  destruct (Schedule.init _ _ _ _) as [[schedule subjects']|]; [|done].
  destruct (submit schedule (saved_schedules st) (duplicates st)) as [[saved' dups']|]; [|done].
  intros Hn [Hnd Hset].
  eapply (neighbours_invariant
            (fun s => NoDup (builds s) ∧ list_to_set (builds s) = permutations s));
    [| | |exact Hn]; cbn.
  - done.
  - intros s s' Hs Hp. by eapply IH.
  - split.
    + constructor; [|done]. rewrite <- Hset in Hseen.
      by rewrite elem_of_list_to_set in Hseen.
    + by rewrite Hset.
Qed.

End walk.

(** C1 fails on the code.  Three exclusive-choice subjects with 4, 3 and 3
    pairwise disjoint slots span 36 signatures, each a valid schedule of its
    own.  With any fuel from 100 on the walk returns having built 35 of them,
    none twice; the signature "A first slot, B third slot, C first slot" is
    never built.  After an [advance] that only set the end-of-range flag,
    [reverse] still steps the index back, so the walk resumes one choice too
    low and this neighbour is skipped. *)
Theorem percolate_misses_a_signature :
  ∃ st,
    (∀ fuel, (100 ≤ fuel)%nat →
             percolate fuel (initial_state [subj_A; subj_B; subj_C]) = Done st) ∧
    n_signatures (initial_state [subj_A; subj_B; subj_C]) = 36%nat ∧
    NoDup (builds st) ∧ length (builds st) = 35%nat ∧
    length (saved_schedules st) = 35%nat ∧
    missed_signature ∈ signatures (arrays st) ∧
    missed_signature ∉ builds st.
Proof.
  assert (Hdone : is_done (percolate 100 (initial_state [subj_A; subj_B; subj_C])) = true)
    by (vm_compute; reflexivity).
  destruct (percolate 100 (initial_state [subj_A; subj_B; subj_C])) as [st| |] eqn:E;
    [|discriminate Hdone..].
  exists st.
  pose (b := match percolate 100 (initial_state [subj_A; subj_B; subj_C]) with
             | Done s => builds s | _ => [] end).
  pose (n := match percolate 100 (initial_state [subj_A; subj_B; subj_C]) with
             | Done s => length (saved_schedules s) | _ => 0%nat end).
  pose (a := match percolate 100 (initial_state [subj_A; subj_B; subj_C]) with
             | Done s => arrays s | _ => [] end).
  assert (Hb : builds st = b) by (unfold b; rewrite E; reflexivity).
  assert (Hs : length (saved_schedules st) = n) by (unfold n; rewrite E; reflexivity).
  assert (Ha : arrays st = a) by (unfold a; rewrite E; reflexivity).
  vm_compute in b, n, a. subst b n a.
  split_and!.
  - intros fuel Hf. by eapply percolate_fuel_mono.
  - reflexivity.
  - refine (proj1 (percolate_builds _ _ _ E _)). split; [constructor|done].
  - by rewrite Hb.
  - exact Hs.
  - rewrite Ha. apply (bool_decide_unpack _). by vm_compute.
  - rewrite Hb. apply (bool_decide_unpack _). by vm_compute.
Qed.

(** ** The builder against the design document *)

Section grid_cells.

Lemma index_Some l x i : index l x = Some i → l !! i = Some x.
Proof.
  revert i. induction l as [|y l IH]; intros i; cbn; [done|].
  case_decide as Hy; [by intros [= <-]; subst|].
  destruct (index l x) as [i'|]; [|done]. cbn. intros [= <-]. cbn. by apply IH.
Qed.

Lemma index_elem_of l x : x ∈ l → is_Some (index l x).
Proof.
  induction l as [|y l IH]; [by intros ?%elem_of_nil|].
  intros Hx. cbn. case_decide as Hy; [by eexists|].
  apply elem_of_cons in Hx as [->|Hx]; [done|].
  destruct (IH Hx) as [i ->]. by eexists.
Qed.

Lemma sorted_lookup_lt l i j x y :
  StronglySorted Z.lt l → l !! i = Some x → l !! j = Some y → (i < j)%nat → x < y.
Proof.
  intros Hs. revert i j. induction Hs as [|z l Hs IH Hz]; intros i j; [done|].
  destruct i as [|i], j as [|j]; cbn; try lia.
  - intros [= <-] Hj _. rewrite Forall_forall in Hz. apply Hz.
    by eapply list_elem_of_lookup_2.
  - intros Hi Hj Hlt. apply (IH i j); [done..|lia].
Qed.

Lemma sorted_lookup_le l i j x y :
  StronglySorted Z.lt l → l !! i = Some x → l !! j = Some y → (i ≤ j)%nat → x ≤ y.
Proof.
  intros Hs Hi Hj Hle. destruct (decide (i = j)) as [->|Hne].
  - assert (x = y) by congruence. lia.
  - pose proof (sorted_lookup_lt l i j x y Hs Hi Hj). lia.
Qed.

Lemma sorted_lookup_le_inv l i j x y :
  StronglySorted Z.lt l → l !! i = Some x → l !! j = Some y → x ≤ y → (i ≤ j)%nat.
Proof.
  intros Hs Hi Hj Hle. destruct (decide (i ≤ j)%nat) as [|Hgt]; [done|].
  pose proof (sorted_lookup_lt l j i y x Hs Hj Hi). lia.
Qed.

(** The cells the script reaches through its index range are the grid
    instants in [start, end). *)
Lemma slot_range_cells dtin sel :
  StronglySorted Z.lt dtin → Forall (fun k => k mod 5 = 0) dtin →
  slot_on_grid dtin sel →
  ∃ ixs, Schedule.slot_range sel dtin = Some ixs ∧
         Forall (fun i => is_Some (dtin !! i)) ixs ∧
         ∀ k, (∃ i, i ∈ ixs ∧ dtin !! i = Some k) ↔ k ∈ slot_cells dtin sel.
Proof.
  intros Hs Hal [Hstart Hend].
  destruct (index_elem_of _ _ Hstart) as [t1 Ht1].
  destruct (index_elem_of _ _ Hend) as [t2 Ht2].
  unfold Schedule.slot_range. rewrite Ht1, Ht2. cbn.
  eexists. split; [done|].
  apply index_Some in Ht1, Ht2.
  assert (Hend5 : (snd sel - 5) mod 5 = 0)
    by (rewrite Forall_forall in Hal; by apply Hal).
  split.
  - apply Forall_forall. intros i [? ?]%elem_of_seq. apply lookup_lt_is_Some.
    apply lookup_lt_Some in Ht2. lia.
  - intros k. unfold slot_cells. rewrite list_elem_of_filter. split.
    + intros (i & [? ?]%elem_of_seq & Hi).
      pose proof (sorted_lookup_le _ _ _ _ _ Hs Ht1 Hi).
      pose proof (sorted_lookup_le _ i t2 _ _ Hs Hi Ht2).
      split; [lia|by eapply list_elem_of_lookup_2].
    + intros [[Hlo Hhi] (i & Hi)%list_elem_of_lookup_1].
      exists i. split; [|done]. apply elem_of_seq.
      assert (Hk5 : k mod 5 = 0)
        by (rewrite Forall_forall in Hal; eapply Hal, list_elem_of_lookup_2, Hi).
      assert (k ≤ snd sel - 5).
      { apply Z.mod_divide in Hk5 as [a Ha]; [|done].
        apply Z.mod_divide in Hend5 as [b Hb]; [|done]. lia. }
      pose proof (sorted_lookup_le_inv _ _ _ _ _ Hs Ht1 Hi).
      pose proof (sorted_lookup_le_inv _ i t2 _ _ Hs Hi Ht2).
      lia.
Qed.

Lemma all_empty_true grid cells :
  all_empty grid cells = true ↔ ∀ k, k ∈ cells → grid !! k = Some "".
Proof.
  unfold all_empty. rewrite forallb_forall. split.
  - intros H k Hk. apply list_elem_of_In in Hk. apply H in Hk.
    by apply bool_decide_eq_true in Hk.
  - intros H k Hk. apply list_elem_of_In in Hk. by apply bool_decide_eq_true, H.
Qed.

Lemma write_name_lookup grid name cells k :
  write_name grid name cells !! k = if decide (k ∈ cells) then Some name else grid !! k.
Proof.
  unfold write_name. induction cells as [|c cells IH]; cbn [foldr].
  - rewrite decide_False; [done|]. apply not_elem_of_nil.
  - destruct (decide (c = k)) as [->|Hne].
    + rewrite lookup_insert_eq, decide_True; [done|by left].
    + rewrite lookup_insert_ne, IH by done.
      destruct (decide (k ∈ cells)).
      * rewrite decide_True; [done|by right].
      * rewrite decide_False; [done|]. intros [->|?]%elem_of_cons; done.
Qed.

Lemma is_free_loop_total (table : gmap Z string) dtin ixs :
  Forall (fun i => ∃ k, dtin !! i = Some k ∧ is_Some (table !! k)) ixs →
  ∃ b, Schedule.is_free_loop table dtin ixs = Some b ∧
       (b = true ↔ ∀ i k, i ∈ ixs → dtin !! i = Some k → table !! k = Some "").
Proof.
  induction 1 as [|i ixs (k & Hk & (v & Hv)) _ (b & Hb & IH)]; cbn.
  - exists true. split; [done|]. split; [|done]. intros _ i k Hi. by apply elem_of_nil in Hi.
  - rewrite Hk. cbn. rewrite Hv. cbn. destruct (truthy v) eqn:Ht.
    + exists false. split; [done|]. split; [done|]. intros Hall.
      assert (v = "") as -> by (specialize (Hall i k); rewrite Hv in Hall;
                                  injection Hall; [done|by left|done]).
      done.
    + exists b. split; [done|]. apply truthy_false in Ht as ->. rewrite IH. split.
      * intros Hall i' k' [->|Hi']%elem_of_cons Hk'; [congruence|eauto].
      * intros Hall i' k' Hi'. apply Hall. by right.
Qed.

Lemma fill_loop_total table name dtin ixs :
  Forall (fun i => is_Some (dtin !! i)) ixs →
  is_Some (Schedule.fill_loop table name dtin ixs).
Proof.
  intros Hall. revert table. induction Hall as [|i ixs [k Hk] _ IH]; intros table; cbn.
  - by eexists.
  - rewrite Hk. cbn. apply IH.
Qed.

End grid_cells.

Section refinement.

Lemma with_allocated_id s : with_allocated s (Subject.allocated_times s) = s.
Proof. by destruct s. Qed.

Lemma grid_ok_write dtin table name cells :
  grid_ok dtin table → grid_ok dtin (write_name table name cells).
Proof.
  intros (Hs & Hal & Hc). split_and!; [done..|].
  eapply Forall_impl; [exact Hc|]. intros k Hk. cbn in *.
  rewrite write_name_lookup. by case_decide.
Qed.

Lemma grid_ok_place dtin table name a sel :
  grid_ok dtin table → grid_ok dtin (place dtin name (table, a) sel).1.
Proof.
  intros Hg. unfold place. cbn. destruct (all_empty _ _); cbn; [|done].
  by apply grid_ok_write.
Qed.

(** One guarded fill of the script is one [place] of the design document. *)
Lemma try_allocate_refines dtin table subject sel :
  grid_ok dtin table → slot_on_grid dtin sel →
  Schedule.try_allocate dtin table subject sel
  = Some ((place dtin (Subject.name subject) (table, Subject.allocated_times subject) sel).1,
          with_allocated subject
            (place dtin (Subject.name subject) (table, Subject.allocated_times subject) sel).2).
Proof.
  intros (Hs & Hal & Hc) Hsel.
  destruct (slot_range_cells dtin sel Hs Hal Hsel) as (ixs & Hr & Hix & Hcells).
  assert (Hix' : Forall (fun i => ∃ k, dtin !! i = Some k ∧ is_Some (table !! k)) ixs).
  { eapply Forall_impl; [exact Hix|]. intros i [k Hk]. exists k. split; [done|].
    rewrite Forall_forall in Hc. eapply Hc, list_elem_of_lookup_2, Hk. }
  destruct (is_free_loop_total table dtin ixs Hix') as (b & Hb & Hbt).
  assert (Hae : all_empty table (slot_cells dtin sel) = b).
  { destruct b.
    - apply all_empty_true. intros k (i & Hi & Hk)%Hcells.
      destruct Hbt as [Hbt _]. by eapply Hbt.
    - apply not_true_is_false. intros Hall. rewrite all_empty_true in Hall.
      assert (false = true); [|done]. apply Hbt. intros i k Hi Hk. apply Hall, Hcells. eauto. }
  unfold Schedule.try_allocate, Schedule.is_free, Schedule.fill, place.
  rewrite Hr. cbn. rewrite Hb, Hae. cbn. destruct b; cbn.
  - destruct (fill_loop_total table (Subject.name subject) dtin ixs Hix) as [t' Ht'].
    rewrite Ht'. cbn. f_equal. f_equal.
    apply map_eq. intros k. rewrite write_name_lookup.
    destruct (fill_loop_lookup _ _ _ _ _ k Ht') as [[Hn Hex]|[He Hno]].
    + rewrite decide_True; [done|]. by apply Hcells.
    + rewrite decide_False; [done|]. intros (i & Hi & Hk)%Hcells. by eapply Hno.
  - by rewrite with_allocated_id.
Qed.

Lemma phase1_slots_refines dtin a bits table subject rest_times rest_bits pre_times pre_bits :
  grid_ok dtin table →
  Allocation.enables_timeslot a = Some bits →
  Subject.times subject = pre_times ++ rest_times →
  bits = pre_bits ++ rest_bits →
  length pre_times = length pre_bits →
  length rest_times = length rest_bits →
  Forall (slot_on_grid dtin) rest_times →
  Schedule.phase1_slots dtin a (seq (length pre_times) (length rest_times)) table subject
  = Some ((priority_fill dtin (Subject.name subject) rest_times rest_bits
             (table, Subject.allocated_times subject)).1,
          with_allocated subject
            (priority_fill dtin (Subject.name subject) rest_times rest_bits
               (table, Subject.allocated_times subject)).2).
Proof.
  intros Hg Ha. revert table subject rest_bits pre_times pre_bits Hg.
  induction rest_times as [|sel rest IH];
    intros table subject rest_bits pre_times pre_bits Hg Ht Hb Hpre Hrest Hon.
  - cbn. by rewrite with_allocated_id.
  - destruct rest_bits as [|b rest_bits]; [done|].
    apply Forall_cons in Hon as [Hsel Hon].
    cbn [length seq Schedule.phase1_slots priority_fill]. rewrite Ha. cbn [mbind option_bind].
    assert (bits !! length pre_times = Some b) as ->.
    { rewrite Hb, Hpre, lookup_app_r, Nat.sub_diag by lia. done. }
    cbn [mbind option_bind].
    assert (Subject.times subject !! length pre_times = Some sel) as Hsel'.
    { rewrite Ht, lookup_app_r, Nat.sub_diag by lia. done. }
    set (g1 := if b then place dtin (Subject.name subject)
                            (table, Subject.allocated_times subject) sel
               else (table, Subject.allocated_times subject)).
    assert (Hstep : (if b then Subject.times subject !! length pre_times
                               ≫= (fun selected_time =>
                                     Schedule.try_allocate dtin table subject selected_time)
                     else Some (table, subject))
                    = Some (g1.1, with_allocated subject g1.2)).
    { subst g1. destruct b.
      - rewrite Hsel'. cbn. by apply try_allocate_refines.
      - cbn. by rewrite with_allocated_id. }
    rewrite Hstep. cbn [mbind option_bind].
    assert (Hg1 : grid_ok dtin g1.1).
    { subst g1. destruct b; [by apply grid_ok_place|done]. }
    specialize (IH g1.1 (with_allocated subject g1.2) rest_bits
                   (pre_times ++ [sel]) (pre_bits ++ [b]) Hg1).
    rewrite !length_app in IH. cbn [length] in IH.
    replace (length pre_times + 1)%nat with (S (length pre_times)) in IH by lia.
    rewrite IH; cbn.
    + destruct g1 as [t1 a1]. done.
    + by rewrite Ht, <- app_assoc.
    + by rewrite Hb, <- app_assoc.
    + lia.
    + cbn in Hrest. lia.
    + done.
Qed.

Lemma phase2_slots_refines dtin ts table subject :
  grid_ok dtin table →
  Forall (slot_on_grid dtin) ts →
  let r := foldl (fun g s => if decide (s ∈ g.2) then g
                             else place dtin (Subject.name subject) g s)
                 (table, Subject.allocated_times subject) ts in
  Schedule.phase2_slots dtin ts table subject = Some (r.1, with_allocated subject r.2) ∧
  grid_ok dtin r.1.
Proof.
  intros Hg Hon. revert table subject Hg.
  induction Hon as [|sel ts Hsel Hon IH]; intros table subject Hg; cbn.
  - by rewrite with_allocated_id.
  - case_decide as Hin.
    + cbn. apply IH, Hg.
    + rewrite try_allocate_refines by done. cbn.
      set (g1 := place dtin (Subject.name subject) (table, Subject.allocated_times subject) sel).
      specialize (IH g1.1 (with_allocated subject g1.2)).
      cbn in IH. destruct g1 as [t1 a1] eqn:E. cbn in *.
      apply IH. pose proof (grid_ok_place dtin table (Subject.name subject)
                              (Subject.allocated_times subject) sel Hg) as H1.
      fold g1 in H1. by rewrite E in H1.
Qed.

End refinement.

Section refinement_subjects.

Lemma grid_ok_priority_fill dtin name slots bits g :
  grid_ok dtin g.1 → grid_ok dtin (priority_fill dtin name slots bits g).1.
Proof.
  revert bits g. induction slots as [|s slots IH]; intros [|b bits] g Hg; cbn; try done.
  apply IH. destruct b; [|done]. destruct g. by apply grid_ok_place.
Qed.

Lemma phase1_subject_refines dtin alloc_by_subj j a bits table s :
  grid_ok dtin table →
  alloc_by_subj !! j = Some a →
  Allocation.enables_timeslot a = Some bits →
  length bits = length (Subject.times s) →
  Forall (slot_on_grid dtin) (Subject.times s) →
  Schedule.phase1_subject dtin alloc_by_subj j table s
  = Some ((priority_fill dtin (Subject.name s) (Subject.times s) bits
             (table, Subject.allocated_times s)).1,
          with_allocated s
            (priority_fill dtin (Subject.name s) (Subject.times s) bits
               (table, Subject.allocated_times s)).2).
Proof.
  intros Hg Hj Ha Hl Ho. unfold Schedule.phase1_subject. rewrite Hj. cbn [mbind option_bind].
  apply (phase1_slots_refines dtin a bits table s (Subject.times s) bits [] []); done.
Qed.

Lemma phase1_refines dtin alloc_by_subj subjects j bitmasks table :
  grid_ok dtin table →
  Forall Subject.fresh subjects →
  Forall (fun s => Forall (slot_on_grid dtin) (Subject.times s)) subjects →
  Forall2 (fun a bits => Allocation.enables_timeslot a = Some bits)
          (drop j alloc_by_subj) bitmasks →
  Forall2 (fun s bits => length bits = length (Subject.times s)) subjects bitmasks →
  Schedule.for_subjects (Schedule.phase1_subject dtin alloc_by_subj) j subjects table
  = Some ((spec_phase1 dtin subjects bitmasks table).1,
          zip_with with_allocated subjects (spec_phase1 dtin subjects bitmasks table).2) ∧
  grid_ok dtin (spec_phase1 dtin subjects bitmasks table).1 ∧
  length (spec_phase1 dtin subjects bitmasks table).2 = length subjects.
Proof.
  intros Hg Hfresh Hon Hal Hlen. revert j table Hg Hfresh Hon Hal.
  induction Hlen as [|s bits subjects bitmasks Hl _ IH]; intros j table Hg Hfresh Hon Hal.
  - done.
  - apply Forall_cons in Hfresh as [Hf Hfresh]. apply Forall_cons in Hon as [Ho Hon].
    destruct (drop j alloc_by_subj) as [|a rest] eqn:Hdrop; [by inversion Hal|].
    apply Forall2_cons in Hal as [Ha Hal].
    assert (Hj : alloc_by_subj !! j = Some a).
    { pose proof (lookup_drop alloc_by_subj j 0) as Hd.
      rewrite Hdrop, Nat.add_0_r in Hd. done. }
    assert (Hrest : drop (S j) alloc_by_subj = rest).
    { pose proof (drop_drop alloc_by_subj 1 j) as Hd.
      rewrite Hdrop in Hd. replace (S j) with (j + 1)%nat by lia. by rewrite <- Hd. }
    cbn [Schedule.for_subjects spec_phase1].
    rewrite (phase1_subject_refines dtin alloc_by_subj j a bits table s) by done.
    cbn [mbind option_bind]. rewrite Hf.
    set (g := priority_fill dtin (Subject.name s) (Subject.times s) bits (table, ∅)).
    assert (Hg1 : grid_ok dtin g.1) by (by apply grid_ok_priority_fill).
    rewrite <- Hrest in Hal.
    destruct (IH (S j) g.1 Hg1 Hfresh Hon Hal) as (E & Hg2 & Hlen2).
    rewrite E. cbn. split_and!; [done|done|by rewrite Hlen2].
Qed.

Lemma phase2_subject_refines dtin j table s a :
  grid_ok dtin table →
  Forall (slot_on_grid dtin) (Subject.times s) →
  Schedule.phase2_subject dtin j table (with_allocated s a)
  = Some ((best_effort_fill dtin s (table, a)).1,
          with_allocated s (best_effort_fill dtin s (table, a)).2) ∧
  grid_ok dtin (best_effort_fill dtin s (table, a)).1.
Proof.
  intros Hg Hon. unfold Schedule.phase2_subject, best_effort_fill. cbn.
  destruct (Subject.type s); [done|].
  destruct (phase2_slots_refines dtin (Subject.times s) table (with_allocated s a) Hg Hon)
    as [E Hg']. cbn in E, Hg'. rewrite E. done.
Qed.

Lemma phase2_refines dtin subjects j allocated table :
  grid_ok dtin table →
  Forall (fun s => Forall (slot_on_grid dtin) (Subject.times s)) subjects →
  length allocated = length subjects →
  Schedule.for_subjects (Schedule.phase2_subject dtin) j
    (zip_with with_allocated subjects allocated) table
  = Some ((spec_phase2 dtin subjects allocated table).1,
          zip_with with_allocated subjects (spec_phase2 dtin subjects allocated table).2) ∧
  length (spec_phase2 dtin subjects allocated table).2 = length subjects.
Proof.
  intros Hg Hon. revert j allocated table Hg.
  induction Hon as [|s subjects Ho Hon IH]; intros j allocated table Hg Hlen.
  - destruct allocated; done.
  - destruct allocated as [|a allocated]; [done|].
    cbn [zip_with Schedule.for_subjects spec_phase2].
    destruct (phase2_subject_refines dtin j table s a Hg Ho) as [E Hg1].
    rewrite E. cbn [mbind option_bind].
    destruct (IH (S j) allocated _ Hg1) as [E' Hlen']; [cbn in Hlen; lia|].
    rewrite E'. cbn. by rewrite Hlen'.
Qed.

Lemma fmap_allocated_zip subjects allocated :
  length allocated = length subjects →
  Subject.allocated_times <$> zip_with with_allocated subjects allocated = allocated.
Proof.
  revert allocated. induction subjects as [|s subjects IH]; intros [|a allocated]; cbn;
    try done.
  intros [= Hlen]. by rewrite IH.
Qed.

End refinement_subjects.

(** C2 (as the code has it).  On a well-formed grid and for subjects whose
    slots all lie on it (each begins on an instant of the grid and ends five
    minutes after one), the builder does what the two phases of the design
    document say.  Phase 1
    goes through the subjects in order and, for each, through its slots in
    definition order; a slot whose bit is set gets the subject's name in all
    its cells if all of them are empty and is skipped otherwise.  Phase 2
    goes through the "VO" subjects only and tries, in definition order,
    every slot not yet allocated, whatever its bit; "UE" subjects are left
    as phase 1 left them.  The builder returns the grid of phase 2 and
    raises nothing. *)
Theorem create_schedule_two_phases (subjects : list Subject.t)
  (alloc_by_subj : list Allocation.t) (bitmasks : list (list bool))
  (blank : gmap Z string) (dtin : list Z) :
  grid_ok dtin blank →
  Forall Subject.fresh subjects →
  Forall (fun s => Forall (slot_on_grid dtin) (Subject.times s)) subjects →
  Forall2 (fun a bits => Allocation.enables_timeslot a = Some bits) alloc_by_subj bitmasks →
  Forall2 (fun s bits => length bits = length (Subject.times s)) subjects bitmasks →
  let phase1 := spec_phase1 dtin subjects bitmasks blank in
  let phase2 := spec_phase2 dtin subjects phase1.2 phase1.1 in
  ∃ subjects1 placed schedule,
    Schedule.for_subjects (Schedule.phase1_subject dtin alloc_by_subj) 0 subjects blank
      = Some (phase1.1, subjects1) ∧
    Subject.allocated_times <$> subjects1 = phase1.2 ∧
    Schedule.for_subjects (Schedule.phase2_subject dtin) 0 subjects1 phase1.1
      = Some (phase2.1, placed) ∧
    Subject.allocated_times <$> placed = phase2.2 ∧
    Schedule.create_schedule subjects alloc_by_subj blank dtin = Some (schedule, subjects) ∧
    Schedule.table schedule = phase2.1.
Proof.
  intros Hg Hfresh Hon Hal Hlen phase1 phase2.
  destruct (phase1_refines dtin alloc_by_subj subjects 0 bitmasks blank Hg Hfresh Hon Hal Hlen)
    as (E1 & Hg1 & Hlen1).
  fold phase1 in E1, Hg1, Hlen1.
  destruct (phase2_refines dtin subjects 0 phase1.2 phase1.1 Hg1 Hon Hlen1) as (E2 & Hlen2).
  fold phase2 in E2, Hlen2.
  assert (Ea : Schedule.allocate subjects alloc_by_subj blank dtin
               = Some (phase2.1, zip_with with_allocated subjects phase2.2)).
  { unfold Schedule.allocate. rewrite E1. cbn. exact E2. }
  destruct (Schedule.create_schedule subjects alloc_by_subj blank dtin)
    as [[schedule after]|] eqn:Ec.
  2:{ unfold Schedule.create_schedule in Ec. rewrite Ea in Ec. cbn in Ec.
      destruct (Schedule.classify _ _ _) as [[? ?] ?]. done. }
  pose proof (create_schedule_restores _ _ _ _ _ _ Hfresh Ec) as ->.
  destruct (create_schedule_unfold _ _ _ _ _ _ Ec) as (placed & Ha & _).
  rewrite Ea in Ha. injection Ha as Ht _.
  exists (zip_with with_allocated subjects phase1.2),
         (zip_with with_allocated subjects phase2.2), schedule.
  split_and!; [done| |done| |done|done]; by apply fmap_allocated_zip.
Qed.

Lemma create_schedule_two_phases_witness :
  ∃ schedule,
    Schedule.create_schedule subjects_CAB allocs_CAB blank_schedule dt_by_index
      = Some (schedule, subjects_CAB) ∧
    Schedule.table schedule
    = (spec_phase2 dt_by_index subjects_CAB
         (spec_phase1 dt_by_index subjects_CAB [[true]; [true; true]; [true]]
            blank_schedule).2
         (spec_phase1 dt_by_index subjects_CAB [[true]; [true; true]; [true]]
            blank_schedule).1).1.
Proof.
  destruct (create_schedule_two_phases subjects_CAB allocs_CAB [[true]; [true; true]; [true]]
              blank_schedule dt_by_index)
    as (subjects1 & placed & schedule & _ & _ & _ & _ & Hc & Ht).
  - split_and!; by (apply (bool_decide_unpack _); vm_compute).
  - repeat constructor.
  - by apply (bool_decide_unpack _); vm_compute.
  - repeat constructor.
  - repeat constructor.
  - exists schedule. split; [exact Hc | exact Ht].
Defined.

(** C2 (as worded) fails for a slot off the grid.  A subject whose only slot
    is Saturday 10-11, which the loader reads like any other, has no cell on
    the grid of Monday to Friday: the two phases as worded find nothing in
    the way and leave the grid as it is, but the builder raises ([ValueError]
    from [list.index] in [is_free]) and returns no schedule. *)
Lemma create_schedule_two_phases_counterexample :
  grid_ok dt_by_index blank_schedule ∧
  Forall Subject.fresh [subj_Sat] ∧
  Forall2 (fun a bits => Allocation.enables_timeslot a = Some bits)
          [Allocation.init subj_Sat] [[true]] ∧
  Forall2 (fun s bits => length bits = length (Subject.times s)) [subj_Sat] [[true]] ∧
  (spec_phase2 dt_by_index [subj_Sat]
     (spec_phase1 dt_by_index [subj_Sat] [[true]] blank_schedule).2
     (spec_phase1 dt_by_index [subj_Sat] [[true]] blank_schedule).1).1 = blank_schedule ∧
  Schedule.create_schedule [subj_Sat] [Allocation.init subj_Sat] blank_schedule dt_by_index
    = None ∧
  ¬ two_phases_as_worded [subj_Sat] [Allocation.init subj_Sat] [[true]]
      blank_schedule dt_by_index.
Proof.
  assert (Hnone : Schedule.create_schedule [subj_Sat] [Allocation.init subj_Sat]
                    blank_schedule dt_by_index = None)
    by (vm_compute; reflexivity).
  split_and!.
  - split_and!; by (apply (bool_decide_unpack _); vm_compute).
  - repeat constructor.
  - repeat constructor.
  - repeat constructor.
  - apply (bool_decide_unpack _). vm_compute. reflexivity.
  - exact Hnone.
  - intros (schedule & subjects' & Hc & _). rewrite Hnone in Hc. discriminate Hc.
Qed.

(** ** The search on well-formed input returns *)

Section search_returns.

Lemma grid_ok_blank : grid_ok dt_by_index blank_schedule.
Proof. split_and!; by (apply (bool_decide_unpack _); vm_compute). Qed.

Lemma create_schedule_total subjects alloc_by_subj bitmasks blank dtin :
  grid_ok dtin blank →
  Forall Subject.fresh subjects →
  Forall (fun s => Forall (slot_on_grid dtin) (Subject.times s)) subjects →
  Forall2 (fun a bits => Allocation.enables_timeslot a = Some bits) alloc_by_subj bitmasks →
  Forall2 (fun s bits => length bits = length (Subject.times s)) subjects bitmasks →
  ∃ schedule, Schedule.create_schedule subjects alloc_by_subj blank dtin
              = Some (schedule, subjects).
Proof.
  intros Hg Hfresh Hon Hal Hlen.
  destruct (phase1_refines dtin alloc_by_subj subjects 0 bitmasks blank Hg Hfresh Hon Hal Hlen)
    as (E1 & Hg1 & Hlen1).
  destruct (phase2_refines dtin subjects 0 _ _ Hg1 Hon Hlen1) as (E2 & _).
  destruct (Schedule.create_schedule subjects alloc_by_subj blank dtin)
    as [[schedule after]|] eqn:Ec.
  - pose proof (create_schedule_restores _ _ _ _ _ _ Hfresh Ec) as ->. eauto.
  - unfold Schedule.create_schedule, Schedule.allocate in Ec.
    rewrite E1 in Ec. cbn in Ec. rewrite E2 in Ec. cbn in Ec.
    destruct (Schedule.classify _ _ _) as [[? ?] ?]. done.
Qed.

Lemma init_array_elem_length s bits :
  bits ∈ Allocation.array (Allocation.init s) → length bits = length (Subject.times s).
Proof.
  rewrite Allocation_init_array.
  destruct (Subject.type s); intros [_ Hin]%list_elem_of_filter;
    by apply product_bools_elem_length.
Qed.






End search_returns.



(** * Further properties of the code *)

(** ** The order of an enumerator's choices *)

Section enumerator_order.

(** filter over a mapped list *)
Lemma filter_fmap_cons (b : bool) (P : list bool → Prop) `{!∀ x, Decision (P x)}
  (l : list (list bool)) :
  filter P (cons b <$> l) = cons b <$> filter (fun booltup => P (b :: booltup)) l.
Proof.
  induction l as [|x l IH]; [done|].
  rewrite fmap_cons, !filter_cons. case_decide; cbn; by rewrite IH.
Qed.

Lemma filter_sum0 n :
  filter (fun booltup => sum booltup = 0) (product_bools n) = [replicate n false].
Proof.
  induction n as [|n IH]; [done|].
  cbn [product_bools]. rewrite filter_app, !filter_fmap_cons.
  rewrite (list_filter_iff _ (fun _ => False)).
  2:{ intros x. rewrite sum_cons. pose proof (sum_nonneg x). lia. }
  rewrite (list_filter_iff (fun booltup => sum (false :: booltup) = 0)
             (fun booltup => sum booltup = 0)).
  2:{ intros x. rewrite sum_cons. lia. }
  rewrite IH. cbn.
  assert (filter (fun _ : list bool => False) (product_bools n) = []) as ->; [|done].
  generalize (product_bools n). intros l. induction l as [|x l IHl]; [done|].
  by rewrite filter_cons, decide_False by tauto.
Qed.

Lemma filter_sum1 n :
  filter (fun booltup => sum booltup = 1) (product_bools n)
  = (fun i => <[i := true]> (replicate n false)) <$> seq 0 n.
Proof.
  induction n as [|n IH]; [done|].
  cbn [product_bools]. rewrite filter_app, !filter_fmap_cons.
  rewrite (list_filter_iff (fun booltup => sum (true :: booltup) = 1)
             (fun booltup => sum booltup = 0)).
  2:{ intros x. rewrite sum_cons. lia. }
  rewrite (list_filter_iff (fun booltup => sum (false :: booltup) = 1)
             (fun booltup => sum booltup = 1)).
  2:{ intros x. rewrite sum_cons. lia. }
  rewrite filter_sum0, IH. cbn [seq fmap list_fmap replicate].
  f_equal. rewrite <- fmap_S_seq, <- !list_fmap_compose. done.
Qed.

Lemma product_bools_any n :
  filter (fun booltup => any booltup = true) (product_bools n) ++ [replicate n false]
  = product_bools n.
Proof.
  induction n as [|n IH]; [done|].
  cbn [product_bools]. rewrite filter_app, !filter_fmap_cons.
  rewrite (list_filter_iff (fun booltup => any (true :: booltup) = true) (fun _ => True))
    by (intros x; unfold any; cbn; tauto).
  rewrite (list_filter_iff (fun booltup => any (false :: booltup) = true)
             (fun booltup => any booltup = true)) by (intros x; unfold any; cbn; tauto).
  assert (Hall : ∀ l : list (list bool), filter (fun _ => True) l = l).
  { intros l. induction l as [|x l IHl]; [done|].
    rewrite filter_cons, decide_True by done. by rewrite IHl. }
  rewrite Hall, <- app_assoc. f_equal.
  change [replicate (S n) false] with (cons false <$> [replicate n false]).
  by rewrite <- fmap_app, IH.
Qed.

Lemma product_bools_head n : product_bools n !! 0%nat = Some (replicate n true).
Proof.
  induction n as [|n IH]; [done|].
  cbn [product_bools replicate]. rewrite lookup_app_l.
  - by rewrite list_lookup_fmap, IH.
  - rewrite length_fmap, product_bools_length. pose proof (Nat.pow_nonzero 2 n). lia.
Qed.

Lemma filter_head {A} (P : A → Prop) `{!∀ x, Decision (P x)} (l : list A) x :
  l !! 0%nat = Some x → P x → filter P l !! 0%nat = Some x.
Proof.
  destruct l as [|y l]; [done|]. intros Hx HP. injection Hx as ->.
  by rewrite filter_cons, decide_True.
Qed.

End enumerator_order.

(** X1. The choices of a "UE" subject with n slots are, in this order, the n
    tuples with exactly one bit set, the i-th of them with the bit of the
    i-th slot: stepping the enumerator goes through the slots in the order
    of the subject file. *)
Theorem Allocation_init_UE_order (subject : Subject.t) :
  Subject.type subject = UE →
  Allocation.array (Allocation.init subject)
  = (fun i => <[i := true]> (replicate (length (Subject.times subject)) false))
      <$> seq 0 (length (Subject.times subject)).
Proof.
  intros Hty. rewrite Allocation_init_array, Hty. apply filter_sum1.
Qed.

Lemma Allocation_init_UE_order_witness :
  Allocation.array (Allocation.init subj_A)
  = [[true; false; false; false]; [false; true; false; false];
     [false; false; true; false]; [false; false; false; true]].
Proof. exact (Allocation_init_UE_order subj_A eq_refl). Defined.

(** X2. The choices of a "VO" subject with n slots are the tuples of
    [itertools.product([True, False], repeat=n)] in their order with the
    last one, all [False], left out; so with at least one slot the choice
    the search starts from has every bit set. *)
Theorem Allocation_init_VO_order (subject : Subject.t) :
  Subject.type subject = VO →
  let n := length (Subject.times subject) in
  Allocation.array (Allocation.init subject) ++ [replicate n false] = product_bools n ∧
  ((1 ≤ n)%nat → Allocation.get_array (Allocation.init subject) = Some (replicate n true)).
Proof.
  intros Hty n. split.
  - rewrite Allocation_init_array, Hty. apply product_bools_any.
  - intros Hn. unfold Allocation.get_array, Allocation.getitem.
    rewrite Allocation_init_array, Hty. cbn.
    apply filter_head; [apply product_bools_head|].
    destruct n as [|n']; [lia|]. done.
Qed.

Lemma Allocation_init_VO_order_witness :
  Allocation.array (Allocation.init subj_A2) ++ [[false; false]] = product_bools 2 ∧
  Allocation.get_array (Allocation.init subj_A2) = Some [true; true].
Proof.
  destruct (Allocation_init_VO_order subj_A2 eq_refl) as [H1 H2].
  split; [exact H1|]. apply H2. cbn. lia.
Defined.

(** X3. [reverse] undoes [advance] except at the end of the list: below the
    last index the enumerator is back as it was, at the last index [advance]
    only sets the flag and [reverse] then moves the index one down (to 0 at
    least), so the pair leaves the enumerator one choice lower. *)
Theorem advance_then_reverse (a : Allocation.t) :
  in_range a →
  let last := Z.of_nat (length (Allocation.array a)) - 1 in
  (Allocation.index a < last → Allocation.reverse (Allocation.advance a) = a) ∧
  (Allocation.index a = last →
   Allocation.reverse (Allocation.advance a)
   = Allocation.mk (Z.max 0 (Allocation.index a - 1)) true (Allocation.array a)).
Proof.
  intros Hr last. subst last. destruct a as [i f arr].
  unfold in_range, Allocation.advance, Allocation.reverse in *. cbn in *.
  split; intros Hi.
  - destruct (decide (i < Z.of_nat (length arr) - 1)); [|lia]. cbn.
    rewrite decide_True by lia. f_equal. lia.
  - destruct (decide (i < Z.of_nat (length arr) - 1)); [lia|]. cbn.
    case_decide; f_equal; lia.
Qed.

Lemma advance_then_reverse_witness :
  Allocation.reverse (Allocation.advance (Allocation.init subj_B)) = Allocation.init subj_B ∧
  Allocation.reverse (Allocation.advance (do_calls (Allocation.init subj_B) [Advance; Advance]))
  = Allocation.mk 1 true (Allocation.array (Allocation.init subj_B)).
Proof.
  split.
  - apply (advance_then_reverse (Allocation.init subj_B)); vm_compute; [split|]; congruence.
  - apply (advance_then_reverse (do_calls (Allocation.init subj_B) [Advance; Advance]));
      vm_compute; [split|]; congruence.
Defined.

(** ** The week grid *)

Section week_grid.

Lemma elem_of_zrange a b x : x ∈ zrange a b ↔ a ≤ x < b.
Proof.
  unfold zrange. rewrite list_elem_of_fmap. split.
  - intros (i & -> & [? ?]%elem_of_seq). lia.
  - intros Hx. exists (Z.to_nat (x - a)). split; [lia|]. apply elem_of_seq. lia.
Qed.

Lemma elem_of_zrange_step_5 x : x ∈ zrange_step 0 60 5 ↔ 0 ≤ x < 60 ∧ x mod 5 = 0.
Proof.
  unfold zrange_step. rewrite list_elem_of_fmap.
  change (Z.to_nat ((60 - 0 + 5 - 1) / 5)) with 12%nat. split.
  - intros (i & -> & [? ?]%elem_of_seq). split; [lia|].
    rewrite Z.add_0_l, Z.mul_comm. apply Z.mod_mul. lia.
  - intros [Hx H5]. exists (Z.to_nat (x / 5)). split.
    + pose proof (Z.div_mod x 5). lia.
    + apply elem_of_seq. pose proof (Z.div_mod x 5). lia.
Qed.

Lemma blank_schedule_lookup k v :
  blank_schedule !! k = Some v ↔
  v = "" ∧ ∃ day hh mm, k = mk_datetime day hh mm ∧
                        day0 ≤ day < day0 + no_of_days ∧
                        start_of_day ≤ hh < end_of_day ∧ 0 ≤ mm < 60 ∧ mm mod 5 = 0.
Proof.
  unfold blank_schedule, Schedule.empty_schedule.
  set (l := _ ≫= _).
  assert (Hl : ∀ k v, (k, v) ∈ l ↔
            v = "" ∧ ∃ day hh mm, k = mk_datetime day hh mm ∧
                        day0 ≤ day < day0 + no_of_days ∧
                        start_of_day ≤ hh < end_of_day ∧ 0 ≤ mm < 60 ∧ mm mod 5 = 0).
  { intros k' v'. unfold l. rewrite list_elem_of_bind. split.
    - intros (day & (hh & (mm & Hin%list_elem_of_singleton & Hmm%elem_of_zrange_step_5)
                        %list_elem_of_bind & Hhh%elem_of_zrange)
                        %list_elem_of_bind & Hday%elem_of_zrange).
      injection Hin as -> ->. split; [done|]. exists day, hh, mm. tauto.
    - intros (-> & day & hh & mm & -> & Hday & Hhh & Hmm).
      exists day. rewrite elem_of_zrange. split; [|done].
      apply list_elem_of_bind. exists hh. rewrite elem_of_zrange. split; [|done].
      apply list_elem_of_bind. exists mm. rewrite elem_of_zrange_step_5. split; [|done].
      by apply list_elem_of_singleton. }
  split.
  - intros H%elem_of_list_to_map_2. by apply Hl.
  - intros H. pose proof H as [-> _]. apply Hl in H.
    destruct (list_to_map l !! k) as [v'|] eqn:E.
    + by apply elem_of_list_to_map_2, Hl in E as [-> _].
    + apply not_elem_of_list_to_map_2 in E. destruct E.
      apply list_elem_of_fmap. by exists (k, "").
Qed.

Lemma dt_by_index_elem_of k : k ∈ dt_by_index ↔ is_Some (blank_schedule !! k).
Proof.
  unfold dt_by_index. rewrite merge_sort_Permutation, elem_of_elements, elem_of_dom. done.
Qed.

Lemma mk_datetime_inj day hh mm day' hh' mm' :
  0 ≤ hh < 24 → 0 ≤ mm < 60 → 0 ≤ hh' < 24 → 0 ≤ mm' < 60 →
  mk_datetime day hh mm = mk_datetime day' hh' mm' → day = day' ∧ hh = hh' ∧ mm = mm'.
Proof. unfold mk_datetime, day0. lia. Qed.

End week_grid.

(** X4. The cells of [empty_schedule()] are the instants Monday to Friday,
    8:00 to 18:55, in steps of five minutes, each holding the empty string;
    any other instant of the week has no cell, and [dt_by_index] lists
    exactly the instants that have one. *)
Theorem empty_schedule_cells (wd hh mm : Z) :
  0 ≤ wd < 7 → 0 ≤ hh < 24 → 0 ≤ mm < 60 →
  let t := mk_datetime (day0 + wd) hh mm in
  let on_grid := wd < no_of_days ∧ start_of_day ≤ hh < end_of_day ∧ mm mod 5 = 0 in
  (on_grid → blank_schedule !! t = Some "") ∧
  (¬ on_grid → blank_schedule !! t = None) ∧
  (t ∈ dt_by_index ↔ on_grid).
Proof.
  intros Hwd Hhh Hmm t on_grid.
  assert (Hiff : ∀ v, blank_schedule !! t = Some v ↔ v = "" ∧ on_grid).
  { intros v. rewrite blank_schedule_lookup. split.
    - intros (-> & day & hh' & mm' & Heq & Hd & Hh & Hm & H5). split; [done|].
      apply mk_datetime_inj in Heq as (? & <- & <-); [|unfold start_of_day, end_of_day in *; lia..].
      unfold on_grid. lia.
    - intros (-> & Hw & Hh & H5). split; [done|]. exists (day0 + wd), hh, mm.
      split_and!; [done|lia..]. }
  split_and!.
  - intros Hon. by apply Hiff.
  - intros Hoff. destruct (blank_schedule !! t) as [v|] eqn:E; [|done].
    by destruct (proj1 (Hiff v) eq_refl) as [_ ?].
  - rewrite dt_by_index_elem_of. split.
    + intros [v Hv]. by apply Hiff in Hv as [_ ?].
    + intros Hon. exists "". by apply Hiff.
Qed.

Lemma empty_schedule_cells_witness :
  blank_schedule !! mk_datetime (day0 + 0) 8 0 = Some "" ∧
  blank_schedule !! mk_datetime (day0 + 5) 10 0 = None ∧
  blank_schedule !! mk_datetime (day0 + 0) 19 0 = None.
Proof.
  split_and!.
  - apply (empty_schedule_cells 0 8 0); [lia..|]. unfold no_of_days, start_of_day, end_of_day.
    split_and!; [lia..|reflexivity].
  - apply (empty_schedule_cells 5 10 0); [lia..|]. unfold no_of_days. lia.
  - apply (empty_schedule_cells 0 19 0); [lia..|]. unfold end_of_day. lia.
Defined.

(** ** Slots on and off the grid *)

Section off_grid.

Lemma index_None l x : index l x = None ↔ x ∉ l.
Proof.
  split.
  - intros Hn Hin. destruct (index_elem_of _ _ Hin) as [i Hi]. congruence.
  - intros Hnin. destruct (index l x) as [i|] eqn:E; [|done].
    apply index_Some in E. destruct Hnin. by eapply list_elem_of_lookup_2.
Qed.

Lemma slot_range_is_Some sel dtin :
  is_Some (Schedule.slot_range sel dtin) ↔ slot_on_grid dtin sel.
Proof.
  unfold Schedule.slot_range, slot_on_grid. split.
  - intros [ixs H].
    destruct (index dtin sel.1) as [t1|] eqn:E1; [|done].
    destruct (index dtin (sel.2 - 5)) as [t2|] eqn:E2; [|done].
    apply index_Some in E1, E2. split; by eapply list_elem_of_lookup_2.
  - intros [[t1 ->]%index_elem_of [t2 ->]%index_elem_of]. by eexists.
Qed.

Lemma slot_range_lookup sel dtin ixs :
  Schedule.slot_range sel dtin = Some ixs → Forall (fun i => is_Some (dtin !! i)) ixs.
Proof.
  unfold Schedule.slot_range.
  destruct (index dtin sel.1) as [t1|] eqn:E1; [|done].
  destruct (index dtin (sel.2 - 5)) as [t2|] eqn:E2; [|done].
  cbn. intros [= <-]. apply index_Some, lookup_lt_Some in E2.
  apply Forall_forall. intros i [? ?]%elem_of_seq. apply lookup_lt_is_Some. lia.
Qed.

Lemma try_allocate_off_grid dtin table subject sel :
  ¬ slot_on_grid dtin sel → Schedule.try_allocate dtin table subject sel = None.
Proof.
  intros Hoff. unfold Schedule.try_allocate, Schedule.is_free.
  destruct (Schedule.slot_range sel dtin) as [ixs|] eqn:E; [|done].
  destruct Hoff. apply slot_range_is_Some. by eexists.
Qed.

Lemma try_allocate_on_grid dtin table subject sel r :
  Schedule.try_allocate dtin table subject sel = Some r → slot_on_grid dtin sel.
Proof.
  intros H. destruct (decide (slot_on_grid dtin sel)) as [|Hoff]; [done|].
  rewrite try_allocate_off_grid in H by done. done.
Qed.

End off_grid.

(** X5. [is_free] and [fill] raise ([ValueError] from [list.index]) exactly
    when the slot's start, or the instant five minutes before its end, is
    not an instant of the grid; on a table that has a cell for every grid
    instant they return otherwise. *)
Theorem is_free_fill_defined (table : gmap Z string) (subject : Subject.t) (sel : Z * Z)
  (dtin : list Z) :
  Forall (fun k => is_Some (table !! k)) dtin →
  (is_Some (Schedule.is_free table sel dtin) ↔ slot_on_grid dtin sel) ∧
  (is_Some (Schedule.fill table subject sel dtin) ↔ slot_on_grid dtin sel).
Proof.
  intros Hkeys. rewrite <- slot_range_is_Some.
  unfold Schedule.is_free, Schedule.fill.
  destruct (Schedule.slot_range sel dtin) as [ixs|] eqn:E; cbn.
  - pose proof (slot_range_lookup _ _ _ E) as Hix. split; (split; [by eexists|intros _]).
    + destruct (is_free_loop_total table dtin ixs) as (b & -> & _); [|by eexists].
      eapply Forall_impl; [exact Hix|]. intros i [k Hk]. exists k. split; [done|].
      rewrite Forall_forall in Hkeys. eapply Hkeys, list_elem_of_lookup_2, Hk.
    + by apply fill_loop_total.
  - split; (split; intros [? ?]; done).
Qed.

Lemma is_free_fill_defined_witness :
  is_Some (Schedule.is_free blank_schedule (slot 0 8 0 9 0) dt_by_index) ∧
  ¬ is_Some (Schedule.fill blank_schedule subj_Sat (slot 5 10 0 11 0) dt_by_index).
Proof.
  assert (Hkeys : Forall (fun k => is_Some (blank_schedule !! k)) dt_by_index)
    by (apply (bool_decide_unpack _); vm_compute; reflexivity).
  split.
  - apply (is_free_fill_defined blank_schedule subj_Sat (slot 0 8 0 9 0) dt_by_index Hkeys).
    apply (bool_decide_unpack _). vm_compute. reflexivity.
  - intros H.
    apply (is_free_fill_defined blank_schedule subj_Sat (slot 5 10 0 11 0) dt_by_index Hkeys)
      in H.
    revert H. apply (bool_decide_unpack _). vm_compute. reflexivity.
Defined.

Lemma slot_cells_empty dtin sel : snd sel ≤ fst sel → slot_cells dtin sel = [].
Proof.
  intros Hle. unfold slot_cells. induction dtin as [|k l IH]; [done|].
  rewrite filter_cons, decide_False by lia. done.
Qed.

(** X6. A slot on the grid that ends at or before its start covers no cell:
    it is free in every table, filling it writes nothing, and the guarded
    fill marks it allocated and leaves the table as it is. *)
Theorem try_allocate_empty_slot (dtin : list Z) (table : gmap Z string)
  (subject : Subject.t) (sel : Z * Z) :
  grid_ok dtin table → slot_on_grid dtin sel → snd sel ≤ fst sel →
  Schedule.try_allocate dtin table subject sel
  = Some (table, Subject.mark_allocated subject sel).
Proof.
  intros Hg Hon Hle. rewrite try_allocate_refines by done.
  unfold place. rewrite slot_cells_empty by done. done.
Qed.

Lemma try_allocate_empty_slot_witness :
  Schedule.try_allocate dt_by_index blank_schedule subj_C1 (slot 0 10 0 10 0)
  = Some (blank_schedule, Subject.mark_allocated subj_C1 (slot 0 10 0 10 0)).
Proof.
  apply (try_allocate_empty_slot dt_by_index blank_schedule subj_C1 (slot 0 10 0 10 0)).
  - split_and!; apply (bool_decide_unpack _); vm_compute; reflexivity.
  - apply (bool_decide_unpack _). vm_compute. reflexivity.
  - vm_compute. congruence.
Defined.

(** ** The grid a build returns *)

Section placement.

Context (dtin : list Z) (blank : gmap Z string).

Lemma try_allocate_place table subject sel table' subject' :
  grid_ok dtin table →
  Schedule.try_allocate dtin table subject sel = Some (table', subject') →
  slot_on_grid dtin sel ∧ grid_ok dtin table' ∧
  ((table' = table ∧ subject' = subject ∧
    ∃ k v, k ∈ slot_cells dtin sel ∧ table !! k = Some v ∧ v ≠ "") ∨
   ((∀ k, k ∈ slot_cells dtin sel → table !! k = Some "") ∧
    (∀ k, table' !! k = if decide (k ∈ slot_cells dtin sel)
                        then Some (Subject.name subject) else table !! k) ∧
    subject' = Subject.mark_allocated subject sel)).
Proof.
  intros Hg H. pose proof (try_allocate_on_grid _ _ _ _ _ H) as Hon.
  split; [done|].
  rewrite try_allocate_refines in H by done. injection H as <- <-.
  split; [by apply grid_ok_place|].
  unfold place. cbn. destruct (all_empty table (slot_cells dtin sel)) eqn:Hae; cbn.
  - right. split_and!.
    + by apply all_empty_true.
    + intros k. apply write_name_lookup.
    + done.
  - left. rewrite with_allocated_id. split_and!; [done..|].
    unfold all_empty in Hae. apply not_true_iff_false in Hae.
    rewrite forallb_forall in Hae.
    destruct (decide (Exists (fun k => table !! k ≠ Some "") (slot_cells dtin sel)))
      as [Hex|Hnex].
    + apply Exists_exists in Hex as (k & Hk & Hne). destruct Hg as (_ & _ & Hkeys).
      rewrite Forall_forall in Hkeys. destruct (Hkeys k) as [v Hv].
      { unfold slot_cells in Hk. by apply list_elem_of_filter in Hk as [_ ?]. }
      exists k, v. split_and!; [done..|]. congruence.
    + destruct Hae. intros k Hk%list_elem_of_In. apply bool_decide_eq_true.
      destruct (decide (table !! k = Some "")) as [|Hne]; [done|].
      destruct Hnex. apply Exists_exists. eauto.
Qed.

Lemma placement_try_allocate pre s post table sel table' s' :
  placement dtin blank table (pre ++ s :: post) →
  Schedule.try_allocate dtin table s sel = Some (table', s') →
  placement dtin blank table' (pre ++ s' :: post).
Proof.
  intros (Hg & Hnames & Hons & Hdrawn & Hdisj & Hacc) H.
  destruct (try_allocate_place _ _ _ _ _ Hg H)
    as (Hon & Hg' & [(-> & -> & _)|(Hempty & Hnew & ->)]).
  { done. }
  assert (Hname : Subject.name s ≠ "").
  { rewrite Forall_app, Forall_cons in Hnames. tauto. }
  assert (Hlook : ∀ j x, (pre ++ Subject.mark_allocated s sel :: post) !! j = Some x →
            ∃ x0, (pre ++ s :: post) !! j = Some x0 ∧ Subject.name x = Subject.name x0 ∧
                  ((j = length pre ∧ x0 = s ∧ x = Subject.mark_allocated s sel) ∨
                   (j ≠ length pre ∧ x = x0))).
  { intros j x Hj. destruct (decide (j = length pre)) as [->|Hne].
    - rewrite list_lookup_middle in Hj by done. injection Hj as <-.
      exists s. rewrite list_lookup_middle by done. split_and!; [done..|]. by left.
    - exists x. split_and!; [|done|by right].
      destruct (decide (j < length pre)%nat).
      + rewrite lookup_app_l in Hj |- * by done. done.
      + rewrite lookup_app_r in Hj |- * by lia.
        destruct (j - length pre)%nat as [|m] eqn:Em; [lia|]. done. }
  assert (Hold : ∀ j x0 sel0 k, (pre ++ s :: post) !! j = Some x0 →
            sel0 ∈ Subject.allocated_times x0 → k ∈ slot_cells dtin sel0 →
            k ∉ slot_cells dtin sel).
  { intros j x0 sel0 k Hj Hsel0 Hk Hk'.
    pose proof (Hdrawn _ _ _ _ Hj Hsel0 Hk) as Hv. rewrite (Hempty k Hk') in Hv.
    rewrite Forall_forall in Hnames.
    apply (Hnames x0); [by eapply list_elem_of_lookup_2|congruence]. }
  split_and!.
  - done.
  - rewrite Forall_app, Forall_cons in Hnames |- *. tauto.
  - rewrite Forall_app, Forall_cons in Hons |- *. destruct Hons as (? & ? & ?).
    split_and!; [done| |done]. cbn. intros x [->%elem_of_singleton|?]%elem_of_union; auto.
  - intros j x sel0 k Hj Hsel0 Hk. rewrite Hnew.
    destruct (Hlook j x Hj) as (x0 & Hj0 & Hn & [(-> & -> & ->)|(Hne & ->)]).
    + cbn in Hsel0. apply elem_of_union in Hsel0 as [->%elem_of_singleton|Hsel0].
      * by rewrite decide_True.
      * case_decide; [done|]. exact (Hdrawn _ _ _ _ Hj0 Hsel0 Hk).
    + case_decide as Hin.
      * destruct (Hold _ _ _ _ Hj0 Hsel0 Hk Hin).
      * exact (Hdrawn _ _ _ _ Hj0 Hsel0 Hk).
  - intros j1 x1 sel1 j2 x2 sel2 k Hj1 Hs1 Hk1 Hj2 Hs2 Hk2.
    destruct (Hlook j1 x1 Hj1) as (y1 & Hy1 & _ & C1).
    destruct (Hlook j2 x2 Hj2) as (y2 & Hy2 & _ & C2).
    assert (N1 : sel1 ∈ Subject.allocated_times y1 ∨ (j1 = length pre ∧ sel1 = sel)).
    { destruct C1 as [(-> & -> & ->)|(_ & ->)]; [|by left].
      cbn in Hs1. apply elem_of_union in Hs1 as [->%elem_of_singleton|?]; [by right|by left]. }
    assert (N2 : sel2 ∈ Subject.allocated_times y2 ∨ (j2 = length pre ∧ sel2 = sel)).
    { destruct C2 as [(-> & -> & ->)|(_ & ->)]; [|by left].
      cbn in Hs2. apply elem_of_union in Hs2 as [->%elem_of_singleton|?]; [by right|by left]. }
    destruct N1 as [O1|[-> ->]], N2 as [O2|[-> ->]].
    + by eapply Hdisj.
    + destruct (Hold _ _ _ _ Hy1 O1 Hk1 Hk2).
    + destruct (Hold _ _ _ _ Hy2 O2 Hk2 Hk1).
    + done.
  - intros k n Hk Hn. rewrite Hnew in Hk. case_decide as Hin.
    + injection Hk as <-. right. exists (length pre), (Subject.mark_allocated s sel), sel.
      rewrite list_lookup_middle by done. split_and!; [done..| |done]. cbn. set_solver.
    + destruct (Hacc k n Hk Hn) as [?|(j & x0 & sel0 & Hj & Hnm & Hs0 & Hk0)]; [by left|].
      right. destruct (decide (j = length pre)) as [->|Hne].
      * rewrite list_lookup_middle in Hj by done. injection Hj as <-.
        exists (length pre), (Subject.mark_allocated s sel), sel0.
        rewrite list_lookup_middle by done. split_and!; [done..| |done]. cbn. set_solver.
      * exists j, x0, sel0. split_and!; [|done..].
        destruct (decide (j < length pre)%nat).
        -- rewrite lookup_app_l in Hj |- * by done. done.
        -- rewrite lookup_app_r in Hj |- * by lia.
           destruct (j - length pre)%nat as [|m] eqn:Em; [lia|]. done.
Qed.

Lemma placement_phase1_slots a ixs pre s post table table' s' :
  placement dtin blank table (pre ++ s :: post) →
  Schedule.phase1_slots dtin a ixs table s = Some (table', s') →
  placement dtin blank table' (pre ++ s' :: post).
Proof.
  revert table s. induction ixs as [|i ixs IH]; intros table s HI; cbn.
  - by intros [= <- <-].
  - destruct (Allocation.enables_timeslot a) as [bits|]; [|done]. cbn.
    destruct (bits !! i) as [b|]; [|done]. cbn. intros H.
    assert (∃ t1 s1, (if b then
               Subject.times s !! i ≫= Schedule.try_allocate dtin table s
             else Some (table, s)) = Some (t1, s1) ∧
            Schedule.phase1_slots dtin a ixs t1 s1 = Some (table', s'))
      as (t1 & s1 & H1 & H2).
    { destruct (if b then _ else _) as [[t1 s1]|]; [|done]. eauto. }
    apply (IH t1 s1); [|done].
    destruct b; [|by injection H1 as <- <-].
    destruct (Subject.times s !! i) as [sel|]; [|done].
    by eapply placement_try_allocate.
Qed.

Lemma placement_phase2_slots ts pre s post table table' s' :
  placement dtin blank table (pre ++ s :: post) →
  Schedule.phase2_slots dtin ts table s = Some (table', s') →
  placement dtin blank table' (pre ++ s' :: post).
Proof.
  revert table s. induction ts as [|sel ts IH]; intros table s HI; cbn.
  - by intros [= <- <-].
  - intros H.
    assert (∃ t1 s1, (if decide (sel ∈ Subject.allocated_times s)
                      then Some (table, s)
                      else Schedule.try_allocate dtin table s sel) = Some (t1, s1) ∧
            Schedule.phase2_slots dtin ts t1 s1 = Some (table', s'))
      as (t1 & s1 & H1 & H2).
    { destruct (if decide _ then _ else _) as [[t1 s1]|]; [|done]. eauto. }
    apply (IH t1 s1); [|done].
    case_decide; [by injection H1 as <- <-|].
    by eapply placement_try_allocate.
Qed.

Lemma for_subjects_inv (I : gmap Z string → list Subject.t → Prop) body :
  (∀ pre s post j t t' s',
     I t (pre ++ s :: post) → body j t s = Some (t', s') → I t' (pre ++ s' :: post)) →
  ∀ subjects pre j t t' subjects',
    I t (pre ++ subjects) →
    Schedule.for_subjects body j subjects t = Some (t', subjects') →
    I t' (pre ++ subjects').
Proof.
  intros Hbody subjects. induction subjects as [|s ss IH]; intros pre j t t' subjects' HI; cbn.
  - by intros [= <- <-].
  - destruct (body j t s) as [[t1 s1]|] eqn:Hb; [|done]. cbn.
    destruct (Schedule.for_subjects body (S j) ss t1) as [[t2 ss2]|] eqn:Hr; [|done]. cbn.
    intros [= <- <-].
    specialize (IH (pre ++ [s1]) (S j) t1 t2 ss2).
    rewrite <- !app_assoc in IH. cbn in IH. apply IH; [|done].
    by eapply Hbody.
Qed.

Lemma placement_allocate subjects alloc_by_subj table0 table placed :
  placement dtin blank table0 subjects →
  Schedule.allocate subjects alloc_by_subj table0 dtin = Some (table, placed) →
  placement dtin blank table placed.
Proof.
  intros HI (table1 & subjects1 & H1 & H2)%allocate_unfold.
  assert (H1' : placement dtin blank table1 subjects1).
  { refine (for_subjects_inv (placement dtin blank) _ _ subjects [] 0%nat table0 _ _ HI H1).
    intros pre s post j t t' s' HIt. unfold Schedule.phase1_subject.
    destruct (alloc_by_subj !! j); [|done]. cbn. by apply placement_phase1_slots. }
  refine (for_subjects_inv (placement dtin blank) _ _ subjects1 [] 0%nat table1 _ _ H1' H2).
  intros pre s post j t t' s' HIt. unfold Schedule.phase2_subject.
  destruct (Subject.type s); [by intros [= <- <-]|]. by apply placement_phase2_slots.
Qed.

Lemma placement_initial subjects :
  grid_ok dtin blank →
  Forall Subject.fresh subjects → Forall (fun s => Subject.name s ≠ "") subjects →
  placement dtin blank blank subjects.
Proof.
  intros Hg Hfresh Hnames. rewrite Forall_forall in Hfresh.
  assert (Hno : ∀ j s sel, subjects !! j = Some s → sel ∉ Subject.allocated_times s).
  { intros j s sel Hj. rewrite (Hfresh s) by (by eapply list_elem_of_lookup_2). set_solver. }
  split_and!; [done|done| | | |].
  - apply Forall_forall. intros s Hs sel. rewrite (Hfresh s Hs). set_solver.
  - intros j s sel k Hj Hsel. by destruct (Hno j s sel).
  - intros j1 s1 sel1 j2 s2 sel2 k Hj1 Hs1. by destruct (Hno j1 s1 sel1).
  - intros k n Hk Hn. by left.
Qed.

End placement.

Lemma allocate_records subjects alloc_by_subj table dtin table' placed :
  Schedule.allocate subjects alloc_by_subj table dtin = Some (table', placed) →
  Forall2 subject_step subjects placed.
Proof.
  intros (table1 & subjects1 & H1 & H2)%allocate_unfold.
  destruct (phase1_step _ _ _ _ _ _ _ H1) as [_ S1].
  destruct (phase2_step _ _ _ _ _ _ H2) as [_ S2]. by etrans.
Qed.

(** X7. A build never double-books.  On a well-formed grid, for records as
    loaded and subjects with non-empty names, when the two filling loops
    are done every cell of every slot marked allocated holds the name of
    the subject it was allocated to, and two allocated slots that share a
    cell are the same slot of the same subject. *)
Theorem allocate_no_conflict (subjects : list Subject.t) (alloc_by_subj : list Allocation.t)
  (blank : gmap Z string) (dtin : list Z) (table : gmap Z string) (placed : list Subject.t) :
  grid_ok dtin blank →
  Forall Subject.fresh subjects → Forall (fun s => Subject.name s ≠ "") subjects →
  Schedule.allocate subjects alloc_by_subj blank dtin = Some (table, placed) →
  (∀ j s sel k, placed !! j = Some s → sel ∈ Subject.allocated_times s →
                k ∈ slot_cells dtin sel → table !! k = Some (Subject.name s)) ∧
  (∀ j1 s1 sel1 j2 s2 sel2 k,
     placed !! j1 = Some s1 → sel1 ∈ Subject.allocated_times s1 → k ∈ slot_cells dtin sel1 →
     placed !! j2 = Some s2 → sel2 ∈ Subject.allocated_times s2 → k ∈ slot_cells dtin sel2 →
     j1 = j2 ∧ sel1 = sel2).
Proof.
  intros Hg Hfresh Hnames Ha.
  pose proof (placement_initial dtin blank subjects Hg Hfresh Hnames) as HI.
  destruct (placement_allocate dtin blank _ _ _ _ _ HI Ha) as (_ & _ & _ & Hdrawn & Hdisj & _).
  split; [exact Hdrawn | exact Hdisj].
Qed.

Lemma allocate_no_conflict_witness :
  ∃ table placed,
    Schedule.allocate subjects_CAB allocs_CAB blank_schedule dt_by_index = Some (table, placed) ∧
    ∀ j s sel k, placed !! j = Some s → sel ∈ Subject.allocated_times s →
                 k ∈ slot_cells dt_by_index sel → table !! k = Some (Subject.name s).
Proof.
  assert (Hret : returned (Schedule.allocate subjects_CAB allocs_CAB
                             blank_schedule dt_by_index) = true)
    by (vm_compute; reflexivity).
  destruct (Schedule.allocate subjects_CAB allocs_CAB blank_schedule dt_by_index)
    as [[table placed]|] eqn:E; [|discriminate Hret].
  exists table, placed. split; [reflexivity|].
  refine (proj1 (allocate_no_conflict subjects_CAB allocs_CAB blank_schedule dt_by_index
                   table placed grid_ok_blank _ _ E)).
  - repeat constructor.
  - repeat constructor; discriminate.
Defined.

(** X8. Nothing is written but allocated slots.  Under the same conditions
    every cell of the returned grid that holds a name either held it in the
    blank grid already or lies in a slot marked allocated for a subject of
    that name. *)
Theorem allocate_cells_accounted (subjects : list Subject.t) (alloc_by_subj : list Allocation.t)
  (blank : gmap Z string) (dtin : list Z) (table : gmap Z string) (placed : list Subject.t) :
  grid_ok dtin blank →
  Forall Subject.fresh subjects → Forall (fun s => Subject.name s ≠ "") subjects →
  Schedule.allocate subjects alloc_by_subj blank dtin = Some (table, placed) →
  ∀ k n, table !! k = Some n → n ≠ "" →
         blank !! k = Some n ∨
         ∃ j s sel, placed !! j = Some s ∧ Subject.name s = n ∧
                    sel ∈ Subject.allocated_times s ∧ k ∈ slot_cells dtin sel.
Proof.
  intros Hg Hfresh Hnames Ha.
  pose proof (placement_initial dtin blank subjects Hg Hfresh Hnames) as HI.
  destruct (placement_allocate dtin blank _ _ _ _ _ HI Ha) as (_ & _ & _ & _ & _ & Hacc).
  exact Hacc.
Qed.

Lemma allocate_cells_accounted_witness :
  ∃ table placed,
    Schedule.allocate subjects_CAB allocs_CAB blank_schedule dt_by_index = Some (table, placed) ∧
    ∀ k n, table !! k = Some n → n ≠ "" →
           blank_schedule !! k = Some n ∨
           ∃ j s sel, placed !! j = Some s ∧ Subject.name s = n ∧
                      sel ∈ Subject.allocated_times s ∧ k ∈ slot_cells dt_by_index sel.
Proof.
  assert (Hret : returned (Schedule.allocate subjects_CAB allocs_CAB
                             blank_schedule dt_by_index) = true)
    by (vm_compute; reflexivity).
  destruct (Schedule.allocate subjects_CAB allocs_CAB blank_schedule dt_by_index)
    as [[table placed]|] eqn:E; [|discriminate Hret].
  exists table, placed. split; [reflexivity|].
  refine (allocate_cells_accounted subjects_CAB allocs_CAB blank_schedule dt_by_index
            table placed grid_ok_blank _ _ E).
  - repeat constructor.
  - repeat constructor; discriminate.
Defined.

(** ** What a build does for one subject *)

Section per_subject.

Context (dtin : list Z).

Lemma for_subjects_at (P : gmap Z string → Prop) (R : relation (gmap Z string)) body :
  (∀ t, R t t) → (∀ t1 t2 t3, R t1 t2 → R t2 t3 → R t1 t3) →
  (∀ j t s t' s', P t → body j t s = Some (t', s') → P t' ∧ R t t') →
  ∀ subjects j0 t t' subjects',
    P t → Schedule.for_subjects body j0 subjects t = Some (t', subjects') →
    P t' ∧ R t t' ∧
    ∀ i s', subjects' !! i = Some s' →
      ∃ s ti ti', subjects !! i = Some s ∧ P ti ∧
                  body (j0 + i)%nat ti s = Some (ti', s') ∧ R ti' t'.
Proof.
  intros Hrefl Htrans Hbody subjects.
  induction subjects as [|s ss IH]; intros j0 t t' subjects' HP; cbn.
  - intros [= <- <-]. split_and!; [done..|]. intros i s' Hi. done.
  - destruct (body j0 t s) as [[t1 s1]|] eqn:Hb; [|done]. cbn.
    destruct (Schedule.for_subjects body (S j0) ss t1) as [[t2 ss2]|] eqn:Hr; [|done]. cbn.
    intros [= <- <-].
    destruct (Hbody _ _ _ _ _ HP Hb) as [HP1 HR1].
    destruct (IH _ _ _ _ HP1 Hr) as (HP2 & HR2 & Hat).
    split_and!; [done|by eapply Htrans|].
    intros [|i] s' Hi; cbn in Hi.
    + injection Hi as <-. exists s, t, t1. rewrite Nat.add_0_r. done.
    + destruct (Hat i s' Hi) as (s0 & ti & ti' & Hs0 & HPi & Hbi & HRi).
      exists s0, ti, ti'. replace (j0 + S i)%nat with (S j0 + i)%nat by lia. done.
Qed.

Lemma for_subjects_None body j0 subjects t i s :
  subjects !! i = Some s → (∀ ti, body (j0 + i)%nat ti s = None) →
  Schedule.for_subjects body j0 subjects t = None.
Proof.
  revert j0 t i. induction subjects as [|s0 ss IH]; intros j0 t i Hi Hnone; [done|].
  cbn. destruct i as [|i]; cbn in Hi.
  - injection Hi as ->. specialize (Hnone t). rewrite Nat.add_0_r in Hnone.
    by rewrite Hnone.
  - destruct (body j0 t s0) as [[t1 s1]|]; [|done]. cbn.
    rewrite (IH (S j0) t1 i); [done..|].
    intros ti. replace (S j0 + i)%nat with (j0 + S i)%nat by lia. apply Hnone.
Qed.

(** One guarded fill, seen from the subject record. *)
Lemma try_allocate_record table s sel table' s' :
  Schedule.try_allocate dtin table s sel = Some (table', s') →
  same_subject s s' ∧
  (Subject.allocated_times s' = Subject.allocated_times s ∨
   (Subject.allocated_times s' = {[sel]} ∪ Subject.allocated_times s ∧ slot_on_grid dtin sel)).
Proof.
  intros H. pose proof (try_allocate_on_grid _ _ _ _ _ H) as Hon.
  apply try_allocate_cases in H as [(_ & -> & ->)|(_ & _ & ->)].
  - split; [done|by left].
  - split; [done|right]. done.
Qed.

(** What the first loop may add to a record: slots whose bit is set. *)
Lemma phase1_slots_allocated a ixs table s table' s' :
  Schedule.phase1_slots dtin a ixs table s = Some (table', s') →
  same_subject s s' ∧
  ∀ sel, sel ∈ Subject.allocated_times s' →
         sel ∈ Subject.allocated_times s ∨
         (slot_on_grid dtin sel ∧
          ∃ bits i, Allocation.enables_timeslot a = Some bits ∧ i ∈ ixs ∧
                    bits !! i = Some true ∧ Subject.times s !! i = Some sel).
Proof.
  revert table s. induction ixs as [|i ixs IH]; intros table s; cbn.
  - intros [= <- <-]. split; [done|]. intros sel ?. by left.
  - destruct (Allocation.enables_timeslot a) as [bits|] eqn:Ha; [|done]. cbn.
    destruct (bits !! i) as [b|] eqn:Hb; [|done]. cbn. intros H.
    assert (∃ t1 s1, (if b then
               Subject.times s !! i ≫= Schedule.try_allocate dtin table s
             else Some (table, s)) = Some (t1, s1) ∧
            Schedule.phase1_slots dtin a ixs t1 s1 = Some (table', s'))
      as (t1 & s1 & H1 & H2).
    { destruct (if b then _ else _) as [[t1 s1]|]; [|done]. eauto. }
    clear H. destruct (IH _ _ H2) as [Hsame Hall]. clear IH.
    assert (Hstep : same_subject s s1 ∧
              ∀ sel, sel ∈ Subject.allocated_times s1 →
                     sel ∈ Subject.allocated_times s ∨
                     (slot_on_grid dtin sel ∧ b = true ∧ Subject.times s !! i = Some sel)).
    { destruct b; [|injection H1 as <- <-; split; [done|by left]].
      destruct (Subject.times s !! i) as [sel0|] eqn:Hsel0; [|done]. cbn in H1.
      apply try_allocate_record in H1 as [Hs [->|[-> Hon]]]; (split; [done|]).
      - by left.
      - intros sel [->%elem_of_singleton|?]%elem_of_union; [by right|by left]. }
    destruct Hstep as [Hs1 Hadd]. split.
    { destruct Hs1 as (?&?&?), Hsame as (?&?&?). split_and!; congruence. }
    intros sel Hsel. destruct (Hall sel Hsel) as [Hin|(Hon & bits' & i' & Hb' & Hi' & Hbit & Ht)].
    + destruct (Hadd sel Hin) as [?|(Hon & -> & Ht)]; [by left|].
      right. split; [done|]. exists bits, i. split_and!; [done|by left|done..].
    + right. split; [done|]. exists bits', i'. split_and!; [done|by right|done|].
      destruct Hs1 as (_ & -> & _). done.
Qed.

Lemma phase2_slots_allocated ts table s table' s' :
  Schedule.phase2_slots dtin ts table s = Some (table', s') →
  same_subject s s' ∧
  ∀ sel, sel ∈ Subject.allocated_times s' →
         sel ∈ Subject.allocated_times s ∨ (slot_on_grid dtin sel ∧ sel ∈ ts).
Proof.
  revert table s. induction ts as [|sel0 ts IH]; intros table s; cbn.
  - intros [= <- <-]. split; [done|]. intros sel ?. by left.
  - intros H.
    assert (∃ t1 s1, (if decide (sel0 ∈ Subject.allocated_times s)
                      then Some (table, s)
                      else Schedule.try_allocate dtin table s sel0) = Some (t1, s1) ∧
            Schedule.phase2_slots dtin ts t1 s1 = Some (table', s'))
      as (t1 & s1 & H1 & H2).
    { destruct (if decide _ then _ else _) as [[t1 s1]|]; [|done]. eauto. }
    clear H. destruct (IH _ _ H2) as [Hsame Hall]. clear IH.
    assert (Hstep : same_subject s s1 ∧
              ∀ sel, sel ∈ Subject.allocated_times s1 →
                     sel ∈ Subject.allocated_times s ∨ (slot_on_grid dtin sel ∧ sel = sel0)).
    { case_decide; [injection H1 as <- <-; split; [done|by left]|].
      apply try_allocate_record in H1 as [Hs [->|[-> Hon]]]; (split; [done|]).
      - by left.
      - intros sel [->%elem_of_singleton|?]%elem_of_union; [by right|by left]. }
    destruct Hstep as [Hs1 Hadd]. split.
    { destruct Hs1 as (?&?&?), Hsame as (?&?&?). split_and!; congruence. }
    intros sel Hsel. destruct (Hall sel Hsel) as [Hin|(Hon & Hin)].
    + destruct (Hadd sel Hin) as [?|(Hon & ->)]; [by left|]. right. split; [done|by left].
    + right. split; [done|by right].
Qed.

Lemma sum_one_unique bits i i' :
  sum bits = 1 → bits !! i = Some true → bits !! i' = Some true → i = i'.
Proof.
  revert i i'. induction bits as [|b bits IH]; intros i i'; [done|].
  rewrite sum_cons. pose proof (sum_nonneg bits) as Hnn. intros Hsum Hi Hi'.
  assert (Hzero : sum bits = 0 → ∀ m, bits !! m ≠ Some true).
  { clear. induction bits as [|b bits IH]; intros Hs m; [done|].
    rewrite sum_cons in Hs. pose proof (sum_nonneg bits).
    destruct b; [lia|]. destruct m as [|m]; [done|]. cbn. apply IH. lia. }
  destruct b.
  - destruct i as [|i]; [|by destruct (Hzero ltac:(lia) i)].
    destruct i' as [|i']; [done|by destruct (Hzero ltac:(lia) i')].
  - destruct i as [|i]; [done|]. destruct i' as [|i']; [done|].
    f_equal. apply IH; [lia|done..].
Qed.

Lemma phase1_slots_grid_ok a ixs table s table' s' :
  grid_ok dtin table →
  Schedule.phase1_slots dtin a ixs table s = Some (table', s') → grid_ok dtin table'.
Proof.
  revert table s. induction ixs as [|i ixs IH]; intros table s Hg; cbn.
  - by intros [= <- <-].
  - destruct (Allocation.enables_timeslot a) as [bits|]; [|done]. cbn.
    destruct (bits !! i) as [b|]; [|done]. cbn. intros H.
    assert (∃ t1 s1, (if b then
               Subject.times s !! i ≫= Schedule.try_allocate dtin table s
             else Some (table, s)) = Some (t1, s1) ∧
            Schedule.phase1_slots dtin a ixs t1 s1 = Some (table', s'))
      as (t1 & s1 & H1 & H2).
    { destruct (if b then _ else _) as [[t1 s1]|]; [|done]. eauto. }
    apply (IH t1 s1); [|done].
    destruct b; [|by injection H1 as <- <-].
    destruct (Subject.times s !! i) as [sel|]; [|done].
    by apply try_allocate_place in H1 as (_ & ? & _).
Qed.

(** Second loop, one subject: a slot that ends up not allocated has a cell
    that is taken. *)
Lemma phase2_slots_maximal ts table s table' s' :
  grid_ok dtin table →
  Schedule.phase2_slots dtin ts table s = Some (table', s') →
  grid_ok dtin table' ∧
  ∀ sel, sel ∈ ts →
         sel ∈ Subject.allocated_times s' ∨
         ∃ k v, k ∈ slot_cells dtin sel ∧ table' !! k = Some v ∧ v ≠ "".
Proof.
  revert table s. induction ts as [|sel0 ts IH]; intros table s Hg; cbn.
  - intros [= <- <-]. split; [done|]. intros sel Hsel. by apply elem_of_nil in Hsel.
  - intros H.
    assert (∃ t1 s1, (if decide (sel0 ∈ Subject.allocated_times s)
                      then Some (table, s)
                      else Schedule.try_allocate dtin table s sel0) = Some (t1, s1) ∧
            Schedule.phase2_slots dtin ts t1 s1 = Some (table', s'))
      as (t1 & s1 & H1 & H2).
    { destruct (if decide _ then _ else _) as [[t1 s1]|]; [|done]. eauto. }
    clear H.
    assert (Hhead : grid_ok dtin t1 ∧
              (sel0 ∈ Subject.allocated_times s1 ∨
               ∃ k v, k ∈ slot_cells dtin sel0 ∧ t1 !! k = Some v ∧ v ≠ "")).
    { case_decide as Hin; [injection H1 as <- <-; split; [done|by left]|].
      destruct (try_allocate_place _ _ _ _ _ _ Hg H1)
        as (_ & Hg1 & [(-> & -> & Hcell)|(_ & _ & ->)]); (split; [done|]).
      - by right.
      - left. cbn. set_solver. }
    destruct Hhead as [Hg1 Hhead].
    destruct (IH _ _ Hg1 H2) as [Hg' Htail]. split; [done|].
    destruct (phase2_slots_step _ _ _ _ _ _ H2) as [[Hkept _] [_ Hsub]].
    intros sel [->|Hsel]%elem_of_cons; [|by apply Htail].
    destruct Hhead as [Hin|(k & v & Hk & Hv & Hne)]; [left; by apply Hsub|].
    right. exists k, v. split_and!; [done| |done]. by apply Hkept.
Qed.

End per_subject.

#[global] Instance cells_kept_refl : Reflexive cells_kept.
Proof. by intros t k v. Qed.

(** X9. A "UE" subject gets at most one slot.  When its choice has exactly
    one bit set, as every choice of its enumerator has, the filling loops
    mark at most one slot allocated for it, and only a slot whose bit is
    set. *)
Theorem allocate_UE_one_slot (subjects : list Subject.t) (alloc_by_subj : list Allocation.t)
  (table : gmap Z string) (dtin : list Z) (table' : gmap Z string) (placed : list Subject.t)
  (j : nat) (s' : Subject.t) (a : Allocation.t) (bits : list bool) :
  Forall Subject.fresh subjects →
  Schedule.allocate subjects alloc_by_subj table dtin = Some (table', placed) →
  placed !! j = Some s' → Subject.type s' = UE →
  alloc_by_subj !! j = Some a → Allocation.get_array a = Some bits → sum bits = 1 →
  (size (Subject.allocated_times s') ≤ 1)%nat ∧
  ∀ sel, sel ∈ Subject.allocated_times s' →
         ∃ i, bits !! i = Some true ∧ Subject.times s' !! i = Some sel.
Proof.
  intros Hfresh (table1 & subjects1 & H1 & H2)%allocate_unfold Hj Hty Ha Hbits Hsum.
  destruct (for_subjects_at (fun _ => True) (fun _ _ => True) (Schedule.phase2_subject dtin)
              (fun _ => I) (fun _ _ _ _ _ => I) (fun _ _ _ _ _ _ _ => conj I I)
              _ _ _ _ _ I H2) as (_ & _ & Hat2).
  destruct (Hat2 j s' Hj) as (s1 & t2 & t2' & Hj1 & _ & Hb2 & _).
  destruct (for_subjects_at (fun _ => True) (fun _ _ => True)
              (Schedule.phase1_subject dtin alloc_by_subj)
              (fun _ => I) (fun _ _ _ _ _ => I) (fun _ _ _ _ _ _ _ => conj I I)
              _ _ _ _ _ I H1) as (_ & _ & Hat1).
  destruct (Hat1 j s1 Hj1) as (s & t1 & t1' & Hj0 & _ & Hb1 & _).
  assert (Hs : Subject.fresh s).
  { rewrite Forall_forall in Hfresh. by eapply Hfresh, list_elem_of_lookup_2. }
  cbn in Hb1, Hb2. unfold Schedule.phase1_subject in Hb1. rewrite Ha in Hb1. cbn in Hb1.
  apply phase1_slots_allocated in Hb1 as [(Hn1 & Ht1 & Hty1) Hadd].
  unfold Schedule.phase2_subject in Hb2.
  assert (s' = s1) as ->.
  { destruct (Subject.type s1) eqn:E1; [by injection Hb2|].
    apply phase2_slots_allocated in Hb2 as [(_ & _ & Hty2) _]. congruence. }
  assert (Hsel : ∀ sel, sel ∈ Subject.allocated_times s1 →
                        ∃ i, bits !! i = Some true ∧ Subject.times s1 !! i = Some sel).
  { intros sel Hsel. destruct (Hadd sel Hsel) as [Hin|(_ & bits' & i & Hb' & _ & Hbit & Hti)].
    - rewrite Hs in Hin. set_solver.
    - unfold Allocation.enables_timeslot in Hb'. rewrite Hbits in Hb'. injection Hb' as <-.
      exists i. by rewrite <- Ht1. }
  split; [|done].
  destruct (decide (Subject.allocated_times s1 = ∅)) as [->|Hne].
  { rewrite size_empty. lia. }
  apply set_choose_L in Hne as [x Hx].
  assert (Subject.allocated_times s1 ⊆ {[x]}) as Hsub.
  { intros y Hy. apply elem_of_singleton.
    destruct (Hsel x Hx) as (i & Hi & Hxi), (Hsel y Hy) as (i' & Hi' & Hyi).
    assert (i = i') as -> by (by eapply sum_one_unique). congruence. }
  apply subseteq_size in Hsub. by rewrite size_singleton in Hsub.
Qed.

Lemma allocate_UE_one_slot_witness :
  let allocs := [do_calls (Allocation.init subj_A) [Advance; Advance]; Allocation.init subj_B] in
  ∃ table placed s',
    Schedule.allocate subjects_UE allocs blank_schedule dt_by_index = Some (table, placed) ∧
    placed !! 0%nat = Some s' ∧
    length (Subject.times s') = 4%nat ∧
    size (Subject.allocated_times s') = 1%nat ∧
    (size (Subject.allocated_times s') ≤ 1)%nat ∧
    ∀ sel, sel ∈ Subject.allocated_times s' →
           ∃ i, [false; false; true; false] !! i = Some true ∧ Subject.times s' !! i = Some sel.
Proof.
  intros allocs.
  assert (Hc : match Schedule.allocate subjects_UE allocs blank_schedule dt_by_index with
               | Some (_, placed) =>
                   match placed !! 0%nat with
                   | Some s' => bool_decide (length (Subject.times s') = 4%nat ∧
                                             size (Subject.allocated_times s') = 1%nat)
                   | None => false
                   end
               | None => false
               end = true)
    by (vm_compute; reflexivity).
  destruct (Schedule.allocate subjects_UE allocs blank_schedule dt_by_index)
    as [[table placed]|] eqn:E; [|discriminate Hc].
  pose proof (allocate_records _ _ _ _ _ _ E) as Hsteps.
  destruct (Forall2_lookup_l _ _ _ 0%nat subj_A Hsteps eq_refl) as (s' & Hs' & (_ & _ & Hty) & _).
  rewrite Hs' in Hc. apply bool_decide_eq_true in Hc as [Hlen Hsize].
  exists table, placed, s'. split; [reflexivity|]. split; [exact Hs'|].
  split; [exact Hlen|]. split; [exact Hsize|].
  refine (allocate_UE_one_slot subjects_UE allocs blank_schedule dt_by_index
            table placed 0 s' (do_calls (Allocation.init subj_A) [Advance; Advance])
            [false; false; true; false] _ E Hs' _ _ _ _).
  - repeat constructor.
  - symmetry. exact Hty.
  - reflexivity.
  - reflexivity.
  - reflexivity.
Defined.

(** X10. Best effort is maximal.  A slot of a "VO" subject that the filling
    loops leave unallocated has, in the returned grid, at least one cell
    that is taken: no lecture slot is left out that would still fit. *)
Theorem allocate_best_effort_maximal (subjects : list Subject.t)
  (alloc_by_subj : list Allocation.t) (blank : gmap Z string) (dtin : list Z)
  (table : gmap Z string) (placed : list Subject.t) (j : nat) (s : Subject.t) (sel : Z * Z) :
  grid_ok dtin blank →
  Schedule.allocate subjects alloc_by_subj blank dtin = Some (table, placed) →
  placed !! j = Some s → Subject.type s = VO →
  sel ∈ Subject.times s → sel ∉ Subject.allocated_times s →
  ∃ k v, k ∈ slot_cells dtin sel ∧ table !! k = Some v ∧ v ≠ "".
Proof.
  intros Hg (table1 & subjects1 & H1 & H2)%allocate_unfold Hj Hty Hsel Hout.
  assert (Hg1 : grid_ok dtin table1).
  { refine (proj1 (for_subjects_at (grid_ok dtin) (fun _ _ => True)
                     (Schedule.phase1_subject dtin alloc_by_subj)
                     (fun _ => I) (fun _ _ _ _ _ => I) _ _ _ _ _ _ Hg H1)).
    intros j' t s0 t' s0' Hgt. unfold Schedule.phase1_subject.
    destruct (alloc_by_subj !! j'); [|done]. cbn.
    intros ?%phase1_slots_grid_ok; done. }
  assert (Hat : ∀ i s', placed !! i = Some s' →
            ∃ s0 ti ti', subjects1 !! i = Some s0 ∧ grid_ok dtin ti ∧
                         Schedule.phase2_subject dtin (0 + i) ti s0 = Some (ti', s') ∧
                         cells_kept ti' table).
  { refine (proj2 (proj2 (for_subjects_at (grid_ok dtin) cells_kept
                     (Schedule.phase2_subject dtin) _ _ _ _ _ _ _ _ Hg1 H2))).
    - done.
    - intros t1 t2 t3 ? ?. by etrans.
    - intros j' t s0 t' s0' Hgt. unfold Schedule.phase2_subject.
      destruct (Subject.type s0); [by intros [= <- <-]|].
      intros Hp. split; [by eapply phase2_slots_maximal|].
      by apply phase2_slots_step in Hp as [[? _] _]. }
  destruct (Hat j s Hj) as (s1 & ti & ti' & _ & Hgi & Hb & Hkept).
  unfold Schedule.phase2_subject in Hb.
  destruct (Subject.type s1) eqn:Hty1.
  { injection Hb as <- <-. congruence. }
  pose proof (phase2_slots_allocated _ _ _ _ _ _ Hb) as [(_ & Ht & _) _].
  destruct (phase2_slots_maximal _ _ _ _ _ _ Hgi Hb) as [_ Hmax].
  destruct (Hmax sel) as [?|(k & v & Hk & Hv & Hne)]; [by rewrite Ht|done|].
  exists k, v. split_and!; [done| |done]. by apply Hkept.
Qed.

Lemma allocate_best_effort_maximal_witness :
  ∃ table placed,
    Schedule.allocate subjects_CAB allocs_CAB blank_schedule dt_by_index = Some (table, placed) ∧
    ∃ k v, k ∈ slot_cells dt_by_index (slot 0 10 0 11 0) ∧ table !! k = Some v ∧ v ≠ "".
Proof.
  assert (Hret : returned (Schedule.allocate subjects_CAB allocs_CAB
                             blank_schedule dt_by_index) = true)
    by (vm_compute; reflexivity).
  pose (b := match Schedule.allocate subjects_CAB allocs_CAB blank_schedule dt_by_index with
             | Some (_, p) =>
                 match p !! 1%nat with
                 | Some s => bool_decide (slot 0 10 0 11 0 ∈ Subject.allocated_times s)
                 | None => true
                 end
             | None => true
             end).
  assert (Hb : b = false) by (vm_compute; reflexivity).
  destruct (Schedule.allocate subjects_CAB allocs_CAB blank_schedule dt_by_index)
    as [[table placed]|] eqn:E; [|discriminate Hret].
  pose proof (allocate_records _ _ _ _ _ _ E) as Hsteps.
  destruct (Forall2_lookup_l _ _ _ 1%nat subj_A2 Hsteps eq_refl)
    as (s & Hs & (_ & Ht & Hty) & _).
  exists table, placed. split; [reflexivity|].
  refine (allocate_best_effort_maximal subjects_CAB allocs_CAB blank_schedule dt_by_index
            table placed 1 s (slot 0 10 0 11 0) grid_ok_blank E Hs _ _ _).
  - symmetry. exact Hty.
  - rewrite <- Ht. apply (bool_decide_unpack _). vm_compute. reflexivity.
  - unfold b in Hb. rewrite Hs in Hb. by apply bool_decide_eq_false in Hb.
Defined.

(** ** Inputs a build raises on *)

Section raises.

Context (dtin : list Z).

Lemma phase1_slots_off_grid a bits ixs i table s sel :
  Allocation.enables_timeslot a = Some bits →
  i ∈ ixs → bits !! i = Some true → Subject.times s !! i = Some sel →
  ¬ slot_on_grid dtin sel →
  Schedule.phase1_slots dtin a ixs table s = None.
Proof.
  intros Ha Hi Hbit Hsel Hoff. revert table s Hsel.
  induction ixs as [|i0 ixs IH]; intros table s Hsel; [by apply elem_of_nil in Hi|].
  cbn. rewrite Ha. cbn.
  destruct (decide (i0 = i)) as [->|Hne].
  - rewrite Hbit. cbn. rewrite Hsel. cbn. by rewrite try_allocate_off_grid.
  - apply elem_of_cons in Hi as [->|Hi]; [done|].
    destruct (bits !! i0) as [b|]; [|done]. cbn.
    destruct b.
    + destruct (Subject.times s !! i0) as [sel0|]; [|done]. cbn.
      destruct (Schedule.try_allocate dtin table s sel0) as [[t1 s1]|] eqn:E; [|done]. cbn.
      apply IH; [done|].
      apply try_allocate_record in E as [(_ & <- & _) _]. done.
    + cbn. by apply IH.
Qed.

Lemma phase2_slots_off_grid ts table s sel :
  sel ∈ ts → sel ∉ Subject.allocated_times s → ¬ slot_on_grid dtin sel →
  Schedule.phase2_slots dtin ts table s = None.
Proof.
  intros Hin Hout Hoff. revert table s Hout.
  induction ts as [|sel0 ts IH]; intros table s Hout; [by apply elem_of_nil in Hin|].
  cbn. case_decide as Hal.
  - cbn. apply elem_of_cons in Hin as [->|Hin]; [done|]. by apply IH.
  - destruct (Schedule.try_allocate dtin table s sel0) as [[t1 s1]|] eqn:E; [|done]. cbn.
    pose proof (try_allocate_on_grid _ _ _ _ _ E) as Hon.
    apply elem_of_cons in Hin as [->|Hin]; [done|].
    apply IH; [done|].
    apply try_allocate_record in E as [_ [->|[-> _]]]; [done|].
    intros [->%elem_of_singleton|?]%elem_of_union; done.
Qed.

End raises.

Lemma allocate_off_grid subjects alloc_by_subj table dtin j s sel :
  subjects !! j = Some s → Subject.fresh s → ¬ slot_on_grid dtin sel →
  (∃ a bits i, alloc_by_subj !! j = Some a ∧ Allocation.enables_timeslot a = Some bits ∧
               bits !! i = Some true ∧ Subject.times s !! i = Some sel) ∨
  (Subject.type s = VO ∧ sel ∈ Subject.times s) →
  Schedule.allocate subjects alloc_by_subj table dtin = None.
Proof.
  intros Hj Hfresh Hoff Hcase. unfold Schedule.allocate.
  destruct (Schedule.for_subjects (Schedule.phase1_subject dtin alloc_by_subj) 0 subjects table)
    as [[table1 subjects1]|] eqn:H1; [|done].
  cbn. destruct Hcase as [(a & bits & i & Ha & Hbits & Hbit & Hsel)|[Hty Hsel]].
  - rewrite (for_subjects_None _ 0 subjects table j s) in H1; [done..|].
    intros ti. cbn. unfold Schedule.phase1_subject. rewrite Ha. cbn.
    eapply phase1_slots_off_grid; [done| |done..].
    apply elem_of_seq. apply lookup_lt_Some in Hsel. lia.
  - destruct (for_subjects_at (fun _ => True) (fun _ _ => True)
                (Schedule.phase1_subject dtin alloc_by_subj)
                (fun _ => I) (fun _ _ _ _ _ => I) (fun _ _ _ _ _ _ _ => conj I I)
                _ _ _ _ _ I H1) as (_ & _ & Hat1).
    destruct (phase1_step _ _ _ _ _ _ _ H1) as [_ Hsteps].
    destruct (Forall2_lookup_l _ _ _ _ _ Hsteps Hj) as (s1 & Hj1 & _).
    destruct (Hat1 j s1 Hj1) as (s0 & t1 & t1' & Hj0 & _ & Hb1 & _).
    assert (s0 = s) as -> by congruence.
    cbn in Hb1. unfold Schedule.phase1_subject in Hb1.
    destruct (alloc_by_subj !! j) as [a|]; [|done]. cbn in Hb1.
    apply phase1_slots_allocated in Hb1 as [(_ & Ht & Hty1) Hadd].
    apply (for_subjects_None _ 0 subjects1 table1 j s1); [done|].
    intros ti. cbn. unfold Schedule.phase2_subject. rewrite <- Hty1, Hty.
    apply (phase2_slots_off_grid dtin _ _ _ sel); [by rewrite <- Ht| |done].
    intros Hin. destruct (Hadd sel Hin) as [Hin0|[Hon _]]; [|done].
    rewrite Hfresh in Hin0. set_solver.
Qed.

(** X11. A build raises as soon as it tries a slot off the grid: the
    constructor returns nothing when some subject has a slot off the grid
    whose bit is set in the subject's current choice, or when some "VO"
    subject has any slot off the grid. *)
Theorem create_schedule_off_grid (subjects : list Subject.t)
  (alloc_by_subj : list Allocation.t) (table : gmap Z string) (dtin : list Z)
  (j : nat) (s : Subject.t) (sel : Z * Z) :
  subjects !! j = Some s → Subject.fresh s → ¬ slot_on_grid dtin sel →
  (∃ a bits i, alloc_by_subj !! j = Some a ∧ Allocation.enables_timeslot a = Some bits ∧
               bits !! i = Some true ∧ Subject.times s !! i = Some sel) ∨
  (Subject.type s = VO ∧ sel ∈ Subject.times s) →
  Schedule.create_schedule subjects alloc_by_subj table dtin = None.
Proof.
  intros Hj Hfresh Hoff Hcase. unfold Schedule.create_schedule.
  by rewrite (allocate_off_grid _ _ _ _ j s sel).
Qed.

Lemma create_schedule_off_grid_witness :
  Schedule.create_schedule [subj_Sat] [Allocation.init subj_Sat] blank_schedule dt_by_index
  = None.
Proof.
  apply (create_schedule_off_grid [subj_Sat] [Allocation.init subj_Sat] blank_schedule
           dt_by_index 0 subj_Sat (slot 5 10 0 11 0)).
  - reflexivity.
  - reflexivity.
  - apply (bool_decide_unpack _). vm_compute. reflexivity.
  - left. exists (Allocation.init subj_Sat), [true], 0%nat. split_and!; reflexivity.
Defined.

(** ** Inputs the search raises on *)

Section search_raises.

Lemma percolate_S fuel st :
  percolate (S fuel) st =
  match find_reached_end (alloc_by_subj st) with
  | Some k => Done (call_alloc Allocation.reset_end_status k st)
  | None =>
      match mapM Allocation.enables_timeslot (alloc_by_subj st) with
      | None => Raised
      | Some perm_check =>
          if decide (perm_check ∈ permutations st) then Done st
          else
            match Schedule.init (subjects st) (alloc_by_subj st) blank_schedule dt_by_index with
            | None => Raised
            | Some (schedule, subjects') =>
                match submit schedule (saved_schedules st) (duplicates st) with
                | None => Raised
                | Some (saved', dups') =>
                    neighbours (percolate fuel) (seq 0 (length (alloc_by_subj st)))
                      (mk_state subjects' (alloc_by_subj st) ({[perm_check]} ∪ permutations st)
                         saved' dups' (perm_check :: builds st))
                end
            end
      end
  end.
Proof. reflexivity. Qed.

Lemma find_reached_end_initial subjects :
  find_reached_end (Allocation.init <$> subjects) = None.
Proof. induction subjects as [|s ss IH]; [done|]. cbn. by rewrite IH. Qed.

Lemma init_no_slots s :
  Subject.times s = [] → Allocation.enables_timeslot (Allocation.init s) = None.
Proof.
  intros Ht. unfold Allocation.enables_timeslot, Allocation.get_array.
  rewrite Allocation_init_array, Ht. by destruct (Subject.type s).
Qed.

Lemma init_first_choice s bits sel :
  Allocation.enables_timeslot (Allocation.init s) = Some bits →
  Subject.times s !! 0%nat = Some sel → bits !! 0%nat = Some true.
Proof.
  unfold Allocation.enables_timeslot, Allocation.get_array, Allocation.getitem.
  rewrite Allocation_init_array. cbn [Allocation.index Allocation.init].
  rewrite decide_True by done. change (Z.to_nat 0) with 0%nat.
  intros Hb Hsel. apply lookup_lt_Some in Hsel.
  destruct (length (Subject.times s)) as [|n] eqn:Hn; [lia|].
  destruct (Subject.type s).
  - rewrite filter_sum1 in Hb. cbn in Hb. by injection Hb as <-.
  - erewrite filter_head in Hb; [|apply product_bools_head|done].
    by injection Hb as <-.
Qed.

End search_raises.

(** X12. A subject without a single slot makes the search raise at once: its
    enumerator's list is empty, so reading its current choice raises
    [IndexError] before any schedule is built. *)
Theorem percolate_no_slots (ss : list Subject.t) (fuel : nat) :
  Exists (fun s => Subject.times s = []) ss →
  percolate (S fuel) (initial_state ss) = Raised.
Proof.
  intros Hex. rewrite percolate_S. unfold initial_state.
  cbn [alloc_by_subj]. rewrite find_reached_end_initial.
  assert (mapM Allocation.enables_timeslot (Allocation.init <$> ss) = None) as ->; [|done].
  apply mapM_None, Exists_fmap. eapply Exists_impl; [exact Hex|].
  intros s. apply init_no_slots.
Qed.

Lemma percolate_no_slots_witness :
  percolate 1 (initial_state [subj_A; subj_none]) = Raised.
Proof.
  apply (percolate_no_slots [subj_A; subj_none] 0).
  right. left. reflexivity.
Defined.

(** X13. A slot off the grid makes the search raise in its first build, so
    that nothing is saved: this happens when the first slot of some subject
    is off the grid, or any slot of some "VO" subject is. *)
Theorem percolate_off_grid (ss : list Subject.t) (s : Subject.t) (sel : Z * Z)
  (fuel : nat) :
  s ∈ ss → Subject.fresh s → ¬ slot_on_grid dt_by_index sel →
  Subject.times s !! 0%nat = Some sel ∨ (Subject.type s = VO ∧ sel ∈ Subject.times s) →
  percolate (S fuel) (initial_state ss) = Raised.
Proof.
  intros [j Hj]%list_elem_of_lookup_1 Hfresh Hoff Hcase.
  rewrite percolate_S. unfold initial_state.
  cbn [alloc_by_subj permutations subjects saved_schedules duplicates builds].
  rewrite find_reached_end_initial.
  destruct (mapM Allocation.enables_timeslot (Allocation.init <$> ss))
    as [perm_check|] eqn:Hperm; [|done].
  rewrite decide_False by set_solver.
  unfold Schedule.init, Schedule.create_schedule.
  rewrite (allocate_off_grid _ _ _ _ j s sel); [done..|].
  destruct Hcase as [Hfirst|Hvo]; [left|by right].
  apply mapM_Some in Hperm.
  assert (Ha : (Allocation.init <$> ss) !! j = Some (Allocation.init s))
    by (by rewrite list_lookup_fmap, Hj).
  destruct (Forall2_lookup_l _ _ _ _ _ Hperm Ha) as (bits & _ & Hbits).
  exists (Allocation.init s), bits, 0%nat. split_and!; [done..| |done].
  by eapply init_first_choice.
Qed.

Lemma percolate_off_grid_witness :
  percolate 1 (initial_state [subj_A; subj_Sat]) = Raised.
Proof.
  apply (percolate_off_grid [subj_A; subj_Sat] subj_Sat (slot 5 10 0 11 0) 0).
  - right. left.
  - reflexivity.
  - apply (bool_decide_unpack _). vm_compute. reflexivity.
  - left. reflexivity.
Defined.

(** ** What the search keeps count of *)

Section counting.

Lemma neighbours_walk_invariant (I : state → Prop) rec ks st st' :
  (∀ k s, I s → I (call_alloc Allocation.advance k s)) →
  (∀ k s, I s → I (call_alloc Allocation.reverse k s)) →
  (∀ s s', I s → rec s = Done s' → I s') →
  I st → neighbours rec ks st = Done st' → I st'.
Proof.
  intros Hadv Hrev Hrec. revert st. induction ks as [|k ks IH]; intros st Hst; cbn.
  - by intros [= <-].
  - destruct (rec (call_alloc Allocation.advance k st)) as [s1| |] eqn:E; [|done..].
    apply IH. apply Hrev. eapply Hrec; [|done]. by apply Hadv.
Qed.

Lemma tally_call_alloc A f k st :
  (∀ a, Allocation.array (f a) = Allocation.array a) →
  tally A st → tally A (call_alloc f k st).
Proof.
  intros Hf (Ha & ?). split; [|done]. by rewrite call_alloc_arrays.
Qed.

Lemma percolate_tally A fuel st st' :
  percolate fuel st = Done st' → tally A st → tally A st'.
Proof.
  revert st st'. induction fuel as [|fuel IH]; intros st st'; [done|].
  rewrite percolate_S.
  destruct (find_reached_end (alloc_by_subj st)).
  { intros [= <-]. by apply tally_call_alloc. }
  destruct (mapM Allocation.enables_timeslot (alloc_by_subj st)) as [perm_check|] eqn:Hperm;
    [|done].
  case_decide as Hseen; [by intros [= <-]|].
  destruct (Schedule.init _ _ _ _) as [[schedule subjects']|]; [|done].
  destruct (submit schedule (saved_schedules st) (duplicates st)) as [[saved' dups']|] eqn:Hs;
    [|done].
  intros Hn (Ha & Hnd & Hset & Hsig & Hd & Hcount).
  eapply (neighbours_walk_invariant (tally A)); [| | | |exact Hn].
  - intros k s. apply tally_call_alloc, advance_array.
  - intros k s. apply tally_call_alloc, reverse_array.
  - intros s s' Hs' Hp. by eapply IH.
  - split_and!; cbn.
    + done.
    + constructor; [|done]. rewrite <- Hset in Hseen. by rewrite elem_of_list_to_set in Hseen.
    + by rewrite Hset.
    + intros sig [->|?]%elem_of_cons; [|by apply Hsig].
      rewrite <- Ha. by apply perm_check_in_signatures.
    + destruct (submit_cases schedule (saved_schedules st) (duplicates st))
        as [(_ & Hsub)|[(_ & _ & Hsub)|(_ & _ & Hsub)]]; rewrite Hsub in Hs;
        injection Hs as <- <-; lia.
    + destruct (submit_cases schedule (saved_schedules st) (duplicates st))
        as [(_ & Hsub)|[(_ & _ & Hsub)|(_ & _ & Hsub)]]; rewrite Hsub in Hs;
        injection Hs as <- <-; rewrite ?length_app; cbn [length]; lia.
Qed.

Lemma submit_numbered schedule saved dups saved' dups' :
  submit schedule saved dups = Some (saved', dups') → numbered saved → numbered saved'.
Proof.
  destruct (submit_cases schedule saved dups)
    as [(_ & ->)|[(_ & _ & ->)|(Hf & _ & ->)]]; intros [= <- <-]; try done.
  intros Hnum i sch Hi. destruct (decide (i < length saved)%nat).
  - rewrite lookup_app_l in Hi by done. by apply Hnum.
  - rewrite lookup_app_r in Hi by lia.
    destruct (i - length saved)%nat as [|m] eqn:Em; [|done].
    injection Hi as <-. cbn. split; [|done]. do 2 f_equal. lia.
Qed.

Lemma percolate_numbered fuel st st' :
  percolate fuel st = Done st' →
  numbered (saved_schedules st) → numbered (saved_schedules st').
Proof.
  revert st st'. induction fuel as [|fuel IH]; intros st st'; [done|].
  rewrite percolate_S.
  destruct (find_reached_end (alloc_by_subj st)); [by intros [= <-]|].
  destruct (mapM Allocation.enables_timeslot (alloc_by_subj st)) as [perm_check|]; [|done].
  case_decide; [by intros [= <-]|].
  destruct (Schedule.init _ _ _ _) as [[schedule subjects']|]; [|done].
  destruct (submit schedule (saved_schedules st) (duplicates st)) as [[saved' dups']|] eqn:Hs;
    [|done].
  intros Hn Hnum.
  eapply (neighbours_invariant (fun s => numbered (saved_schedules s)));
    [| |  |exact Hn]; cbn.
  - done.
  - intros s s' Hs' Hp. by eapply IH.
  - by eapply submit_numbered.
Qed.

End counting.

(** X14. When the search returns, the builder was called at most once per
    signature and only on signatures of the product, hence at most as often
    as the product of the choice counts; the duplicate counter is not
    negative, and saved schedules and duplicates together are no more than
    the builder calls. *)
Theorem percolate_tallies (ss : list Subject.t) (fuel : nat) (st : state) :
  percolate fuel (initial_state ss) = Done st →
  NoDup (builds st) ∧
  (∀ sig, sig ∈ builds st → sig ∈ signatures (arrays (initial_state ss))) ∧
  (length (builds st) ≤ n_signatures (initial_state ss))%nat ∧
  0 ≤ duplicates st ∧
  Z.of_nat (length (saved_schedules st)) + duplicates st ≤ Z.of_nat (length (builds st)).
Proof.
  intros Hp.
  destruct (percolate_tally (arrays (initial_state ss)) _ _ _ Hp)
    as (_ & Hnd & _ & Hsig & Hd & Hc).
  { split_and!; cbn; [done|constructor|done| |done|done].
    intros sig Hsig. by apply elem_of_nil in Hsig. }
  split_and!; [done..| |done|done].
  unfold n_signatures. rewrite <- signatures_length.
  by apply submseteq_length, NoDup_submseteq.
Qed.

Lemma percolate_tallies_witness :
  ∃ st, percolate 10 (initial_state subjects_CAB) = Done st ∧
        NoDup (builds st) ∧
        (length (builds st) ≤ n_signatures (initial_state subjects_CAB))%nat.
Proof.
  assert (Hdone : is_done (percolate 10 (initial_state subjects_CAB)) = true)
    by (vm_compute; reflexivity).
  destruct (percolate 10 (initial_state subjects_CAB)) as [st| |] eqn:E;
    [|discriminate Hdone..].
  exists st. split; [reflexivity|].
  destruct (percolate_tallies subjects_CAB 10 st E) as (H1 & _ & H3 & _).
  split; [exact H1 | exact H3].
Defined.

(** X15. When the search returns, the saved schedules carry the versions
    1, 2, 3, ... in the order in which they were saved, and none of them is
    failed. *)
Theorem percolate_versions (ss : list Subject.t) (fuel : nat) (st : state) :
  percolate fuel (initial_state ss) = Done st →
  ∀ i schedule, saved_schedules st !! i = Some schedule →
                Schedule.version schedule = Some (Z.of_nat i + 1) ∧
                Schedule.failed schedule = false.
Proof.
  intros Hp. eapply percolate_numbered; [exact Hp|]. intros i schedule Hi. done.
Qed.

Lemma percolate_versions_witness :
  ∃ st, percolate 30 (initial_state subjects_AB) = Done st ∧
        length (saved_schedules st) = 3%nat ∧
        ∀ i schedule, saved_schedules st !! i = Some schedule →
                      Schedule.version schedule = Some (Z.of_nat i + 1) ∧
                      Schedule.failed schedule = false.
Proof.
  assert (Hc : match percolate 30 (initial_state subjects_AB) with
               | Done st => bool_decide (length (saved_schedules st) = 3%nat)
               | _ => false
               end = true)
    by (vm_compute; reflexivity).
  destruct (percolate 30 (initial_state subjects_AB)) as [st| |] eqn:E;
    [|discriminate Hc..].
  exists st. split; [reflexivity|]. split; [exact (bool_decide_eq_true_1 _ Hc)|].
  exact (percolate_versions subjects_AB 30 st E).
Defined.

(** ** File names *)

Section file_names.

Lemma pretty_N_go_no_underscore x s :
  occurs "_" s = false → occurs "_" (pretty_N_go x s) = false.
Proof.
  revert s. induction (N.lt_wf_0 x) as [x _ IH]; intros s Hs.
  assert (x = 0 ∨ 0 < x)%N as [->|?] by lia.
  - by rewrite pretty_N_go_0.
  - rewrite pretty_N_go_step by done. apply IH.
    { by apply N.div_lt. }
    cbn. rewrite Hs. unfold pretty_N_char. by repeat case_match.
Qed.

Lemma pretty_Z_no_underscore (x : Z) : occurs "_" (pretty x) = false.
Proof.
  assert (HN : ∀ n : N, occurs "_" (pretty n) = false).
  { intros n. unfold pretty, pretty_N. case_decide; [done|].
    by apply pretty_N_go_no_underscore. }
  destruct x as [|p|p]; [done|apply HN|]. cbn. apply HN.
Qed.

(** A string free of a character, followed by nothing or by a string that
    starts with that character: the two parts can be read back. *)
Lemma app_split_inj c s1 s2 t1 t2 :
  occurs c s1 = false → occurs c s2 = false →
  (t1 = "" ∨ ∃ r, t1 = String c r) → (t2 = "" ∨ ∃ r, t2 = String c r) →
  s1 +:+ t1 = s2 +:+ t2 → s1 = s2 ∧ t1 = t2.
Proof.
  revert s2. induction s1 as [|a s1 IH]; intros [|b s2]; cbn; intros H1 H2 Ht1 Ht2 Heq.
  - done.
  - exfalso. case_decide as Hb; [done|].
    destruct Ht1 as [->|[r ->]]; by simplify_eq/=.
  - exfalso. case_decide as Ha; [done|].
    destruct Ht2 as [->|[r ->]]; by simplify_eq/=.
  - injection Heq as -> Heq. case_decide; [done|].
    destruct (IH s2 H1 H2 Ht1 Ht2 Heq) as [-> ->]. done.
Qed.

Lemma create_filename_parts schedule1 schedule2 name :
  create_filename schedule1 = Some name → create_filename schedule2 = Some name →
  Schedule.version schedule1 = Schedule.version schedule2 ∧
  Schedule.is_incomplete schedule1 = Schedule.is_incomplete schedule2.
Proof.
  unfold create_filename.
  destruct (Schedule.version schedule1) as [v1|]; [|done].
  destruct (Schedule.version schedule2) as [v2|]; [|done].
  cbn. intros [= <-] [= Heq].
  change ("" +:+ ?x) with x in Heq.
  match goal with
  | H : ?a +:+ ?b = ?c +:+ ?d |- _ =>
      apply (app_split_inj "_" a c b d) in H as [Hv Hc]
  end.
  - apply (inj pretty) in Hv as ->. split; [done|].
    by destruct (Schedule.is_incomplete schedule1), (Schedule.is_incomplete schedule2).
  - apply pretty_Z_no_underscore.
  - apply pretty_Z_no_underscore.
  - destruct (Schedule.is_incomplete schedule2); [right; by eexists|by left].
  - destruct (Schedule.is_incomplete schedule1); [right; by eexists|by left].
Qed.

End file_names.

(** X16. The file name tells the version and the completeness flag: two
    schedules for which [create_filename] returns the same name have the
    same version and the same [is_incomplete]. *)
Theorem create_filename_inj (schedule1 schedule2 : Schedule.t) (name : string) :
  create_filename schedule1 = Some name → create_filename schedule2 = Some name →
  Schedule.version schedule1 = Schedule.version schedule2 ∧
  Schedule.is_incomplete schedule1 = Schedule.is_incomplete schedule2.
Proof. apply create_filename_parts. Qed.

Lemma create_filename_inj_witness :
  let schedule1 := Schedule.mk ∅ true false (Some 12) in
  let schedule2 := Schedule.mk blank_schedule true false (Some 12) in
  create_filename schedule1 = Some "schedule12_INCOMPLETE_" ∧
  Schedule.version schedule1 = Schedule.version schedule2.
Proof.
  split; [vm_compute; reflexivity|].
  apply (create_filename_inj (Schedule.mk ∅ true false (Some 12))
           (Schedule.mk blank_schedule true false (Some 12)) "schedule12_INCOMPLETE_");
    vm_compute; reflexivity.
Defined.

(** X17. When the search returns, [create_filename] returns a name for every
    saved schedule, and no two saved schedules get the same name: no file
    of a run overwrites another. *)
Theorem percolate_filenames (ss : list Subject.t) (fuel : nat) (st : state) :
  percolate fuel (initial_state ss) = Done st →
  ∃ names, mapM create_filename (saved_schedules st) = Some names ∧ NoDup names.
Proof.
  intros Hp.
  assert (Hnum : numbered (saved_schedules st)).
  { eapply percolate_numbered; [exact Hp|]. intros i schedule Hi. done. }
  destruct (mapM create_filename (saved_schedules st)) as [names|] eqn:Hm.
  - exists names. split; [done|]. apply mapM_Some in Hm.
    apply NoDup_alt. intros i j name Hi Hj.
    destruct (Forall2_lookup_r _ _ _ _ _ Hm Hi) as (s1 & Hs1 & Hn1).
    destruct (Forall2_lookup_r _ _ _ _ _ Hm Hj) as (s2 & Hs2 & Hn2).
    destruct (create_filename_parts _ _ _ Hn1 Hn2) as [Hv _].
    destruct (Hnum _ _ Hs1) as [Hv1 _], (Hnum _ _ Hs2) as [Hv2 _].
    rewrite Hv1, Hv2 in Hv. injection Hv. lia.
  - apply mapM_None, Exists_exists in Hm as (schedule & [i Hi]%list_elem_of_lookup_1 & Hnone).
    destruct (Hnum _ _ Hi) as [Hv _]. unfold create_filename in Hnone.
    by rewrite Hv in Hnone.
Qed.

Lemma percolate_filenames_witness :
  ∃ st names, percolate 30 (initial_state subjects_AB) = Done st ∧
              mapM create_filename (saved_schedules st) = Some names ∧
              names = ["schedule1"; "schedule2"; "schedule3"] ∧ NoDup names.
Proof.
  assert (Hc : match percolate 30 (initial_state subjects_AB) with
               | Done st => bool_decide (mapM create_filename (saved_schedules st)
                                         = Some ["schedule1"; "schedule2"; "schedule3"])
               | _ => false
               end = true)
    by (vm_compute; reflexivity).
  destruct (percolate 30 (initial_state subjects_AB)) as [st| |] eqn:E;
    [|discriminate Hc..].
  apply bool_decide_eq_true in Hc.
  destruct (percolate_filenames subjects_AB 30 st E) as (names & Hn & Hnd).
  exists st, names. split; [reflexivity|]. split; [exact Hn|]. split; [|exact Hnd].
  rewrite Hc in Hn. injection Hn as <-. reflexivity.
Defined.

(** ** The walk over a single subject *)

Section single_subject.

Context (s : Subject.t).
Context (Hfresh : Subject.fresh s).
Context (Hon : Forall (slot_on_grid dt_by_index) (Subject.times s)).
Context (A : list (list bool)) (HA : A = Allocation.array (Allocation.init s)).

Lemma single_build i bits :
  A !! i = Some bits →
  ∃ schedule,
    Schedule.init [s] [Allocation.mk (Z.of_nat i) false A] blank_schedule dt_by_index
    = Some (schedule, [s]).
Proof.
  intros Hi. unfold Schedule.init.
  apply (create_schedule_total [s] _ [bits] blank_schedule dt_by_index grid_ok_blank).
  - by constructor.
  - by constructor.
  - constructor; [|constructor].
    unfold Allocation.enables_timeslot, Allocation.get_array, Allocation.getitem. cbn.
    rewrite decide_True by lia. by rewrite Nat2Z.id.
  - constructor; [|constructor]. apply init_array_elem_length.
    rewrite <- HA. by eapply list_elem_of_lookup_2.
Qed.

Lemma single_walk d : ∀ i fuel st,
  (i + d + 1 = length A)%nat → (d + 1 < fuel)%nat →
  single_at s A i st →
  ∃ st', percolate fuel st = Done st' ∧
         subjects st' = [s] ∧
         alloc_by_subj st' = [Allocation.mk (Z.of_nat (i - 1)) false A] ∧
         builds st' = rev ((fun bits => [bits]) <$> drop i A) ++ builds st.
Proof.
  assert (HAnd : NoDup A).
  { rewrite HA, Allocation_init_array.
    destruct (Subject.type s); apply NoDup_filter, product_bools_NoDup. }
  induction d as [|d IH]; intros i fuel st Hid Hfuel (Hs & Ha & Hnew).
  all: destruct fuel as [|fuel]; [lia|].
  all: destruct (lookup_lt_is_Some_2 A i) as [bits Hbits]; [lia|].
  all: rewrite percolate_S, Ha, Hs; cbn [find_reached_end Allocation.has_reached_end].
  all: assert (Hperm : mapM Allocation.enables_timeslot [Allocation.mk (Z.of_nat i) false A]
                       = Some [bits])
         by (apply mapM_Some; constructor; [|constructor];
             unfold Allocation.enables_timeslot, Allocation.get_array, Allocation.getitem;
             cbn; rewrite decide_True by lia; by rewrite Nat2Z.id).
  all: rewrite Hperm; rewrite decide_False by (by eapply Hnew).
  all: destruct (single_build i bits Hbits) as [schedule ->].
  all: assert (Hsub : ∃ saved' dups',
                 submit schedule (saved_schedules st) (duplicates st) = Some (saved', dups'))
         by (destruct (submit_cases schedule (saved_schedules st) (duplicates st))
               as [(_ & ->)|[(_ & _ & ->)|(_ & _ & ->)]]; eauto).
  all: destruct Hsub as (saved' & dups' & ->).
  all: cbn [length seq neighbours].
  all: assert (Hdrop : drop i A = bits :: drop (S i) A) by (by apply drop_S).
  - (* the last choice: the enumerator only sets its flag *)
    destruct fuel as [|fuel]; [lia|].
    assert (Hadv : Allocation.advance (Allocation.mk (Z.of_nat i) false A)
                   = Allocation.mk (Z.of_nat i) true A).
    { unfold Allocation.advance. cbn. rewrite decide_False by lia. done. }
    unfold call_alloc at 2. cbn [alloc_by_subj set_alloc alter list_alter].
    rewrite Hadv, percolate_S. cbn [alloc_by_subj find_reached_end Allocation.has_reached_end].
    eexists. split; [reflexivity|]. cbn.
    split_and!; [done| |].
    + unfold Allocation.reverse, Allocation.reset_end_status. cbn.
      case_decide; do 2 f_equal; lia.
    + rewrite Hdrop, (drop_ge A (S i)) by lia. done.
  - assert (Hadv : Allocation.advance (Allocation.mk (Z.of_nat i) false A)
                   = Allocation.mk (Z.of_nat (S i)) false A).
    { unfold Allocation.advance. cbn. rewrite decide_True by lia. f_equal. lia. }
    edestruct (IH (S i) fuel) as (st' & Hst' & Hs' & Ha' & Hb'); [lia|lia| |].
    2:{ rewrite Hst'. cbn [neighbours]. eexists. split; [reflexivity|]. cbn.
        rewrite Hs', Ha', Hb'. cbn. split_and!; [done| |].
        - unfold Allocation.reverse. cbn. replace (i - 0)%nat with i by lia.
          case_decide; do 2 f_equal; lia.
        - rewrite Hdrop. cbn. by rewrite <- app_assoc. }
    split_and!; cbn; [done|by rewrite Hadv|].
    intros k bits' Hk Hbits' [Heq%elem_of_singleton|Hin]%elem_of_union.
    + injection Heq as ->. assert (k = i) by (by eapply NoDup_lookup). lia.
    + eapply Hnew; [|done..]. lia.
Qed.

End single_subject.

Lemma signatures_single (A : list (list bool)) :
  signatures [A] = (fun bits => [bits]) <$> A.
Proof. cbn. induction A as [|b A IH]; [done|]. cbn. by rewrite IH. Qed.

(** X18. With a single subject the walk is complete.  For a record as loaded,
    with at least one slot and every slot on the grid, and with fuel above
    the number of choices, the search returns having called the builder on
    every choice of the enumerator exactly once, in the order of its list. *)
Theorem percolate_single_subject (s : Subject.t) (fuel : nat) :
  Subject.fresh s → (1 ≤ length (Subject.times s))%nat →
  Forall (slot_on_grid dt_by_index) (Subject.times s) →
  (length (Allocation.array (Allocation.init s)) < fuel)%nat →
  ∃ st, percolate fuel (initial_state [s]) = Done st ∧
        rev (builds st) = signatures (arrays (initial_state [s])).
Proof.
  intros Hfresh Hn Hon Hfuel.
  pose proof (Allocation_init_nonempty s Hn) as Hm.
  destruct (single_walk s Hfresh Hon _ eq_refl
              (length (Allocation.array (Allocation.init s)) - 1) 0 fuel (initial_state [s]))
    as (st & Hst & _ & _ & Hb); [lia|lia| |].
  - split_and!; [done|done|]. intros k bits _ _. cbn. set_solver.
  - exists st. split; [done|]. rewrite Hb. cbn [builds initial_state].
    rewrite app_nil_r, rev_involutive, drop_0.
    by rewrite <- signatures_single.
Qed.

Lemma percolate_single_subject_witness :
  ∃ st, percolate 4 (initial_state [subj_B]) = Done st ∧
        rev (builds st) = [[[true; false; false]]; [[false; true; false]];
                           [[false; false; true]]].
Proof.
  apply (percolate_single_subject subj_B 4).
  - reflexivity.
  - cbn. lia.
  - apply (bool_decide_unpack _). vm_compute. reflexivity.
  - vm_compute. lia.
Defined.

(** ** Texts of one class of characters *)

Section classes.

Lemma digit_not_space a : re_digit a = true → re_space a = false.
Proof. destruct a as [[] [] [] [] [] [] [] []]; by vm_compute. Qed.

Lemma digit_word a : re_digit a = true → re_word a = true.
Proof. unfold re_word. by intros ->. Qed.

Lemma all_chars_1_2 p s :
  all_chars p s → (1 ≤ String.length s ≤ 2)%nat →
  (∃ a, s = String a "" ∧ p a = true) ∨
  (∃ a b, s = String a (String b "") ∧ p a = true ∧ p b = true).
Proof.
  unfold all_chars. destruct s as [|a [|b [|c s]]]; cbn; intros H Hl; try lia.
  - left. exists a. split; [done|]. by apply Forall_cons in H as [? _].
  - right. exists a, b. apply Forall_cons in H as [? H]. apply Forall_cons in H as [? _]. done.
Qed.

Lemma all_chars_2 p s :
  all_chars p s → String.length s = 2%nat →
  ∃ a b, s = String a (String b "") ∧ p a = true ∧ p b = true.
Proof.
  intros H Hl. destruct (all_chars_1_2 p s H) as [(a & -> & _)|?]; [lia|done|done].
Qed.

End classes.

(** ** The matcher *)

Section matcher_lemmas.

Context {R : Type}.
Implicit Types (k : nat → string → captures → option R).

Lemma first_Some (x y : option R) c :
  x = Some c → match x with Some r => Some r | None => y end = Some c.
Proof. by intros ->. Qed.

Lemma append_nil_l (s : string) : "" +:+ s = s.
Proof. reflexivity. Qed.

Lemma append_cons a (s t : string) : String a s +:+ t = String a (s +:+ t).
Proof. reflexivity. Qed.

Lemma append_nil_r (s : string) : s +:+ "" = s.
Proof. induction s as [|a s IH]; [done|]. by rewrite append_cons, IH. Qed.

Lemma string_take_app (s rest : string) :
  string_take (String.length s) (s +:+ rest) = s.
Proof.
  induction s as [|a s IH]; [by destruct rest|].
  rewrite append_cons. cbn. by f_equal.
Qed.

(** A run of characters of the class, as long as it can get, is what a
    greedy repetition tries first. *)
Lemma rep_k_run p lo count pos run rest caps k c :
  Forall (fun a => p a = true) (string_chars run) →
  (lo ≤ count + String.length run)%nat →
  (rest = "" ∨ ∃ b rest', rest = String b rest' ∧ p b = false) →
  k (pos + String.length run)%nat rest caps = Some c →
  rep_k p lo None count pos (run +:+ rest) caps k = Some c.
Proof.
  revert count pos. induction run as [|a run IH]; intros count pos Hrun Hlo Hrest Hk.
  - cbn in Hk, Hlo. rewrite Nat.add_0_r in Hk, Hlo. rewrite append_nil_l.
    assert ((lo <=? count)%nat = true) as Hle by (by apply Nat.leb_le).
    destruct Hrest as [->|(b & rest' & -> & Hb)]; cbn [rep_k]; rewrite ?Hb;
      cbn [andb]; rewrite Hle; done.
  - cbn in Hrun. apply Forall_cons in Hrun as [Ha Hrun].
    rewrite append_cons. cbn [rep_k]. rewrite Ha. cbn [below andb].
    apply first_Some. apply IH; [done|cbn in Hlo; lia|done|].
    cbn in Hk. by replace (S pos + String.length run)%nat
                     with (pos + S (String.length run))%nat by lia.
Qed.

Lemma rep_k_None_first p lo hi pos a rest caps k :
  p a = false → (0 < lo)%nat →
  rep_k p lo hi 0 pos (String a rest) caps k = None.
Proof.
  intros Ha Hlo. cbn [rep_k]. rewrite Ha. cbn [andb].
  by rewrite (proj2 (Nat.leb_gt lo 0) Hlo).
Qed.

Lemma rep_k_None_app p lo hi pos run a rest text caps k :
  run = String a rest → p a = false → (0 < lo)%nat →
  rep_k p lo hi 0 pos (run +:+ text) caps k = None.
Proof. intros -> ??. rewrite append_cons. by apply rep_k_None_first. Qed.

Lemma rep_k_None_nil p lo hi pos caps k :
  (0 < lo)%nat → rep_k p lo hi 0 pos "" caps k = None.
Proof. intros Hlo. cbn [rep_k]. by rewrite (proj2 (Nat.leb_gt lo 0) Hlo). Qed.

Lemma rep_k_run_end p lo count pos run caps k c :
  all_chars p run → (lo ≤ count + String.length run)%nat →
  k (pos + String.length run)%nat "" caps = Some c →
  rep_k p lo None count pos run caps k = Some c.
Proof.
  intros. rewrite <- (append_nil_r run). apply rep_k_run; auto.
Qed.

(** One or two characters of the class, followed by one that is not. *)
Lemma rep_k_1_2 p pos run b rest caps k c :
  all_chars p run → (1 ≤ String.length run ≤ 2)%nat → p b = false →
  k (pos + String.length run)%nat (String b rest) caps = Some c →
  rep_k p 1 (Some 2%nat) 0 pos (run +:+ String b rest) caps k = Some c.
Proof.
  intros Hrun Hlen Hb Hk.
  destruct (all_chars_1_2 p run Hrun Hlen) as [(a & -> & Ha)|(a & a' & -> & Ha & Ha')];
    cbn [String.length] in Hk; rewrite !append_cons, append_nil_l.
  - cbn [rep_k]. rewrite Ha, Hb. cbn [below andb Nat.ltb Nat.leb].
    replace (pos + 1)%nat with (S pos) in Hk by lia. by rewrite Hk.
  - cbn [rep_k]. rewrite Ha, Ha', Hb. cbn [below andb Nat.ltb Nat.leb].
    replace (pos + 2)%nat with (S (S pos)) in Hk by lia. by rewrite Hk.
Qed.

Lemma string_drop_0 (s : string) : string_drop 0 s = s.
Proof. by destruct s. Qed.

(** A repetition fails when what follows it fails wherever it could stop. *)
Lemma rep_k_fail p lo hi count pos s caps k :
  (∀ i, (i ≤ String.length s)%nat → k (pos + i)%nat (string_drop i s) caps = None) →
  rep_k p lo hi count pos s caps k = None.
Proof.
  revert count pos. induction s as [|a s IH]; intros count pos Hk.
  - cbn [rep_k]. specialize (Hk 0%nat). rewrite Nat.add_0_r in Hk. cbn in Hk.
    rewrite Hk by lia. by destruct (lo <=? count)%nat.
  - cbn [rep_k]. pose proof (Hk 0%nat) as H0. rewrite Nat.add_0_r, string_drop_0 in H0.
    rewrite H0 by (cbn; lia).
    rewrite IH.
    + by destruct (p a && below count hi), (lo <=? count)%nat.
    + intros i Hi. specialize (Hk (S i)). cbn [string_drop String.length] in Hk.
      replace (S pos + i)%nat with (pos + S i)%nat by lia. apply Hk. lia.
Qed.

(** It stops where what follows succeeds, if that fails further on. *)
Lemma rep_k_stop p lo count pos s caps k c :
  (lo ≤ count)%nat → k pos s caps = Some c →
  (∀ i, (0 < i ≤ String.length s)%nat → k (pos + i)%nat (string_drop i s) caps = None) →
  rep_k p lo None count pos s caps k = Some c.
Proof.
  intros Hlo Hk Hfail. apply Nat.leb_le in Hlo.
  destruct s as [|a s]; cbn [rep_k]; rewrite Hlo; [done|].
  rewrite rep_k_fail; [by destruct (p a && below count None)|].
  intros i Hi. specialize (Hfail (S i)). cbn [string_drop String.length] in Hfail.
  replace (S pos + i)%nat with (pos + S i)%nat by lia. apply Hfail. lia.
Qed.

Lemma rep_k_suffix p lo count pos run suffix caps k c :
  all_chars p run → (lo ≤ count + String.length run)%nat →
  k (pos + String.length run)%nat suffix caps = Some c →
  (∀ i, (0 < i ≤ String.length suffix)%nat →
        k (pos + String.length run + i)%nat (string_drop i suffix) caps = None) →
  rep_k p lo None count pos (run +:+ suffix) caps k = Some c.
Proof.
  revert count pos. induction run as [|a run IH]; intros count pos Hrun Hlo Hk Hfail.
  - rewrite append_nil_l. cbn [String.length] in *. rewrite Nat.add_0_r in *.
    by apply rep_k_stop.
  - apply Forall_cons in Hrun as [Ha Hrun]. rewrite append_cons. cbn [rep_k].
    rewrite Ha. cbn [below andb]. apply first_Some.
    cbn [String.length] in *. apply IH; [done|lia|..].
    + by replace (S pos + String.length run)%nat with (pos + S (String.length run))%nat by lia.
    + intros i Hi.
      replace (S pos + String.length run)%nat with (pos + S (String.length run))%nat by lia.
      by apply Hfail.
Qed.

End matcher_lemmas.

Lemma re_search_from_hit pattern pos text caps :
  re_k pattern pos text [] (fun _ _ caps => Some caps) = Some caps →
  re_search_from pattern pos text = Some caps.
Proof. intros H. destruct text; cbn [re_search_from]; by rewrite H. Qed.

(** ** Week days *)

Section patterns.

Lemma re_k_literal {R} s pos text caps (k : nat → string → captures → option R) :
  is_Some (re_k (literal s) pos text caps k) ↔
  ∃ rest, text = s +:+ rest ∧ is_Some (k (pos + String.length s)%nat rest caps).
Proof.
  revert pos text. induction s as [|a s IH]; intros pos text; cbn [literal re_k].
  - cbn [String.length]. rewrite Nat.add_0_r. split; [by eauto|]. by intros (rest & -> & ?).
  - destruct text as [|b text].
    + split; [by intros [? ?]|]. intros (rest & Heq & _). by rewrite append_cons in Heq.
    + unfold one_of. destruct (decide (b = a)) as [->|Hne].
      * rewrite bool_decide_eq_true_2 by (by apply list_elem_of_singleton).
        rewrite IH. cbn [String.length].
        replace (S pos + String.length s)%nat with (pos + S (String.length s))%nat by lia.
        split.
        -- intros (rest & -> & ?). exists rest. by rewrite append_cons.
        -- intros (rest & Heq & ?). rewrite append_cons in Heq. injection Heq as ->. eauto.
      * rewrite bool_decide_eq_false_2 by (by rewrite list_elem_of_singleton).
        split; [by intros [? ?]|]. intros (rest & Heq & _).
        rewrite append_cons in Heq. congruence.
Qed.

Lemma re_k_Eol pos text caps :
  is_Some (re_k Eol pos text caps (fun _ _ caps' => Some caps')) ↔
  text = "" ∨ text = String newline "".
Proof.
  cbn [re_k]. case_decide as Hd; split.
  - done.
  - intros _. by eexists.
  - by intros [? ?].
  - done.
Qed.

Lemma re_k_Opt {R} r pos text caps (k : nat → string → captures → option R) :
  is_Some (re_k (Opt r) pos text caps k) ↔
  is_Some (re_k r pos text caps k) ∨ is_Some (k pos text caps).
Proof.
  cbn [re_k]. destruct (re_k r pos text caps k) as [c|]; split.
  - intros _. left. by eexists.
  - intros _. by eexists.
  - intros ?. by right.
  - intros [[? ?]|?]; done.
Qed.

Lemma re_match_tail rest pos text caps :
  is_Some (re_k (Cat (Opt (Group 1 (literal rest))) Eol) pos text caps
             (fun _ _ caps' => Some caps')) ↔
  ∃ tail e, text = tail +:+ e ∧ (tail = "" ∨ tail = rest) ∧ (e = "" ∨ e = String newline "").
Proof.
  change (re_k (Cat (Opt (Group 1 (literal rest))) Eol) pos text caps
            (fun _ _ caps' => Some caps'))
    with (re_k (Opt (Group 1 (literal rest))) pos text caps
            (fun pos' text' caps' => re_k Eol pos' text' caps' (fun _ _ c => Some c))).
  rewrite re_k_Opt, re_k_Eol.
  change (re_k (Group 1 (literal rest)) pos text caps
            (fun pos' text' caps' => re_k Eol pos' text' caps' (fun _ _ c => Some c)))
    with (re_k (literal rest) pos text caps
            (fun pos' text' caps' =>
               re_k Eol pos' text' ((1%nat, string_take (pos' - pos) text) :: caps')
                    (fun _ _ c => Some c))).
  rewrite re_k_literal. setoid_rewrite re_k_Eol. split.
  - intros [(e & -> & He)|He].
    + exists rest, e. split_and!; [done|by right|done].
    + exists "", text. split_and!; [done|by left|done].
  - intros (tail & e & -> & [->| ->] & He).
    + by right.
    + left. eauto.
Qed.

Lemma weekday_pattern_match d0 d1 rest weekday :
  is_Some (re_match (weekday_pattern (String d0 (String d1 rest))) weekday) ↔
  ∃ c0 c1 tail e,
    weekday = String c0 (String c1 (tail +:+ e)) ∧
    (c0 = d0 ∨ c0 = swapcase d0) ∧ (c1 = d1 ∨ c1 = swapcase d1) ∧
    (tail = "" ∨ tail = rest) ∧ (e = "" ∨ e = String newline "").
Proof.
  unfold re_match, weekday_pattern.
  cbn [abbreviation_length string_take string_drop string_chars foldl].
  set (T := Cat (Opt (Group 1 (literal rest))) Eol).
  set (K0 := fun (_ : nat) (_ : string) (caps : captures) => Some caps).
  change (re_k (Cat (Cat (Cat Eps (Chr (one_of [d0; swapcase d0])))
                         (Chr (one_of [d1; swapcase d1]))) T) 0 weekday [] K0)
    with (re_k (Chr (one_of [d0; swapcase d0])) 0 weekday []
            (fun p0 t0 c0 => re_k (Chr (one_of [d1; swapcase d1])) p0 t0 c0
                               (fun p1 t1 c1 => re_k T p1 t1 c1 K0))).
  assert (Hin : ∀ (c a b : ascii), one_of [a; b] c = true ↔ c = a ∨ c = b).
  { intros c a b. unfold one_of. rewrite bool_decide_eq_true, !elem_of_cons, elem_of_nil.
    tauto. }
  destruct weekday as [|c0 [|c1 text]].
  - split; [by intros [? ?]|]. by intros (? & ? & ? & ? & ? & _).
  - cbn [re_k]. destruct (one_of [d0; swapcase d0] c0);
      (split; [by intros [? ?]|]); by intros (? & ? & ? & ? & ? & _).
  - cbn [re_k].
    destruct (one_of [d0; swapcase d0] c0) eqn:H0.
    2:{ split; [by intros [? ?]|]. intros (c0' & c1' & tail & e & [= -> -> ->] & H0' & _).
        apply Hin in H0'. congruence. }
    destruct (one_of [d1; swapcase d1] c1) eqn:H1.
    2:{ split; [by intros [? ?]|]. intros (c0' & c1' & tail & e & [= -> -> ->] & _ & H1' & _).
        apply Hin in H1'. congruence. }
    apply Hin in H0, H1.
    change (re_k (Cat (Opt (Group 1 (literal rest))) Eol) 2 text [] K0)
      with (re_k T 2 text [] K0).
    unfold T, K0. rewrite re_match_tail. split.
    + intros (tail & e & -> & Ht & He). exists c0, c1, tail, e. done.
    + intros (c0' & c1' & tail & e & [= -> -> ->] & _ & _ & Ht & He). eauto.
Qed.

End patterns.

Section week_days.

Lemma weekday_number_from_spec z0 patterns weekday z :
  weekday_number_from z0 patterns weekday = Some z ↔
  ∃ i pattern, z = z0 + Z.of_nat i ∧ patterns !! i = Some pattern ∧
               is_Some (re_match pattern weekday) ∧
               ∀ j other, (j < i)%nat → patterns !! j = Some other →
                          re_match other weekday = None.
Proof.
  revert z0. induction patterns as [|p ps IH]; intros z0; cbn.
  - split; [done|]. by intros (i & pattern & _ & ? & _).
  - destruct (re_match p weekday) as [caps|] eqn:Hp.
    + split.
      * intros [= <-]. exists 0%nat, p. split_and!; [lia|done|by rewrite Hp|].
        intros j other Hj. lia.
      * intros (i & pattern & -> & Hi & Hm & Hfirst).
        destruct i as [|i]; [f_equal; lia|].
        specialize (Hfirst 0%nat p ltac:(lia) eq_refl). congruence.
    + rewrite IH. split.
      * intros (i & pattern & -> & Hi & Hm & Hfirst).
        exists (S i), pattern. split_and!; [lia|done..|].
        intros [|j] other Hj Ho; cbn in Ho; [congruence|]. eapply Hfirst; [|done]. lia.
      * intros (i & pattern & -> & Hi & Hm & Hfirst).
        destruct i as [|i]; cbn in Hi.
        { injection Hi as <-. rewrite Hp in Hm. by destruct Hm. }
        exists i, pattern. split_and!; [lia|done..|].
        intros j other Hj Ho. apply (Hfirst (S j)); [lia|done].
Qed.

Lemma weekdays_cases i daystr :
  weekdays !! i = Some daystr →
  (i, daystr) ∈ [(0, "Montag"); (1, "Dienstag"); (2, "Mittwoch"); (3, "Donnerstag");
                 (4, "Freitag"); (5, "Samstag"); (6, "Sonntag")]%nat.
Proof.
  unfold weekdays. do 7 (destruct i as [|i]; [intros [= <-]; set_solver|]). done.
Qed.

Lemma weekdays_shape i daystr :
  weekdays !! i = Some daystr → ∃ d0 d1 rest, daystr = String d0 (String d1 rest).
Proof.
  unfold weekdays. do 7 (destruct i as [|i]; [intros [= <-]; by eauto|]). done.
Qed.

Lemma weekday_pattern_spelled i daystr weekday :
  weekdays !! i = Some daystr →
  is_Some (re_match (weekday_pattern daystr) weekday) ↔ spelled daystr weekday.
Proof.
  intros (d0 & d1 & rest & ->)%weekdays_shape.
  rewrite weekday_pattern_match. unfold spelled. split.
  - intros (c0 & c1 & tail & e & H). exists d0, d1, rest, c0, c1, tail, e. done.
  - intros (d0' & d1' & rest' & c0 & c1 & tail & e & [= <- <- <-] & H). eauto 10.
Qed.

Lemma spelled_one_day i j di dj weekday :
  weekdays !! i = Some di → weekdays !! j = Some dj →
  spelled di weekday → spelled dj weekday → i = j.
Proof.
  intros Hi%weekdays_cases Hj%weekdays_cases
         (d0 & d1 & rest & c0 & c1 & tail & e & -> & -> & H0 & H1 & _)
         (d0' & d1' & rest' & c0' & c1' & tail' & e' & -> & [= <- <- _] & H0' & H1' & _).
  repeat (apply elem_of_cons in Hi as [Hi|Hi]; [injection Hi as -> -> -> _|]);
    [..|by apply elem_of_nil in Hi].
  all: repeat (apply elem_of_cons in Hj as [Hj|Hj]; [injection Hj as -> -> -> _|]);
    [..|by apply elem_of_nil in Hj].
  all: try done.
  all: exfalso; destruct H0 as [->| ->], H0' as [H0'|H0']; try discriminate H0'.
  all: destruct H1 as [->| ->], H1' as [H1'|H1']; discriminate H1'.
Qed.

Lemma weekday_number_from_range i patterns weekday z :
  weekday_number_from i patterns weekday = Some z →
  i ≤ z < i + Z.of_nat (length patterns).
Proof.
  revert i. induction patterns as [|pattern patterns IH]; intros i; cbn [weekday_number_from].
  - done.
  - destruct (re_match pattern weekday).
    + intros [= <-]. cbn [length]. lia.
    + intros H. apply IH in H. cbn [length]. lia.
Qed.

Lemma weekday_number_range weekday z : weekday_number weekday = Some z → 0 ≤ z < 7.
Proof. intros H. apply weekday_number_from_range in H. cbn in H. lia. Qed.

End week_days.

(** X19. [weekday_number] returns the number of a week day (0 for Monday to
    6 for Sunday) exactly for the texts made of the first two letters of
    its German name, each in either case, followed by nothing or by the rest
    of the name as written, with possibly one newline at the very end; for
    any other text it returns [None].  So "MO" and "montag" are read as
    Monday, "MONTAG" and "Mon" are not, and Saturday and Sunday are read
    although the grid has no cells for them. *)
Theorem weekday_number_spec (weekday : string) (z : Z) :
  weekday_number weekday = Some z ↔
  ∃ i daystr, z = Z.of_nat i ∧ weekdays !! i = Some daystr ∧ spelled daystr weekday.
Proof.
  unfold weekday_number. rewrite weekday_number_from_spec. unfold weekday_patterns. split.
  - intros (i & pattern & -> & Hi & Hm & _).
    rewrite list_lookup_fmap in Hi.
    destruct (weekdays !! i) as [daystr|] eqn:Hd; [|done]. injection Hi as <-.
    exists i, daystr. split_and!; [lia|done|]. by eapply weekday_pattern_spelled.
  - intros (i & daystr & -> & Hd & Hsp).
    exists i, (weekday_pattern daystr). split_and!.
    + lia.
    + by rewrite list_lookup_fmap, Hd.
    + by eapply weekday_pattern_spelled.
    + intros j other Hj Ho. rewrite list_lookup_fmap in Ho.
      destruct (weekdays !! j) as [dj|] eqn:Hdj; [|done]. injection Ho as <-.
      destruct (re_match (weekday_pattern dj) weekday) as [caps|] eqn:Hm; [|done].
      assert (Hsp' : spelled dj weekday).
      { eapply weekday_pattern_spelled; [done|]. by rewrite Hm. }
      pose proof (spelled_one_day _ _ _ _ _ Hd Hdj Hsp Hsp'). lia.
Qed.

(** ** Lines of times *)

Section time_lines.

Lemma string_take_run pos (s rest : string) :
  string_take (pos + String.length s - pos) (s +:+ rest) = s.
Proof.
  replace (pos + String.length s - pos)%nat with (String.length s) by lia.
  apply string_take_app.
Qed.

Lemma string_take_2 pos a b (rest : string) :
  string_take (S (S pos) - pos) (String a (String b rest)) = String a (String b "").
Proof. by replace (S (S pos) - pos)%nat with 2%nat by lia. Qed.

Lemma time_loc_pattern_tail pos tail location caps :
  location_tail tail location →
  re_k (cats [Opt (Chr (fun c => negb (re_word c)));
              Opt (Group 6 (Rep re_space 1 None)); Opt (Group 7 (Rep re_any 1 None)); Eol])
       pos tail caps (fun _ _ caps => Some caps)
  = Some (with_location location caps).
Proof.
  intros [[-> ->]|(a & rest & Hl & Ha & Hany & ->)]; cbn [cats foldr re_k];
    [|rewrite Hl at 1 2].
  - rewrite !rep_k_None_nil by lia. by rewrite decide_True by (by left).
  - assert (re_word " " = false) as -> by reflexivity. cbn [negb].
    apply first_Some.
    rewrite (rep_k_None_first _ _ _ _ a) by (done || lia).
    apply first_Some. apply rep_k_run_end; [done|rewrite Hl; cbn; lia|].
    rewrite decide_True by (by left).
    rewrite <- (append_nil_r location) at 2. rewrite string_take_run.
    by rewrite Hl.
Qed.

Lemma time_loc_pattern_match weekday hh1 c1 mm1 hh2 c2 mm2 tail location :
  all_chars re_word weekday → (1 ≤ String.length weekday)%nat →
  all_chars re_digit hh1 → (1 ≤ String.length hh1 ≤ 2)%nat →
  all_chars re_digit mm1 → String.length mm1 = 2%nat →
  all_chars re_digit hh2 → (1 ≤ String.length hh2 ≤ 2)%nat →
  all_chars re_digit mm2 → String.length mm2 = 2%nat →
  c1 ∈ [":"; "."]%char → c2 ∈ [":"; "."]%char →
  location_tail tail location →
  re_k time_loc_pattern 0
    (weekday +:+ String " " (hh1 +:+ String c1 (mm1 +:+ String "-"
       (hh2 +:+ String c2 (mm2 +:+ tail)))))
    [] (fun _ _ caps => Some caps)
  = Some (with_location location
            [(5%nat, mm2); (4%nat, hh2); (3%nat, mm1); (2%nat, hh1); (1%nat, weekday)]).
Proof.
  intros Hw Hwl Hh1 Hh1l Hm1 Hm1l Hh2 Hh2l Hm2 Hm2l Hc1 Hc2 Htail.
  destruct (all_chars_2 _ _ Hm1 Hm1l) as (m & m' & -> & Hm & Hm').
  destruct (all_chars_2 _ _ Hm2 Hm2l) as (n & n' & -> & Hn & Hn').
  assert (re_word " " = false) as Hsp_word by reflexivity.
  assert (one_of ["-"%char] "-" = true) as Hdash by reflexivity.
  assert (∀ c, c ∈ [":"; "."]%char → one_of [":"; "."]%char c = true ∧ re_digit c = false)
    as Hsep.
  { intros c Hc. split; [by apply bool_decide_eq_true_2|].
    apply elem_of_cons in Hc as [->|Hc]; [done|].
    apply list_elem_of_singleton in Hc as ->. done. }
  destruct (Hsep _ Hc1) as [Hc1o Hc1d]. destruct (Hsep _ Hc2) as [Hc2o Hc2d].
  assert (∃ h rest, hh1 = String h rest ∧ re_space h = false) as (h & hrest & Hh & Hhs).
  { destruct hh1 as [|h rest]; [cbn in Hh1l; lia|]. exists h, rest. split; [done|].
    apply digit_not_space. by apply Forall_cons in Hh1 as [? _]. }
  rewrite !append_cons, !append_nil_l.
  unfold time_loc_pattern. cbn [cats foldr].
  match goal with |- context [Cat (Group 5 ?g) ?t] => set (tailp := t) end.
  cbn [re_k].
  rewrite decide_True by done.
  apply rep_k_run; [done|lia|right; eexists _, _; split; [done|done]|].
  lazy beta iota. rewrite Hsp_word. cbn [negb].
  rewrite (rep_k_None_app _ _ _ _ hh1 h hrest) by (done || lia).
  lazy beta iota.
  apply (rep_k_run re_space 1 0 _ " " (hh1 +:+ _)).
  { by repeat constructor. }
  { cbn. lia. }
  { right. exists h, (hrest +:+ String c1 (String m (String m' (String "-"
      (hh2 +:+ String c2 (String n (String n' tail))))))).
    by rewrite Hh, append_cons. }
  lazy beta iota.
  apply rep_k_1_2; [done..|].
  lazy beta iota. rewrite Hc1o, Hm, Hm', Hdash.
  apply rep_k_1_2; [done..|].
  lazy beta iota. rewrite Hc2o, Hn, Hn'.
  rewrite !string_take_run, !string_take_2.
  subst tailp. by apply time_loc_pattern_tail.
Qed.

Lemma datetime_range wd hh mm t :
  0 ≤ wd < 7 → datetime (day0 + wd) hh mm = Some t → 0 ≤ t < 7 * 24 * 60.
Proof.
  intros Hwd. unfold datetime. destruct (decide _) as [(_ & Hh & Hm)|]; [|done].
  intros [= <-]. unfold mk_datetime. lia.
Qed.

Lemma read_time_line_range line t1 t2 location :
  read_time_line line = Loaded ((t1, t2), location) →
  0 ≤ t1 < 7 * 24 * 60 ∧ 0 ≤ t2 < 7 * 24 * 60.
Proof.
  unfold read_time_line. destruct (re_search time_loc_pattern line) as [m|]; [|done].
  destruct (group m 1 ≫= weekday_number) as [wd|] eqn:Hwd; [|done].
  assert (0 ≤ wd < 7) as Hr.
  { destruct (group m 1) as [w|]; [|done]. by apply weekday_number_range in Hwd. }
  cbv zeta.
  destruct (datetime (day0 + wd) _ _) as [t1'|] eqn:H1; [|done].
  destruct (datetime (day0 + wd) (int_of_digits (default "" (group m 4))) _) as [t2'|] eqn:H2;
    [|done].
  intros [= <- <- _]. eauto using datetime_range.
Qed.

Lemma read_time_line_nil : read_time_line "" = Exits.
Proof. reflexivity. Qed.

End time_lines.

(** X20. How a line of times is read.  Take a line made of a week day (word
    characters), a blank, the beginning and the end as one or two digits of
    hours, a colon or a full stop and two digits of minutes, joined by a
    hyphen, and then nothing or a blank and a location.  When
    [weekday_number] does not know the week day the script exits; when an
    hour is above 23 or a minute above 59 the [ValueError] of [datetime] is
    not caught; otherwise the line gives the two instants on that day of
    the week and the location, the empty string when none is written. *)
Theorem read_time_line_format weekday hh1 c1 mm1 hh2 c2 mm2 tail location :
  all_chars re_word weekday → weekday ≠ "" →
  all_chars re_digit hh1 → (1 ≤ String.length hh1 ≤ 2)%nat →
  all_chars re_digit mm1 → String.length mm1 = 2%nat →
  all_chars re_digit hh2 → (1 ≤ String.length hh2 ≤ 2)%nat →
  all_chars re_digit mm2 → String.length mm2 = 2%nat →
  c1 ∈ [":"; "."]%char → c2 ∈ [":"; "."]%char →
  location_tail tail location →
  read_time_line (weekday +:+ " " +:+ hh1 +:+ String c1 mm1 +:+ "-" +:+
                  hh2 +:+ String c2 mm2 +:+ tail)
  = match weekday_number weekday with
    | None => Exits
    | Some wd =>
        match datetime (day0 + wd) (int_of_digits hh1) (int_of_digits mm1),
              datetime (day0 + wd) (int_of_digits hh2) (int_of_digits mm2) with
        | Some t1, Some t2 => Loaded ((t1, t2), location)
        | _, _ => Crashes
        end
    end.
Proof.
  intros Hw Hwne Hh1 Hh1l Hm1 Hm1l Hh2 Hh2l Hm2 Hm2l Hc1 Hc2 Htail.
  assert (1 ≤ String.length weekday)%nat as Hwl by (destruct weekday; [done|cbn; lia]).
  pose proof (time_loc_pattern_match weekday hh1 c1 mm1 hh2 c2 mm2 tail location
                Hw Hwl Hh1 Hh1l Hm1 Hm1l Hh2 Hh2l Hm2 Hm2l Hc1 Hc2 Htail) as Hm.
  rewrite !append_cons, !append_nil_l.
  unfold read_time_line, re_search.
  rewrite (re_search_from_hit _ _ _ _ Hm).
  all: assert (∀ n caps, n ≠ 7%nat →
         group (with_location location caps) n = group caps n) as Hg
    by (intros k caps Hk; unfold with_location; destruct location; [done|];
        cbn [group]; by rewrite decide_False by done).
  all: rewrite !Hg by done;
    change (group [(5%nat, mm2); (4%nat, hh2); (3%nat, mm1); (2%nat, hh1); (1%nat, weekday)] 1)
      with (Some weekday);
    change (group [(5%nat, mm2); (4%nat, hh2); (3%nat, mm1); (2%nat, hh1); (1%nat, weekday)] 2)
      with (Some hh1);
    change (group [(5%nat, mm2); (4%nat, hh2); (3%nat, mm1); (2%nat, hh1); (1%nat, weekday)] 3)
      with (Some mm1);
    change (group [(5%nat, mm2); (4%nat, hh2); (3%nat, mm1); (2%nat, hh1); (1%nat, weekday)] 4)
      with (Some hh2);
    change (group [(5%nat, mm2); (4%nat, hh2); (3%nat, mm1); (2%nat, hh1); (1%nat, weekday)] 5)
      with (Some mm2);
    cbn [mbind option_bind]; change (default "" (Some ?x)) with x.
  all: destruct (weekday_number weekday) as [wd|]; [|done].
  all: assert (∀ caps, group caps 7 = None →
         default "" (group (with_location location caps) 7) = location) as ->; [|done..].
  all: intros caps Hcaps; unfold with_location;
    destruct Htail as [[_ ->]|(a & rest & -> & _)]; cbn [group];
    [by rewrite Hcaps|by rewrite decide_True].
Qed.

Lemma read_time_line_format_witness :
  read_time_line "Di 8:00-9:30 Audimax" = Loaded (slot 1 8 0 9 30, "Audimax") ∧
  read_time_line "do 10.00-11.30" = Loaded (slot 3 10 0 11 30, "") ∧
  read_time_line "Di 8:00-9:70" = Crashes ∧
  read_time_line "Tue 8:00-9:30" = Exits.
Proof.
  split_and!.
  - refine (read_time_line_format "Di" "8" ":" "00" "9" ":" "30" " Audimax" "Audimax"
              _ _ _ _ _ _ _ _ _ _ _ _ _);
      try (by repeat constructor); try (cbn; lia); try (apply (bool_decide_unpack _); reflexivity).
    right. exists "A"%char, "udimax". split_and!; try reflexivity. by repeat constructor.
  - refine (read_time_line_format "do" "10" "." "00" "11" "." "30" "" ""
              _ _ _ _ _ _ _ _ _ _ _ _ _);
      try (by repeat constructor); try (cbn; lia); try (apply (bool_decide_unpack _); reflexivity).
  - refine (read_time_line_format "Di" "8" ":" "00" "9" ":" "70" "" ""
              _ _ _ _ _ _ _ _ _ _ _ _ _);
      try (by repeat constructor); try (cbn; lia); try (apply (bool_decide_unpack _); reflexivity).
  - refine (read_time_line_format "Tue" "8" ":" "00" "9" ":" "30" "" ""
              _ _ _ _ _ _ _ _ _ _ _ _ _);
      try (by repeat constructor); try (cbn; lia); try (apply (bool_decide_unpack _); reflexivity).
Defined.

(** ** Reading a subject file *)

Section reading.

Lemma rstrip_nil : rstrip "" = "".
Proof. reflexivity. Qed.

Lemma read_times_blank fuel fh n skip_reading times locations :
  read_times (S fuel) fh "" n skip_reading times locations = Some (Loaded (times, locations)).
Proof. reflexivity. Qed.

(** Once the counter has passed [skip_reading], every pass reads a line. *)
Lemma read_times_read_lines fuel fh line n skip_reading times locations :
  line ≠ "" → (skip_reading ≤ n)%nat → (length fh + 2 ≤ fuel)%nat →
  read_times fuel fh line n skip_reading times locations
  = Some (read_lines fh times locations).
Proof.
  revert fuel line n times locations.
  induction fh as [|l fh IH]; intros fuel line n times locations Hline Hn Hfuel;
    (destruct fuel as [|fuel]; [cbn in Hfuel; lia|]); cbn [read_times].
  - rewrite decide_False by done. rewrite (proj2 (Nat.leb_le _ _) Hn).
    cbn [readline fst snd]. rewrite rstrip_nil, decide_True by done.
    destruct fuel; [cbn in Hfuel; lia|done].
  - rewrite decide_False by done. rewrite (proj2 (Nat.leb_le _ _) Hn).
    cbn [readline fst snd read_lines]. destruct (decide (rstrip l = "")) as [->|Hl].
    + destruct fuel; [cbn in Hfuel; lia|done].
    + destruct (read_time_line (rstrip l)) as [[time location]| |]; [|done..].
      apply IH; [done|lia|cbn in Hfuel; lia].
Qed.

(** With no colour line ([skip_reading = 1]) the line already read is the
    first line of times. *)
Lemma read_times_skip fuel fh l times locations :
  (length fh + 3 ≤ fuel)%nat →
  read_times fuel fh (rstrip l) 0 1 times locations
  = Some (read_lines (l :: fh) times locations).
Proof.
  intros Hfuel. destruct fuel as [|fuel]; [lia|]. cbn [read_times read_lines].
  destruct (decide (rstrip l = "")) as [Hl|Hl]; [done|].
  cbn [Nat.leb]. rewrite decide_False by done.
  destruct (read_time_line (rstrip l)) as [[time location]| |]; [|done..].
  apply read_times_read_lines; [done|lia|lia].
Qed.

Lemma read_color_nil : read_color "" = None.
Proof. reflexivity. Qed.

Lemma read_color_Some_ne line c : read_color line = Some c → line ≠ "".
Proof. intros H ->. by rewrite read_color_nil in H. Qed.

(** [__init__] without the loop counter. *)
Lemma Subject_init_read_lines filename fh :
  Subject_init filename fh =
  match read_name filename with
  | None => Some Crashes
  | Some name =>
      match read_type (rstrip (readline fh).1) with
      | None => Some Exits
      | Some type =>
          let fh := (readline fh).2 in
          match read_color (rstrip (readline fh).1) with
          | Some color => Some (loaded_subject name type color (read_lines (readline fh).2 [] []))
          | None =>
              Some (loaded_subject name type (Color_rgb 127 127 127) (read_lines fh [] []))
          end
      end
  end.
Proof.
  unfold Subject_init, read_name.
  destruct (re_search name_pattern filename ≫= _) as [name|]; [|done].
  destruct (read_type _) as [type|]; [|done].
  cbv zeta. set (fh1 := (readline fh).2).
  destruct (read_color (rstrip (readline fh1).1)) as [color|] eqn:Hc.
  - rewrite read_times_read_lines by (eauto using read_color_Some_ne || lia).
    by destruct (read_lines _ _ _) as [[??]| |].
  - destruct fh1 as [|l fh2]; [done|]. cbn [readline fst snd].
    rewrite read_times_skip by lia.
    by destruct (read_lines _ _ _) as [[??]| |].
Qed.

Lemma read_lines_blank pre blank post times locations :
  rstrip blank = "" →
  read_lines (pre ++ blank :: post) times locations = read_lines pre times locations.
Proof.
  intros Hb. revert times locations.
  induction pre as [|l pre IH]; intros times locations; cbn [app read_lines].
  - by rewrite decide_True.
  - destruct (decide _); [done|].
    by destruct (read_time_line (rstrip l)) as [[??]| |].
Qed.

Lemma read_lines_entries lines entries rest times locations :
  Forall2 (fun line e => read_time_line (rstrip line) = Loaded e) lines entries →
  read_lines (lines ++ rest) times locations
  = read_lines rest (times ++ entries.*1) (locations ++ entries.*2).
Proof.
  intros H. revert times locations.
  induction H as [|l [t loc] lines entries Hl _ IH]; intros times locations.
  - cbn. by rewrite !app_nil_r.
  - cbn [app read_lines]. rewrite decide_False.
    + rewrite Hl, IH. cbn [fmap list_fmap fst snd]. by rewrite <- !app_assoc.
    + intros E. by rewrite E, read_time_line_nil in Hl.
Qed.

Lemma read_lines_end rest times locations :
  rstrip (readline rest).1 = "" →
  read_lines rest times locations = Loaded (times, locations).
Proof. destruct rest as [|l rest]; [done|]. cbn. intros ->. done. Qed.

Lemma read_lines_lengths fh times locations times' locations' :
  read_lines fh times locations = Loaded (times', locations') →
  length times = length locations → length times' = length locations'.
Proof.
  revert times locations. induction fh as [|l fh IH]; intros times locations; cbn [read_lines].
  - by intros [= <- <-].
  - destruct (decide _); [by intros [= <- <-]|].
    destruct (read_time_line (rstrip l)) as [[t loc]| |]; [|done..].
    intros H Hlen. apply IH in H; [done|]. rewrite !length_app. cbn. lia.
Qed.

Lemma read_lines_Forall (P : Z * Z → Prop) fh times locations times' locations' :
  (∀ line t location, read_time_line line = Loaded (t, location) → P t) →
  read_lines fh times locations = Loaded (times', locations') →
  Forall P times → Forall P times'.
Proof.
  intros HP. revert times locations.
  induction fh as [|l fh IH]; intros times locations; cbn [read_lines].
  - by intros [= <- <-].
  - destruct (decide _); [by intros [= <- <-]|].
    destruct (read_time_line (rstrip l)) as [[t loc]| |] eqn:Hl; [|done..].
    intros H Hall. apply IH in H; [done|]. apply Forall_app. eauto.
Qed.

Lemma loaded_subject_Loaded name type color r sf :
  loaded_subject name type color r = Loaded sf →
  ∃ times locations,
    r = Loaded (times, locations) ∧
    sf = mk_subject_file (Subject.mk name times type ∅) locations color (times.*1).
Proof. destruct r as [[times locations]| |]; [|done..]. intros [= <-]. eauto. Qed.

(** What a record [__init__] returns is made of. *)
Lemma Subject_init_Loaded filename fh sf :
  Subject_init filename fh = Some (Loaded sf) →
  ∃ name type color lines times locations,
    read_name filename = Some name ∧
    read_lines lines [] [] = Loaded (times, locations) ∧
    sf = mk_subject_file (Subject.mk name times type ∅) locations color (times.*1).
Proof.
  rewrite Subject_init_read_lines.
  destruct (read_name filename) as [name|]; [|done].
  destruct (read_type _) as [type|]; [|done]. cbv zeta.
  destruct (read_color _) as [color|]; intros [= H];
    apply loaded_subject_Loaded in H as (times & locations & Hr & ->);
    by eexists name, type, _, _, times, locations.
Qed.

Lemma read_name_txt name :
  name ≠ "" → all_chars re_any name → read_name (name +:+ ".txt") = Some name.
Proof.
  intros Hne Hany. unfold read_name, re_search.
  assert (re_k name_pattern 0 (name +:+ ".txt") [] (fun _ _ caps => Some caps)
          = Some [(1%nat, name)]) as Hm.
  { unfold name_pattern. cbn [cats foldr re_k literal].
    apply rep_k_suffix.
    - done.
    - destruct name; [done|cbn; lia].
    - cbn. rewrite Nat.sub_0_r. by rewrite string_take_app.
    - intros i Hi. cbn [String.length] in Hi.
      destruct i as [|[|[|[|[|i]]]]]; try lia; reflexivity. }
  rewrite (re_search_from_hit _ _ _ _ Hm). cbn. by rewrite decide_True.
Qed.

Lemma re_search_pair p q pos text :
  is_Some (re_search_from (Cat (Chr p) (Chr q)) pos text) ↔ contains_pair p q text.
Proof.
  revert pos. induction text as [|a text IH]; intros pos.
  - cbn. split; [by intros [? ?]|]. intros (pre & x & y & post & Heq & _).
    destruct pre; by rewrite ?append_cons in Heq.
  - cbn [re_search_from re_k].
    destruct (p a) eqn:Hp; [destruct text as [|b text'] eqn:Ht; [|destruct (q b) eqn:Hq]|].
    + split; [by intros [? ?]|]. intros (pre & x & y & post & Heq & _).
      destruct pre as [|? [|]]; by rewrite ?append_cons, ?append_nil_l in Heq.
    + split; [|by eauto]. intros _. exists "", a, b, text'. by rewrite append_nil_l.
    + rewrite <- Ht in *. rewrite IH. split.
      * intros (pre & x & y & post & -> & ? & ?). exists (String a pre), x, y, post.
        by rewrite append_cons.
      * intros (pre & x & y & post & Heq & Hx & Hy). destruct pre as [|a' pre].
        -- rewrite append_nil_l in Heq. rewrite Ht in Heq. injection Heq as -> -> ->. congruence.
        -- rewrite append_cons in Heq. injection Heq as -> Heq. by exists pre, x, y, post.
    + rewrite IH. split.
      * intros (pre & x & y & post & -> & ? & ?). exists (String a pre), x, y, post.
        by rewrite append_cons.
      * intros (pre & x & y & post & Heq & Hx & Hy). destruct pre as [|a' pre].
        -- rewrite append_nil_l in Heq. injection Heq as -> ->. congruence.
        -- rewrite append_cons in Heq. injection Heq as -> Heq. by exists pre, x, y, post.
Qed.

End reading.

(** X21. A well-formed file gives the subject it describes.  For a file
    [name.txt] whose first line names the type, whose second line is a
    colour and whose following lines, up to a blank line or the end of the
    file, are all readable lines of times, [Subject(filename)] has that
    name, type and colour, the times and the locations of the lines in the
    order of the file, and nothing allocated. *)
Theorem Subject_init_well_formed name l1 type l2 color lines entries rest :
  name ≠ "" → all_chars re_any name →
  read_type (rstrip l1) = Some type →
  read_color (rstrip l2) = Some color →
  Forall2 (fun line e => read_time_line (rstrip line) = Loaded e) lines entries →
  rstrip (readline rest).1 = "" →
  Subject_init (name +:+ ".txt") (l1 :: l2 :: lines ++ rest)
  = Some (Loaded (mk_subject_file (Subject.mk name entries.*1 type ∅) entries.*2 color
                                  entries.*1.*1)).
Proof.
  intros Hne Hany Hty Hcol Hlines Hrest.
  rewrite Subject_init_read_lines, read_name_txt by done.
  cbn [readline fst snd]. rewrite Hty. cbv zeta. cbn [readline fst snd]. rewrite Hcol.
  rewrite (read_lines_entries _ _ _ _ _ Hlines), read_lines_end by done.
  done.
Qed.

Lemma Subject_init_well_formed_witness :
  Subject_init "Mathe.txt" example_file
  = Some (Loaded (mk_subject_file
                    (mk_subject "Mathe" UE [slot 1 8 0 9 30; slot 3 10 0 11 30])
                    ["Audimax"; "other place"] (Color_rgb 70 130 180)
                    [mk_datetime (day0 + 1) 8 0; mk_datetime (day0 + 3) 10 0])) ∧
  Subject_init "Mathe.txt"
    [line "VO"; line "red"; line ("Mo 8:00-9:30 H" +:+ String o_umlaut "rsaal");
     line (String no_break_space ""); line "Di 8:00-9:30"]
  = Some (Loaded (mk_subject_file
                    (mk_subject "Mathe" VO [slot 0 8 0 9 30])
                    ["H" +:+ String o_umlaut "rsaal"] (Color_name "red")
                    [mk_datetime (day0 + 0) 8 0])).
Proof.
  split.
  - refine (Subject_init_well_formed "Mathe" (line "UE") UE (line "70,130,180")
              (Color_rgb 70 130 180)
              [line "Di 8:00-9:30 Audimax"; line "Do 10:00-11:30 other place"]
              [(slot 1 8 0 9 30, "Audimax"); (slot 3 10 0 11 30, "other place")] []
              _ _ _ _ _ _); try reflexivity; try done.
    + by repeat constructor.
    + by repeat constructor.
  - refine (Subject_init_well_formed "Mathe" (line "VO") VO (line "red") (Color_name "red")
              [line ("Mo 8:00-9:30 H" +:+ String o_umlaut "rsaal")]
              [(slot 0 8 0 9 30, "H" +:+ String o_umlaut "rsaal")]
              [line (String no_break_space ""); line "Di 8:00-9:30"]
              _ _ _ _ _ _); try reflexivity; try done.
    + by repeat constructor.
    + by repeat constructor.
Defined.

(** X22. The first line of times that cannot be read ends the run, whatever
    comes after it: with [sys.exit()] when the line does not have the form
    of a line of times or names no week day, with an uncaught exception when
    its hours or minutes are out of range. *)
Theorem Subject_init_bad_line name l1 type l2 color lines entries bad post :
  name ≠ "" → all_chars re_any name →
  read_type (rstrip l1) = Some type →
  read_color (rstrip l2) = Some color →
  Forall2 (fun line e => read_time_line (rstrip line) = Loaded e) lines entries →
  rstrip bad ≠ "" →
  (read_time_line (rstrip bad) = Exits →
   Subject_init (name +:+ ".txt") (l1 :: l2 :: lines ++ bad :: post) = Some Exits) ∧
  (read_time_line (rstrip bad) = Crashes →
   Subject_init (name +:+ ".txt") (l1 :: l2 :: lines ++ bad :: post) = Some Crashes).
Proof.
  intros Hne Hany Hty Hcol Hlines Hbad.
  rewrite Subject_init_read_lines, read_name_txt by done.
  cbn [readline fst snd]. rewrite Hty. cbv zeta. cbn [readline fst snd]. rewrite Hcol.
  rewrite (read_lines_entries _ _ _ _ _ Hlines). cbn [read_lines].
  rewrite decide_False by done. by split; intros ->.
Qed.

Lemma Subject_init_bad_line_witness :
  Subject_init "Mathe.txt"
    [line "UE"; line "steelblue"; line "Di 8:00-9:30"; line "Tue 8:00-9:30";
     line "Do 10:00-11:30"] = Some Exits ∧
  Subject_init "Mathe.txt"
    [line "UE"; line "steelblue"; line "Di 8:00-9:30"; line "Mi 8:00-9:70";
     line "Do 10:00-11:30"] = Some Crashes ∧
  Subject_init "Mathe.txt"
    [line "UE"; line "steelblue"; line "Di 8:00-9:30";
     line ("Di" +:+ String o_umlaut " 8:00-9:30"); line "Do 10:00-11:30"] = Some Exits.
Proof.
  split_and!.
  - refine (proj1 (Subject_init_bad_line "Mathe" (line "UE") UE (line "steelblue")
                     (Color_name "steelblue") [line "Di 8:00-9:30"] [(slot 1 8 0 9 30, "")]
                     (line "Tue 8:00-9:30") [line "Do 10:00-11:30"] _ _ _ _ _ _) _);
      try reflexivity; try done; by repeat constructor.
  - refine (proj2 (Subject_init_bad_line "Mathe" (line "UE") UE (line "steelblue")
                     (Color_name "steelblue") [line "Di 8:00-9:30"] [(slot 1 8 0 9 30, "")]
                     (line "Mi 8:00-9:70") [line "Do 10:00-11:30"] _ _ _ _ _ _) _);
      try reflexivity; try done; by repeat constructor.
  - refine (proj1 (Subject_init_bad_line "Mathe" (line "UE") UE (line "steelblue")
                     (Color_name "steelblue") [line "Di 8:00-9:30"] [(slot 1 8 0 9 30, "")]
                     (line ("Di" +:+ String o_umlaut " 8:00-9:30")) [line "Do 10:00-11:30"]
                     _ _ _ _ _ _) _);
      try reflexivity; try done; by repeat constructor.
Defined.

(** X23. Reading stops at the first blank line: a line of white space only,
    and everything after it, is as good as the end of the file. *)
Theorem Subject_init_blank_line filename pre blank post :
  rstrip blank = "" →
  Subject_init filename (pre ++ blank :: post) = Subject_init filename pre.
Proof.
  intros Hb. rewrite !Subject_init_read_lines.
  destruct (read_name filename) as [name|]; [|done].
  destruct pre as [|l1 [|l2 pre]]; cbn [app readline fst snd].
  - by rewrite Hb.
  - destruct (read_type (rstrip l1)) as [type|]; [|done]. cbv zeta.
    cbn [readline fst snd]. rewrite Hb, rstrip_nil, read_color_nil.
    cbn [read_lines]. by rewrite decide_True.
  - destruct (read_type (rstrip l1)) as [type|]; [|done]. cbv zeta.
    cbn [readline fst snd]. destruct (read_color (rstrip l2)).
    + by rewrite read_lines_blank.
    + do 2 f_equal. exact (read_lines_blank (l2 :: pre) blank post [] [] Hb).
Qed.

Lemma Subject_init_blank_line_witness :
  Subject_init "Mathe.txt"
    [line "UE"; line "Di 8:00-9:30"; line " "; line "Do 10:00-11:30"; line "no time"]
  = Subject_init "Mathe.txt" [line "UE"; line "Di 8:00-9:30"].
Proof.
  exact (Subject_init_blank_line "Mathe.txt" [line "UE"; line "Di 8:00-9:30"] (line " ")
           [line "Do 10:00-11:30"; line "no time"] eq_refl).
Defined.

(** X24. The colour line is optional.  When the line after the type is no
    colour it is read as the first line of times, and the file gives what
    it would give with a colour line put in, but for the colour, which is
    the grey (127, 127, 127). *)
Theorem Subject_init_color_optional filename l1 cl c rest :
  read_color (rstrip cl) = Some c →
  read_color (rstrip (readline rest).1) = None →
  Subject_init filename (l1 :: rest)
  = with_color (Color_rgb 127 127 127) <$> Subject_init filename (l1 :: cl :: rest).
Proof.
  intros Hc Hn. rewrite !Subject_init_read_lines.
  destruct (read_name filename) as [name|]; [|done].
  cbn [readline fst snd].
  destruct (read_type (rstrip l1)) as [type|]; [|done]. cbv zeta.
  cbn [readline fst snd]. rewrite Hc, Hn.
  by destruct (read_lines rest [] []) as [[??]| |].
Qed.

Lemma Subject_init_color_optional_witness :
  Subject_init "Mathe.txt" [line "UE"; line "Di 8:00-9:30"]
  = with_color (Color_rgb 127 127 127)
      <$> Subject_init "Mathe.txt" [line "UE"; line "#4682b4"; line "Di 8:00-9:30"].
Proof.
  exact (Subject_init_color_optional "Mathe.txt" (line "UE") (line "#4682b4")
           (Color_name "#4682b4") [line "Di 8:00-9:30"] eq_refl eq_refl).
Defined.

(** X25. The type of a subject is "UE" exactly when its first line has a
    "U" or "u" directly followed by an "E" or "e" anywhere, and "VO" exactly
    when it has no such pair but a "V" or "v" directly followed by an "O" or
    "o": a line that has both pairs is read as "UE". *)
Theorem read_type_spec line :
  (read_type line = Some UE ↔
   contains_pair (one_of ["U"; "u"]%char) (one_of ["E"; "e"]%char) line) ∧
  (read_type line = Some VO ↔
   ¬ contains_pair (one_of ["U"; "u"]%char) (one_of ["E"; "e"]%char) line ∧
   contains_pair (one_of ["V"; "v"]%char) (one_of ["O"; "o"]%char) line).
Proof.
  unfold read_type, re_search, ue_pattern, vo_pattern.
  rewrite <- !(re_search_pair _ _ 0).
  destruct (re_search_from (Cat _ _) 0 line) as [m|];
    [|destruct (re_search_from (Cat _ _) 0 line) as [m|]].
  - split; [by split; eauto|]. split; [done|]. intros [H _]. destruct H. eauto.
  - split; [split; [done|by intros [? ?]]|]. split; [|done]. intros _.
    split; [by intros [? ?]|eauto].
  - split; [split; [done|by intros [? ?]]|]. split; [done|]. by intros [_ [? ?]].
Qed.

(** X26. [Subject(filename)] always ends: with a record, with [sys.exit()]
    or with an uncaught exception.  A record it returns has nothing
    allocated, as many locations as times, the beginnings of its times as
    [start_times], and times whose two instants are minutes of the week that
    begins on [day0]. *)
Theorem Subject_init_returns filename fh :
  ∃ r, Subject_init filename fh = Some r ∧
       ∀ sf, r = Loaded sf →
             Subject.fresh (subject sf) ∧
             length (locations sf) = length (Subject.times (subject sf)) ∧
             start_times sf = (Subject.times (subject sf)).*1 ∧
             Forall (fun t => 0 ≤ t.1 < 7 * 24 * 60 ∧ 0 ≤ t.2 < 7 * 24 * 60)
                    (Subject.times (subject sf)).
Proof.
  assert (is_Some (Subject_init filename fh)) as [r Hr].
  { rewrite Subject_init_read_lines. destruct (read_name filename); [|by eauto].
    destruct (read_type _); [|by eauto]. cbv zeta. destruct (read_color _); eauto. }
  exists r. split; [done|]. intros sf ->.
  apply Subject_init_Loaded in Hr
    as (name & type & color & lines & times & locations & _ & Hl & ->).
  cbn. split_and!; [done| |done|].
  - symmetry. by eapply read_lines_lengths.
  - refine (read_lines_Forall _ _ _ _ _ _ _ Hl _); [|done].
    intros line [t1 t2] location H. by apply read_time_line_range in H.
Qed.

(** X27. The name of a subject is the file name without its last [.txt],
    for a file name that has at least one character before it and no line
    break. *)
Theorem Subject_init_name name fh sf :
  name ≠ "" → all_chars re_any name →
  Subject_init (name +:+ ".txt") fh = Some (Loaded sf) →
  Subject.name (subject sf) = name.
Proof.
  intros Hne Hany H.
  apply Subject_init_Loaded in H as (name' & type & color & lines & times & locations & Hn & _ & ->).
  rewrite read_name_txt in Hn by done. by injection Hn as <-.
Qed.

Lemma Subject_init_name_witness :
  ∃ sf, Subject_init "a.txt.txt" example_file = Some (Loaded sf) ∧
        Subject.name (subject sf) = "a.txt".
Proof.
  eexists. split; [reflexivity|].
  refine (Subject_init_name "a.txt" example_file _ _ _ eq_refl); [done|by repeat constructor].
Defined.

(** ** The text table *)

Section time_labels.

Lemma re_digit_digit x : 0 ≤ x < 10 → re_digit (digit x) = true.
Proof.
  intros Hx.
  assert (x = 0 ∨ x = 1 ∨ x = 2 ∨ x = 3 ∨ x = 4 ∨ x = 5 ∨ x = 6 ∨ x = 7 ∨ x = 8 ∨ x = 9)
    as H by lia.
  repeat (destruct H as [->|H]; [reflexivity|]). by subst.
Qed.

Lemma re_k_Chr_hit {R} p a rest pos caps (k : nat → string → captures → option R) :
  p a = true → re_k (Chr p) pos (String a rest) caps k = k (S pos) rest caps.
Proof. intros H. cbn [re_k]. by rewrite H. Qed.

Lemma re_k_Cat {R} r1 r2 pos text caps (k : nat → string → captures → option R) :
  re_k (Cat r1 r2) pos text caps k
  = re_k r1 pos text caps (fun pos' text' caps' => re_k r2 pos' text' caps' k).
Proof. reflexivity. Qed.

Lemma re_k_Group {R} n r pos text caps (k : nat → string → captures → option R) :
  re_k (Group n r) pos text caps k
  = re_k r pos text caps
      (fun pos' text' caps' => k pos' text' ((n, string_take (pos' - pos) text) :: caps')).
Proof. reflexivity. Qed.

Lemma re_k_Eps {R} pos text caps (k : nat → string → captures → option R) :
  re_k Eps pos text caps k = k pos text caps.
Proof. reflexivity. Qed.

Lemma re_search_from_miss pattern pos a rest :
  re_k pattern pos (String a rest) [] (fun _ _ caps => Some caps) = None →
  re_search_from pattern pos (String a rest) = re_search_from pattern (S pos) rest.
Proof. intros H. cbn [re_search_from]. by rewrite H. Qed.

(** [dtpat] finds the hours and minutes in a date of this century. *)
Lemma dtpat_search y1 y2 l1 l2 d1 d2 h1 h2 m1 m2 s1 s2 :
  re_digit y1 = true → re_digit y2 = true → re_digit l1 = true → re_digit l2 = true →
  re_digit d1 = true → re_digit d2 = true → re_digit h1 = true → re_digit h2 = true →
  re_digit m1 = true → re_digit m2 = true → re_digit s1 = true → re_digit s2 = true →
  re_search dtpat
    (String "2" (String "0" (String y1 (String y2 (String "-" (String l1 (String l2
       (String "-" (String d1 (String d2 (String " " (String h1 (String h2 (String ":"
          (String m1 (String m2 (String ":" (String s1 (String s2 "")))))))))))))))))))
  = Some [(1%nat, String h1 (String h2 (String ":" (String m1 (String m2 "")))))].
Proof.
  intros Hy1 Hy2 Hl1 Hl2 Hd1 Hd2 Hh1 Hh2 Hm1 Hm2 Hs1 Hs2. unfold re_search.
  assert (re_digit "2" = true) as H2 by reflexivity.
  assert (re_digit "0" = true) as H0 by reflexivity.
  assert (∀ c, one_of [c] c = true) as Hc.
  { intros c. apply bool_decide_eq_true_2. by apply list_elem_of_singleton. }
  assert (∀ c, re_digit c = true → one_of ["-"%char] c = false) as Hdash.
  { intros [[] [] [] [] [] [] [] []]; by vm_compute. }
  rewrite re_search_from_miss.
  2:{ unfold dtpat. cbn [cats foldr].
      repeat (first [rewrite re_k_Cat | rewrite re_k_Group | rewrite re_k_Eps
                    | rewrite re_k_Chr_hit by (first [assumption | apply Hc])]; cbn beta).
      cbn [re_k]. by rewrite (Hdash y1). }
  rewrite re_search_from_miss.
  2:{ unfold dtpat. cbn [cats foldr].
      repeat (first [rewrite re_k_Cat | rewrite re_k_Group | rewrite re_k_Eps
                    | rewrite re_k_Chr_hit by (first [assumption | apply Hc])]; cbn beta).
      cbn [re_k]. by rewrite (Hdash y2). }
  apply re_search_from_hit.
  unfold dtpat. cbn [cats foldr].
  repeat (first [rewrite re_k_Cat | rewrite re_k_Group | rewrite re_k_Eps
                | rewrite re_k_Chr_hit by (first [assumption | apply Hc])]; cbn beta).
  reflexivity.
Qed.

Lemma two_digits_chars n :
  0 ≤ n < 100 →
  ∃ a b, two_digits n = String a (String b "") ∧ re_digit a = true ∧ re_digit b = true.
Proof.
  intros Hn. exists (digit (n / 10)), (digit (n mod 10)). split; [done|].
  split; apply re_digit_digit; [|by apply Z.mod_pos_bound].
  split; [by apply Z.div_pos; lia|]. apply Z.div_lt_upper_bound; lia.
Qed.

Lemma time_label t :
  0 ≤ t < 7 * 24 * 60 →
  re_search dtpat (str_datetime t) ≫= (fun m => group m 1)
  = Some (two_digits (dt_hour t) +:+ ":" +:+ two_digits (dt_minute t)).
Proof.
  intros Ht. unfold str_datetime.
  assert (0 ≤ dt_day t < 100) as Hd.
  { unfold dt_day, day0. pose proof (Z.div_pos t (24 * 60)).
    pose proof (Z.div_lt_upper_bound t (24 * 60) 7). lia. }
  assert (0 ≤ dt_hour t < 100) as Hh.
  { unfold dt_hour. pose proof (Z.mod_pos_bound (t / 60) 24). lia. }
  assert (0 ≤ dt_minute t < 100) as Hm.
  { unfold dt_minute. pose proof (Z.mod_pos_bound t 60). lia. }
  destruct (two_digits_chars _ Hd) as (d1 & d2 & -> & ? & ?).
  destruct (two_digits_chars _ Hh) as (h1 & h2 & -> & ? & ?).
  destruct (two_digits_chars _ Hm) as (m1 & m2 & -> & ? & ?).
  change (pretty year) with "2017". change (two_digits month) with "10".
  change (two_digits 0) with "00".
  rewrite !append_cons, !append_nil_l.
  rewrite dtpat_search by (done || reflexivity).
  cbn. by rewrite decide_True.
Qed.

End time_labels.

Section writing.

Context (table : gmap Z string).

Lemma append_assoc (s1 s2 s3 : string) : (s1 +:+ s2) +:+ s3 = s1 +:+ (s2 +:+ s3).
Proof. induction s1 as [|a s1 IH]; [done|]. by rewrite !append_cons, IH. Qed.

Lemma write_cells_spec days t fh :
  (∀ d, (d < days)%nat → is_Some (table !! (t + 24 * 60 * Z.of_nat d))) →
  write_cells days table t fh
  = Some (t + 24 * 60 * Z.of_nat days,
          fh +:+ join ((fun d : nat => center field_width
                                         (default "" (table !! (t + 24 * 60 * Z.of_nat d))))
                         <$> seq 0 days)).
Proof.
  revert t fh. induction days as [|days IH]; intros t fh Hcells.
  - cbn. by rewrite Z.add_0_r, append_nil_r.
  - cbn [write_cells]. destruct (Hcells 0%nat) as [cell Hcell]; [lia|].
    rewrite Z.mul_0_r, Z.add_0_r in Hcell. rewrite Hcell. cbn [mbind option_bind].
    rewrite IH.
    + f_equal. f_equal; [lia|]. rewrite append_assoc. f_equal.
      cbn [seq fmap list_fmap join foldr]. rewrite Z.mul_0_r, Z.add_0_r, Hcell. cbn [default].
      f_equal. rewrite <- fmap_S_seq, <- list_fmap_compose. f_equal.
      apply list_fmap_ext. intros _ d _. cbn. do 3 f_equal. lia.
    + intros d Hd. specialize (Hcells (S d)).
      replace (t + 24 * 60 + 24 * 60 * Z.of_nat d) with (t + 24 * 60 * Z.of_nat (S d)) by lia.
      apply Hcells. lia.
Qed.

(** The row that begins at the instant [t] of the first day. *)
Lemma write_cells_row t fh :
  0 ≤ t < 24 * 60 →
  (∀ d, 0 ≤ d < no_of_days → is_Some (table !! mk_datetime (day0 + d) (t / 60) (t mod 60))) →
  write_cells (Z.to_nat no_of_days) table t
              (fh +:+ ljust 6 (two_digits (dt_hour t) +:+ ":" +:+ two_digits (dt_minute t)))
  = Some (t + 24 * 60 * no_of_days,
          fh +:+
          (ljust 6 (two_digits (t / 60) +:+ ":" +:+ two_digits (t mod 60)) +:+
           join ((fun d => center field_width
                             (default "" (table !! mk_datetime (day0 + d) (t / 60) (t mod 60))))
                   <$> zrange 0 no_of_days))).
Proof.
  intros Ht Hcells.
  assert (∀ d, mk_datetime (day0 + d) (t / 60) (t mod 60) = t + 24 * 60 * d) as Hmk.
  { intros d. unfold mk_datetime. pose proof (Z.div_mod t 60). lia. }
  rewrite write_cells_spec.
  2:{ intros d Hd. rewrite <- Hmk. apply Hcells. unfold no_of_days in *. lia. }
  assert (dt_hour t = t / 60) as ->.
  { unfold dt_hour. apply Z.mod_small. split; [apply Z.div_pos; lia|].
    apply Z.div_lt_upper_bound; lia. }
  unfold dt_minute. rewrite append_assoc.
  replace (Z.of_nat (Z.to_nat no_of_days)) with no_of_days by (unfold no_of_days; lia).
  do 5 f_equal.
  unfold zrange. rewrite <- list_fmap_compose. apply list_fmap_ext.
  intros _ d _. cbn. by rewrite Hmk, Z.add_0_l.
Qed.

End writing.

Section rows.

Context (table : gmap Z string).
Context (Hcells : ∀ k, k ∈ dt_by_index → is_Some (table !! k)).

Lemma write_rows_spec n : ∀ fuel (i : nat) fh,
  (i + n = 132)%nat → (n < fuel)%nat →
  write_rows fuel table (mk_datetime day0 start_of_day 0 + 5 * Z.of_nat i) fh
  = Done (fh +:+ join (ascii_row table
                         <$> ((fun j : nat => start_of_day * 60 + 5 * Z.of_nat j) <$> seq i n))).
Proof.
  induction n as [|n IH]; intros fuel i fh Hi Hfuel;
    (destruct fuel as [|fuel]; [lia|]); cbn [write_rows].
  - rewrite decide_False; [by rewrite append_nil_r|].
    unfold dt_hour, mk_datetime, day0, start_of_day, end_of_day.
    replace (((2 - 2) * 24 + 8) * 60 + 0 + 5 * Z.of_nat i) with (19 * 60) by lia. done.
  - set (t := mk_datetime day0 start_of_day 0 + 5 * Z.of_nat i).
    assert (t = start_of_day * 60 + 5 * Z.of_nat i) as Ht'
      by (unfold t, mk_datetime, day0, start_of_day; lia).
    assert (start_of_day * 60 ≤ t < end_of_day * 60) as Ht
      by (unfold start_of_day, end_of_day in *; lia).
    assert (start_of_day ≤ t / 60 < end_of_day) as Hh.
    { unfold start_of_day, end_of_day in *. split.
      - apply Z.div_le_lower_bound; lia.
      - apply Z.div_lt_upper_bound; lia. }
    assert (dt_hour t = t / 60) as Hhour.
    { unfold dt_hour. apply Z.mod_small. unfold start_of_day, end_of_day in *. lia. }
    rewrite decide_True by (rewrite Hhour; lia).
    rewrite time_label by (unfold start_of_day, end_of_day in *; lia).
    rewrite write_cells_row.
    + replace (t + 24 * 60 * no_of_days + (- no_of_days * (24 * 60) + 5))
        with (mk_datetime day0 start_of_day 0 + 5 * Z.of_nat (S i)) by (unfold t; lia).
      rewrite IH by lia. f_equal.
      cbn [seq fmap list_fmap join foldr]. rewrite <- Ht'.
      unfold ascii_row at 2. by rewrite !append_assoc.
    + unfold start_of_day, end_of_day in *. lia.
    + intros d Hd. apply Hcells, dt_by_index_elem_of.
      exists "". apply blank_schedule_lookup. split; [done|].
      exists (day0 + d), (t / 60), (t mod 60). split; [done|].
      pose proof (Z.mod_pos_bound t 60). unfold no_of_days in *.
      split_and!; try lia.
      rewrite Ht'. unfold start_of_day. clear. 
      Z.to_euclidean_division_equations. lia.
Qed.

End rows.

Section saved.

Lemma init_has_cells subjects alloc_by_subj schedule subjects' :
  Schedule.init subjects alloc_by_subj blank_schedule dt_by_index = Some (schedule, subjects') →
  has_cells schedule.
Proof.
  unfold Schedule.init. intros (placed & Ha & _)%create_schedule_unfold.
  apply allocate_unfold in Ha as (table1 & subjects1 & H1 & H2).
  apply phase1_step in H1 as [[_ T1] _]. apply phase2_step in H2 as [[_ T2] _].
  intros k [v Hk]%dt_by_index_elem_of.
  assert (is_Some (table1 !! k)) as [v1 Hk1].
  { destruct (T1 k) as [->|(_ & n & _ & ->)]; eauto. }
  destruct (T2 k) as [->|(_ & n & _ & ->)]; eauto.
Qed.

Lemma submit_has_cells schedule saved dups saved' dups' :
  submit schedule saved dups = Some (saved', dups') →
  has_cells schedule → Forall has_cells saved → Forall has_cells saved'.
Proof.
  destruct (submit_cases schedule saved dups)
    as [(_ & ->)|[(_ & _ & ->)|(Hf & _ & ->)]]; intros [= <- <-]; try done.
  intros Hs Hsaved. apply Forall_app. split; [done|]. by constructor.
Qed.

Lemma percolate_has_cells fuel st st' :
  percolate fuel st = Done st' →
  Forall has_cells (saved_schedules st) → Forall has_cells (saved_schedules st').
Proof.
  revert st st'. induction fuel as [|fuel IH]; intros st st'; [done|].
  rewrite percolate_S.
  destruct (find_reached_end (alloc_by_subj st)); [by intros [= <-]|].
  destruct (mapM Allocation.enables_timeslot (alloc_by_subj st)) as [perm_check|]; [|done].
  case_decide; [by intros [= <-]|].
  destruct (Schedule.init _ _ _ _) as [[schedule subjects']|] eqn:Hinit; [|done].
  destruct (submit schedule (saved_schedules st) (duplicates st)) as [[saved' dups']|] eqn:Hs;
    [|done].
  intros Hn Hsaved.
  eapply (neighbours_invariant (fun s => Forall has_cells (saved_schedules s)));
    [| |  |exact Hn]; cbn.
  - done.
  - intros s s' Hs' Hp. by eapply IH.
  - eapply submit_has_cells; [done| |done]. by eapply init_has_cells.
Qed.

Lemma blank_saved_has_cells : has_cells blank_saved.
Proof. intros k Hk. by apply dt_by_index_elem_of. Qed.

End saved.

Section layout.

Lemma length_append (s1 s2 : string) :
  String.length (s1 +:+ s2) = (String.length s1 + String.length s2)%nat.
Proof. induction s1 as [|a s1 IH]; [done|]. rewrite append_cons. cbn. by rewrite IH. Qed.

Lemma length_spaces n : String.length (spaces n) = n.
Proof. induction n as [|n IH]; [done|]. cbn. by rewrite IH. Qed.

Lemma length_center width s :
  String.length (center width s) = (width `max` String.length s)%nat.
Proof.
  unfold center. rewrite !length_append, !length_spaces.
  pose proof (Nat.Div0.div_le_upper_bound (width - String.length s) 2 (width - String.length s)).
  lia.
Qed.

Lemma length_ljust width s :
  String.length (ljust width s) = (width `max` String.length s)%nat.
Proof. unfold ljust. rewrite length_append, length_spaces. lia. Qed.

Lemma length_join_constant (w : nat) (l : list string) :
  Forall (fun s => String.length s = w) l → String.length (join l) = (length l * w)%nat.
Proof.
  induction 1 as [|s l Hs _ IH]; [done|].
  change (join (s :: l)) with (s +:+ join l).
  rewrite length_append, IH, Hs. cbn [length]. lia.
Qed.

Lemma all_chars_append p (s1 s2 : string) :
  all_chars p (s1 +:+ s2) ↔ all_chars p s1 ∧ all_chars p s2.
Proof.
  unfold all_chars. induction s1 as [|a s1 IH].
  - rewrite append_nil_l. cbn. split; [by split|by intros [_ ?]].
  - rewrite append_cons. cbn. rewrite !Forall_cons, IH. tauto.
Qed.

Lemma all_chars_spaces p n : p " "%char = true → all_chars p (spaces n).
Proof. intros Hp. induction n as [|n IH]; [by constructor|]. by constructor. Qed.

Lemma all_chars_join p (l : list string) : Forall (all_chars p) l → all_chars p (join l).
Proof.
  induction 1 as [|s l Hs _ IH]; [by constructor|].
  change (join (s :: l)) with (s +:+ join l). by apply all_chars_append.
Qed.

Lemma all_chars_center p width s :
  p " "%char = true → all_chars p s → all_chars p (center width s).
Proof.
  intros Hp Hs. unfold center. rewrite !all_chars_append.
  split_and!; [by apply all_chars_spaces|done|by apply all_chars_spaces].
Qed.

Lemma all_chars_ljust p width s :
  p " "%char = true → all_chars p s → all_chars p (ljust width s).
Proof.
  intros Hp Hs. unfold ljust. rewrite all_chars_append. split; [done|by apply all_chars_spaces].
Qed.

Lemma digit_any a : re_digit a = true → re_any a = true.
Proof. destruct a as [[] [] [] [] [] [] [] []]; by vm_compute. Qed.

Lemma two_digits_line n :
  0 ≤ n < 100 → String.length (two_digits n) = 2%nat ∧ all_chars re_any (two_digits n).
Proof.
  intros (a & b & -> & Ha & Hb)%two_digits_chars. split; [done|].
  repeat constructor; by apply digit_any.
Qed.

(** The header and a row without their line break. *)
Lemma toprow_line :
  ∃ l, toprow = l +:+ String newline "" ∧ String.length l = 156%nat ∧ table_line l.
Proof.
  exists ("      " +:+ join (center field_width <$> take (Z.to_nat no_of_days) weekdays)).
  split; [unfold toprow; by rewrite append_assoc|]. split; [reflexivity|].
  exists "      ", (center field_width <$> take (Z.to_nat no_of_days) weekdays).
  split_and!; [done|done|done|by repeat constructor|].
  unfold all_chars. apply (bool_decide_unpack _). vm_compute. reflexivity.
Qed.

Lemma ascii_row_line table m :
  start_of_day * 60 ≤ m < end_of_day * 60 →
  (∀ k v, table !! k = Some v →
          (String.length v ≤ field_width)%nat ∧ all_chars re_any v) →
  ∃ l, ascii_row table m = l +:+ String newline "" ∧
       String.length l = 156%nat ∧ table_line l.
Proof.
  intros Hm Hnames. unfold ascii_row.
  set (label := ljust 6 _).
  set (fields := _ <$> zrange 0 no_of_days).
  assert (0 ≤ m / 60 < 100) as Hh.
  { unfold start_of_day, end_of_day in Hm. split.
    - apply Z.div_pos; lia.
    - apply Z.div_lt_upper_bound; lia. }
  assert (0 ≤ m mod 60 < 100) as Hmin by (pose proof (Z.mod_pos_bound m 60); lia).
  destruct (two_digits_line _ Hh) as [Hl1 Ha1], (two_digits_line _ Hmin) as [Hl2 Ha2].
  assert (String.length label = 6%nat) as Hlabel.
  { unfold label. rewrite length_ljust, !length_append, Hl1, Hl2. reflexivity. }
  assert (all_chars re_any label) as Halabel.
  { unfold label. apply all_chars_ljust; [done|]. rewrite !all_chars_append.
    split_and!; [done| |done]. by repeat constructor. }
  assert (Forall (fun f => String.length f = field_width ∧ all_chars re_any f) fields)
    as Hfields.
  { unfold fields. apply Forall_fmap, Forall_forall. intros d _. cbn.
    rewrite length_center.
    destruct (table !! _) as [v|] eqn:Hv; cbn.
    - destruct (Hnames _ _ Hv) as [Hlen Hany]. split; [lia|].
      by apply all_chars_center.
    - split; [unfold field_width; lia|]. apply all_chars_center; [done|constructor]. }
  assert (length fields = Z.to_nat no_of_days) as Hcount.
  { unfold fields, zrange. by rewrite !length_fmap, length_seq, Z.sub_0_r. }
  exists (label +:+ join fields). split; [by rewrite append_assoc|]. split.
  - rewrite length_append, Hlabel, (length_join_constant field_width), Hcount.
    + reflexivity.
    + eapply Forall_impl; [exact Hfields|]. by intros f [? _].
  - exists label, fields. split_and!; [done|done|done| |].
    + eapply Forall_impl; [exact Hfields|]. by intros f [? _].
    + apply all_chars_append. split; [done|]. apply all_chars_join.
      eapply Forall_impl; [exact Hfields|]. by intros f [_ ?].
Qed.

Lemma zrange_step_rows :
  zrange_step (start_of_day * 60) (end_of_day * 60) 5
  = (fun j : nat => start_of_day * 60 + 5 * Z.of_nat j) <$> seq 0 132.
Proof. reflexivity. Qed.

End layout.

(** X28. [fancy_write] writes every cell of the grid once, row by row, and
    ends.  For a schedule whose table has a cell for every instant of the
    grid and whose version is set, and with fuel for the 132 rows, no
    [KeyError] is raised: the file is named after [create_filename] and
    holds the row of day names and then one row for every five minutes from
    [start_of_day] up to [end_of_day], made of the time and, for each of the
    [no_of_days] days, the cell of that day at that time. *)
Theorem fancy_write_table (fuel : nat) (schedule : Schedule.t) (name : string) :
  has_cells schedule → create_filename schedule = Some name → (132 < fuel)%nat →
  fancy_write fuel schedule
  = Done ("./schedules/" +:+ name +:+ "ascii.txt",
          toprow +:+ join (ascii_rows (Schedule.table schedule))).
Proof.
  intros Hcells Hname Hfuel. unfold fancy_write. rewrite Hname.
  pose proof (write_rows_spec (Schedule.table schedule) Hcells 132 fuel 0 toprow eq_refl Hfuel)
    as H.
  rewrite Z.add_0_r in H. rewrite H. unfold ascii_rows. by rewrite zrange_step_rows.
Qed.

Lemma fancy_write_table_witness :
  fancy_write 133 blank_saved
  = Done ("./schedules/schedule1ascii.txt", toprow +:+ join (ascii_rows blank_schedule)).
Proof.
  apply (fancy_write_table 133 blank_saved "schedule1");
    [apply blank_saved_has_cells|reflexivity|lia].
Defined.

Lemma ascii_rows_lines table (ms : list Z) :
  Forall (fun m => start_of_day * 60 ≤ m < end_of_day * 60) ms →
  (∀ k v, table !! k = Some v →
          (String.length v ≤ field_width)%nat ∧ all_chars re_any v) →
  ∃ lines, ascii_row table <$> ms = (fun l => l +:+ String newline "") <$> lines ∧
           length lines = length ms ∧
           Forall (fun l => String.length l = 156%nat ∧ table_line l) lines.
Proof.
  intros Hms Hnames. induction Hms as [|m ms Hm _ IH].
  - exists []. by repeat split.
  - destruct IH as (lines & Hrows & Hlen & Hlines).
    destruct (ascii_row_line table m Hm Hnames) as (l & Hl & Hll & Htl).
    exists (l :: lines). cbn [fmap list_fmap length]. rewrite Hl.
    split_and!; [by f_equal|by rewrite Hlen|by constructor].
Qed.

(** X29. The columns of the text table line up.  When no cell holds a text
    longer than the field width of 30 or with a line break in it, the file
    is made of 133 lines, each ended by a line break: the header and one
    line per row.  Every line has 156 characters before its line break, a
    field of six for the time and five fields of 30 for the days, and no
    line break among them. *)
Theorem fancy_write_aligned (fuel : nat) (schedule : Schedule.t) (name : string) :
  has_cells schedule → create_filename schedule = Some name → (132 < fuel)%nat →
  (∀ k v, Schedule.table schedule !! k = Some v →
          (String.length v ≤ field_width)%nat ∧ all_chars re_any v) →
  ∃ file lines,
    fancy_write fuel schedule
    = Done (file, join ((fun l => l +:+ String newline "") <$> lines)) ∧
    length lines = 133%nat ∧
    Forall (fun l => String.length l = 156%nat ∧ table_line l) lines.
Proof.
  intros Hcells Hname Hfuel Hnames.
  destruct (ascii_rows_lines (Schedule.table schedule)
              ((fun j : nat => start_of_day * 60 + 5 * Z.of_nat j) <$> seq 0 132))
    as (lines & Hrows & Hlen & Hlines); [|done|].
  { apply Forall_fmap, Forall_forall. intros j Hj%elem_of_seq. cbn.
    unfold start_of_day, end_of_day. lia. }
  rewrite length_fmap, length_seq in Hlen.
  destruct toprow_line as (header & Hheader & Hhl & Hht).
  exists ("./schedules/" +:+ name +:+ "ascii.txt"), (header :: lines).
  split_and!.
  - rewrite (fancy_write_table fuel schedule name Hcells Hname Hfuel).
    do 2 f_equal. cbn [fmap list_fmap]. change (join (?x :: ?l)) with (x +:+ join l).
    unfold ascii_rows. by rewrite zrange_step_rows, Hheader, Hrows.
  - cbn [length]. by rewrite Hlen.
  - by constructor.
Qed.

Lemma fancy_write_aligned_witness :
  ∃ file lines,
    fancy_write 133 blank_saved
    = Done (file, join ((fun l => l +:+ String newline "") <$> lines)) ∧
    length lines = 133%nat ∧
    Forall (fun l => String.length l = 156%nat ∧ table_line l) lines.
Proof.
  apply (fancy_write_aligned 133 blank_saved "schedule1");
    [apply blank_saved_has_cells|reflexivity|lia|].
  intros k v Hv. apply blank_schedule_lookup in Hv as [-> _]. split; [cbn; lia|constructor].
Defined.

(** X30. Every schedule the search saves can be written as a text table:
    when the search returns, [create_filename] has a name for each saved
    schedule, and [fancy_write] on it raises nothing and writes the table of
    its cells. *)
Theorem percolate_fancy_write (ss : list Subject.t) (fuel : nat) (st : state)
  (schedule : Schedule.t) (fuel' : nat) :
  percolate fuel (initial_state ss) = Done st →
  schedule ∈ saved_schedules st → (132 < fuel')%nat →
  ∃ name,
    create_filename schedule = Some name ∧
    fancy_write fuel' schedule
    = Done ("./schedules/" +:+ name +:+ "ascii.txt",
            toprow +:+ join (ascii_rows (Schedule.table schedule))).
Proof.
  intros Hp Hin Hfuel.
  assert (has_cells schedule) as Hcells.
  { pose proof (percolate_has_cells _ _ _ Hp) as H. cbn in H.
    specialize (H (Forall_nil_2 _)). by eapply Forall_forall in H. }
  apply list_elem_of_lookup in Hin as [i Hi].
  assert (numbered (saved_schedules st)) as Hnum.
  { eapply percolate_numbered; [exact Hp|]. intros j sch Hj. done. }
  destruct (Hnum i schedule Hi) as [Hv _].
  assert (is_Some (create_filename schedule)) as [name Hname].
  { unfold create_filename. rewrite Hv. by eexists. }
  exists name. split; [done|]. by apply fancy_write_table.
Qed.

Lemma percolate_fancy_write_witness :
  ∃ st, percolate 30 (initial_state subjects_AB) = Done st ∧
        length (saved_schedules st) = 3%nat ∧
        ∀ schedule, schedule ∈ saved_schedules st →
          ∃ name,
            create_filename schedule = Some name ∧
            fancy_write 133 schedule
            = Done ("./schedules/" +:+ name +:+ "ascii.txt",
                    toprow +:+ join (ascii_rows (Schedule.table schedule))).
Proof.
  assert (Hc : match percolate 30 (initial_state subjects_AB) with
               | Done st => bool_decide (length (saved_schedules st) = 3%nat)
               | _ => false
               end = true)
    by (vm_compute; reflexivity).
  destruct (percolate 30 (initial_state subjects_AB)) as [st| |] eqn:E;
    [|discriminate Hc..].
  exists st. split; [reflexivity|]. split; [exact (bool_decide_eq_true_1 _ Hc)|].
  intros schedule Hin.
  apply (percolate_fancy_write subjects_AB 30 st schedule 133 E Hin). lia.
Defined.
